(** * numbers: scale-aware extraction of numeric facts

    A shallow embedding of [patterns.py] and [extract.py] and the
    properties of the extraction core.

    Conventions of the embedding.
    - A Python [str] is a list of characters ([str := list ascii]); a
      character is a code point in the range U+0000..U+00FF.  The character
      classes below are Python's Unicode classes restricted to that range.
    - A Python [float] is an IEEE 754 binary64 value, [spec_float] with
      precision 53 and maximal exponent 1024.
    - The [re] module is a backtracking matcher: ordered alternation,
      greedy quantifiers, leftmost match.  Patterns are kept as the source
      writes them, as pattern strings, and compiled by [ReParse.compile].
    - Exceptions are values of [result]: [Raise e] is an exception that
      leaves the function. *)

From Stdlib Require Import List Bool Arith ZArith QArith Lia Sorted.
From Stdlib Require Import Ascii String DecimalString.
From Stdlib Require Import Floats.SpecFloat Floats.PrimFloat Floats.FloatOps.
Import ListNotations.

Set Implicit Arguments.

Local Close Scope Q_scope.
Local Open Scope nat_scope.
Local Open Scope list_scope.
Local Open Scope bool_scope.

(** ** Python values *)

Definition str := list ascii.

(** [L "abc"] is the Python literal ["abc"]. *)
Definition L (s : string) : str := list_ascii_of_string s.

Definition code (c : ascii) : N := N_of_ascii c.

Definition ascii_eqb (a b : ascii) : bool := Ascii.eqb a b.

Fixpoint str_eqb (a b : str) : bool :=
  match a, b with
  | [], [] => true
  | x :: a', y :: b' => ascii_eqb x y && str_eqb a' b'
  | _, _ => false
  end.

(** Exceptions that the modelled code can raise. *)
Inductive exn := ValueError | OverflowError.

Inductive result (A : Type) : Type :=
| Ok (a : A)
| Raise (e : exn).

Arguments Ok {A} a.
Arguments Raise {A} e.

Definition bind {A B} (m : result A) (f : A -> result B) : result B :=
  match m with
  | Ok a => f a
  | Raise e => Raise e
  end.

Declare Scope result_scope.
Delimit Scope result_scope with result.
Notation "x <- m ;; k" := (bind m (fun x => k))
  (at level 61, m at next level, right associativity) : result_scope.
Local Open Scope result_scope.

(** ** Python string methods used by the source *)
Module Py.

(** [str.isspace] on one character (also [\s] of a str pattern). *)
Definition isspace (c : ascii) : bool :=
  let n := code c in
  ((9 <=? n) && (n <=? 13) || (28 <=? n) && (n <=? 32)
   || (n =? 133) || (n =? 160))%N.

(** Decimal digits ([\d] of a str pattern). *)
Definition isdecimal (c : ascii) : bool :=
  let n := code c in ((48 <=? n) && (n <=? 57))%N.

(** [\w] of a str pattern: alphanumeric or underscore. *)
Definition isword (c : ascii) : bool :=
  let n := code c in
  ((48 <=? n) && (n <=? 57) || (65 <=? n) && (n <=? 90)
   || (97 <=? n) && (n <=? 122) || (n =? 95)
   || (n =? 170) || (n =? 178) || (n =? 179) || (n =? 181)
   || (n =? 185) || (n =? 186) || (188 <=? n) && (n <=? 190)
   || (192 <=? n) && (n <=? 214) || (216 <=? n) && (n <=? 246)
   || (248 <=? n) && (n <=? 255))%N.

(** Lower-casing of the ASCII letters, the only letters of the patterns. *)
Definition lower (c : ascii) : ascii :=
  let n := code c in
  if ((65 <=? n) && (n <=? 90))%N then ascii_of_N (n + 32) else c.

Fixpoint lstrip (s : str) : str :=
  match s with
  | c :: t => if isspace c then lstrip t else s
  | [] => []
  end.

Definition rstrip (s : str) : str := rev (lstrip (rev s)).

(** [s.strip()] *)
Definition strip (s : str) : str := rstrip (lstrip s).

(** [s.replace(old, new)] for a one-character [old]. *)
Fixpoint replace (old : ascii) (new : str) (s : str) : str :=
  match s with
  | [] => []
  | c :: t => if ascii_eqb c old then new ++ replace old new t
              else c :: replace old new t
  end.

(** [c in s] for a one-character [c]. *)
Fixpoint contains (c : ascii) (s : str) : bool :=
  match s with
  | [] => false
  | x :: t => ascii_eqb x c || contains c t
  end.

(** [s.split(sep)] for a one-character [sep]: never empty. *)
Fixpoint split (sep : ascii) (s : str) : list str :=
  match s with
  | [] => [[]]
  | c :: t =>
      if ascii_eqb c sep then [] :: split sep t
      else match split sep t with
           | h :: r => (c :: h) :: r
           | [] => [[c]]
           end
  end.

(** [sep.join(parts)] *)
Fixpoint join (sep : str) (parts : list str) : str :=
  match parts with
  | [] => []
  | [p] => p
  | p :: rest => p ++ sep ++ join sep rest
  end.

(** [s[i:j]] for [0 <= i] and [0 <= j]. *)
Definition slice (s : str) (i j : nat) : str := firstn (j - i) (skipn i s).

(** Truthiness of an optional string: [None] and [""] are false. *)
Definition truthy (c : option str) : bool :=
  match c with
  | Some (_ :: _) => true
  | _ => false
  end.

(** [c or ""] *)
Definition or_empty (c : option str) : str :=
  match c with
  | Some s => s
  | None => []
  end.

End Py.

(** ** The part of [re] that the patterns use *)
Module Re.

(** One-character matchers. *)
Inductive atom :=
| ALit (c : ascii)
| ADigit
| ASpace
| AWord
| AOr (a b : atom).

Inductive regex :=
| REmpty
| RAtom (a : atom)
| ROpt (a : atom)
| RStar (a : atom)
| RPlus (a : atom)
| RSeq (r1 r2 : regex)
| RAlt (r1 r2 : regex)
| RGroup (n : nat) (r : regex)
| RBoundary
| RBol
| REol
| RNever.

(** A compiled pattern: the expression and the IGNORECASE flag. *)
Record pattern := { p_re : regex; p_icase : bool }.

Fixpoint atom_match (ic : bool) (a : atom) (c : ascii) : bool :=
  match a with
  | ALit x => if ic then ascii_eqb (Py.lower x) (Py.lower c) else ascii_eqb x c
  | ADigit => Py.isdecimal c
  | ASpace => Py.isspace c
  | AWord => Py.isword c
  | AOr a1 a2 => atom_match ic a1 c || atom_match ic a2 c
  end.

(** Position in the subject: index, previous character, rest, and the
    spans of the groups closed so far. *)
Record mstate := {
  pos : nat;
  prev : option ascii;
  rest : str;
  caps : list (nat * (nat * nat))
}.

Definition advance (st : mstate) (c : ascii) (t : str) : mstate :=
  {| pos := S (pos st); prev := Some c; rest := t; caps := caps st |}.

Definition is_word_opt (c : option ascii) : bool :=
  match c with
  | Some x => Py.isword x
  | None => false
  end.

Definition at_boundary (st : mstate) : bool :=
  xorb (is_word_opt (prev st)) (is_word_opt (hd_error (rest st))).

(** [$] without MULTILINE: at the end, or before a final newline. *)
Definition at_eol (st : mstate) : bool :=
  match rest st with
  | [] => true
  | [c] => ascii_eqb c "010"%char
  | _ => false
  end.

Definition orelse {A} (x : option A) (y : option A) : option A :=
  match x with
  | Some _ => x
  | None => y
  end.

Section Matcher.
Variable ic : bool.
Variable A : Type.

(** Greedy [a*] from [st]: take as many as possible, give back one at
    a time. *)
Fixpoint star (a : atom) (t : str) (st : mstate)
         (k : mstate -> option A) {struct t} : option A :=
  match t with
  | c :: t' =>
      if atom_match ic a c
      then orelse (star a t' (advance st c t') k) (k st)
      else k st
  | [] => k st
  end.

Fixpoint rmatch (r : regex) (st : mstate) (k : mstate -> option A)
  : option A :=
  match r with
  | REmpty => k st
  | RAtom a =>
      match rest st with
      | c :: t => if atom_match ic a c then k (advance st c t) else None
      | [] => None
      end
  | ROpt a =>
      match rest st with
      | c :: t =>
          if atom_match ic a c then orelse (k (advance st c t)) (k st)
          else k st
      | [] => k st
      end
  | RStar a => star a (rest st) st k
  | RPlus a =>
      match rest st with
      | c :: t =>
          if atom_match ic a c
          then star a t (advance st c t) k
          else None
      | [] => None
      end
  | RSeq r1 r2 => rmatch r1 st (fun st' => rmatch r2 st' k)
  | RAlt r1 r2 => orelse (rmatch r1 st k) (rmatch r2 st k)
  | RGroup n r =>
      rmatch r st (fun st' =>
        k {| pos := pos st'; prev := prev st'; rest := rest st';
             caps := (n, (pos st, pos st')) :: caps st' |})
  | RBoundary => if at_boundary st then k st else None
  | RBol => if Nat.eqb (pos st) 0 then k st else None
  | REol => if at_eol st then k st else None
  | RNever => None
  end.
End Matcher.

(** A match object: span of the whole match and of the groups. *)
Record mobj := {
  m_subject : str;
  m_start : nat;
  m_end : nat;
  m_caps : list (nat * (nat * nat))
}.

Definition initial (s : str) : mstate :=
  {| pos := 0; prev := None; rest := s; caps := [] |}.

Definition mk_mobj (s : str) (start : nat) (st : mstate) : mobj :=
  {| m_subject := s; m_start := start; m_end := pos st; m_caps := caps st |}.

(** Try the pattern at the position of [st] only. *)
Definition match_at (p : pattern) (s : str) (st : mstate) : option mobj :=
  rmatch (p_icase p) (p_re p)
    {| pos := pos st; prev := prev st; rest := rest st; caps := [] |}
    (fun st' => Some (mk_mobj s (pos st) st')).

(** [p.match(s)] *)
Definition match_ (p : pattern) (s : str) : option mobj :=
  match_at p s (initial s).

(** [p.fullmatch(s)] *)
Definition fullmatch (p : pattern) (s : str) : option mobj :=
  rmatch (p_icase p) (p_re p) (initial s)
    (fun st' => match rest st' with
                | [] => Some (mk_mobj s 0 st')
                | _ => None
                end).

(** Leftmost match at or after the position of [st]. *)
Fixpoint search_from (p : pattern) (s : str) (t : str) (st : mstate)
         {struct t} : option mobj :=
  orelse (match_at p s st)
    match t with
    | c :: t' => search_from p s t' (advance st c t')
    | [] => None
    end.

(** [p.search(s)] *)
Definition search (p : pattern) (s : str) : option mobj :=
  search_from p s s (initial s).

(** Matches found scanning left to right; a start position before
    [resume] lies inside the previous match and is skipped.  An empty
    match moves on by one character, which is [re]'s behaviour for the
    patterns of this program: none of them matches the empty string. *)
Fixpoint scan (p : pattern) (s : str) (t : str) (st : mstate)
         (resume : nat) {struct t} : list mobj :=
  let here := if Nat.ltb (pos st) resume then None else match_at p s st in
  match here with
  | Some m =>
      m :: match t with
           | c :: t' => scan p s t' (advance st c t') (Nat.max (m_end m) (S (pos st)))
           | [] => []
           end
  | None =>
      match t with
      | c :: t' => scan p s t' (advance st c t') resume
      | [] => []
      end
  end.

(** [p.finditer(s)] *)
Definition finditer (p : pattern) (s : str) : list mobj :=
  scan p s s (initial s) 0.

(** [m.group(n)] for a group that took part in the match; [m.group(0)]
    is the whole match. *)
Definition span (m : mobj) (n : nat) : option (nat * nat) :=
  match n with
  | 0 => Some (m_start m, m_end m)
  | _ => option_map snd (find (fun c => Nat.eqb (fst c) n) (m_caps m))
  end.

Definition group (m : mobj) (n : nat) : str :=
  match span m n with
  | Some (i, j) => Py.slice (m_subject m) i j
  | None => []
  end.

(** [p.sub("", s)]: the subject without the matched spans. *)
Fixpoint remove_spans (ms : list mobj) (s : str) (from : nat) : str :=
  match ms with
  | [] => skipn from s
  | m :: ms' => Py.slice s from (m_start m) ++ remove_spans ms' s (m_end m)
  end.

Definition sub_empty (p : pattern) (s : str) : str :=
  remove_spans (finditer p s) s 0.

End Re.

(** ** What a pattern matches

    [sem ic r st st'] says that [r] can take the matcher from [st] to
    [st']; the matcher [Re.rmatch] finds the first such [st'], in its
    backtracking order, that its continuation accepts. *)
Module ReSem.
Import Re.

(** Last character of [w], or [p] when [w] is empty. *)
Fixpoint last_of (p : option ascii) (w : str) : option ascii :=
  match w with
  | [] => p
  | c :: w' => last_of (Some c) w'
  end.

(** The state after the word [w], with [t] left to read. *)
Definition after (st : mstate) (w t : str) : mstate :=
  {| pos := List.length w + pos st; prev := last_of (prev st) w;
     rest := t; caps := caps st |}.

(** The state after a group numbered [n] that was entered at [st]. *)
Definition close (n : nat) (st st1 : mstate) : mstate :=
  {| pos := pos st1; prev := prev st1; rest := rest st1;
     caps := (n, (pos st, pos st1)) :: caps st1 |}.

Fixpoint sem (ic : bool) (r : regex) (st st' : mstate) : Prop :=
  match r with
  | REmpty => st' = st
  | RAtom a =>
      exists c t, rest st = c :: t /\ atom_match ic a c = true
                  /\ st' = after st [c] t
  | ROpt a =>
      st' = st \/
      exists c t, rest st = c :: t /\ atom_match ic a c = true
                  /\ st' = after st [c] t
  | RStar a =>
      exists w t, rest st = w ++ t /\ forallb (atom_match ic a) w = true
                  /\ st' = after st w t
  | RPlus a =>
      exists w t, rest st = w ++ t /\ forallb (atom_match ic a) w = true
                  /\ w <> [] /\ st' = after st w t
  | RSeq r1 r2 => exists st1, sem ic r1 st st1 /\ sem ic r2 st1 st'
  | RAlt r1 r2 => sem ic r1 st st' \/ sem ic r2 st st'
  | RGroup n r1 => exists st1, sem ic r1 st st1 /\ st' = close n st st1
  | RBoundary => at_boundary st = true /\ st' = st
  | RBol => pos st = 0 /\ st' = st
  | REol => at_eol st = true /\ st' = st
  | RNever => False
  end.

(** The words of [r], whatever surrounds them. *)
Fixpoint lang (ic : bool) (r : regex) (w : str) : Prop :=
  match r with
  | REmpty | RBoundary | RBol | REol => w = []
  | RAtom a => exists c, w = [c] /\ atom_match ic a c = true
  | ROpt a => w = [] \/ exists c, w = [c] /\ atom_match ic a c = true
  | RStar a => forallb (atom_match ic a) w = true
  | RPlus a => forallb (atom_match ic a) w = true /\ w <> []
  | RSeq r1 r2 => exists w1 w2, w = w1 ++ w2 /\ lang ic r1 w1 /\ lang ic r2 w2
  | RAlt r1 r2 => lang ic r1 w \/ lang ic r2 w
  | RGroup _ r1 => lang ic r1 w
  | RNever => False
  end.

(** Expressions without anchors, boundaries and groups. *)
Fixpoint plain (r : regex) : bool :=
  match r with
  | REmpty | RAtom _ | ROpt _ | RStar _ | RPlus _ => true
  | RSeq r1 r2 | RAlt r1 r2 => plain r1 && plain r2
  | _ => false
  end.

(** Some one-character matcher of [r] takes [c]. *)
Fixpoint accepts (ic : bool) (r : regex) (c : ascii) : bool :=
  match r with
  | RAtom a | ROpt a | RStar a | RPlus a => atom_match ic a c
  | RSeq r1 r2 | RAlt r1 r2 => accepts ic r1 c || accepts ic r2 c
  | RGroup _ r1 => accepts ic r1 c
  | _ => false
  end.

(** The pattern ends with the anchor [$]. *)
Fixpoint ends_eol (r : regex) : bool :=
  match r with
  | REol => true
  | RSeq _ r2 => ends_eol r2
  | _ => false
  end.

(** The pattern ends with group [n], of body [body], and a boundary. *)
Inductive ends_with_group (n : nat) (body : regex) : regex -> Prop :=
| ewg_here : ends_with_group n body (RSeq (RGroup n body) RBoundary)
| ewg_seq (r1 r2 : regex) :
    ends_with_group n body r2 -> ends_with_group n body (RSeq r1 r2).

(** The alternatives of an alternation, in order. *)
Fixpoint alts (r : regex) : list regex :=
  match r with
  | RAlt a b => a :: alts b
  | _ => [r]
  end.

(** The matcher's position [st] lies in the subject [s]. *)
Definition within (s : str) (st : mstate) : Prop :=
  skipn (pos st) s = rest st.

End ReSem.

(** ** Compilation of pattern strings *)
Module ReParse.
Import Re.

Definition parsed := option (regex * str * nat).

(** An escape outside a set that stands for one character. *)
Definition escape_atom (c : ascii) : atom :=
  if ascii_eqb c "d" then ADigit
  else if ascii_eqb c "s" then ASpace
  else if ascii_eqb c "w" then AWord
  else ALit c.

(** The items of a set up to its closing bracket; [esc] is set after a
    backslash. *)
Fixpoint parse_set (esc : bool) (acc : option atom) (s : str)
  : option (atom * str) :=
  let add a := match acc with
               | Some b => Some (AOr b a)
               | None => Some a
               end in
  match s with
  | [] => None
  | c :: t =>
      if esc then parse_set false (add (escape_atom c)) t
      else if ascii_eqb c "\" then parse_set true acc t
      else if ascii_eqb c "]"
           then match acc with
                | Some a => Some (a, t)
                | None => None
                end
      else parse_set false (add (ALit c)) t
  end.

(** A quantifier after a one-character matcher. *)
Definition quantified (a : atom) (s : str) : regex * str :=
  match s with
  | c :: t =>
      if ascii_eqb c "?" then (ROpt a, t)
      else if ascii_eqb c "*" then (RStar a, t)
      else if ascii_eqb c "+" then (RPlus a, t)
      else (RAtom a, s)
  | [] => (RAtom a, s)
  end.

Definition is_quantifier (s : str) : bool :=
  match s with
  | c :: _ => ascii_eqb c "?" || ascii_eqb c "*" || ascii_eqb c "+"
  | [] => false
  end.

Fixpoint parse_alt (fuel : nat) (s : str) (gn : nat) : parsed :=
  match fuel with
  | 0 => None
  | S f =>
      match parse_seq f s gn with
      | Some (r1, c :: s', gn') =>
          if ascii_eqb c "|"
          then match parse_alt f s' gn' with
               | Some (r2, s'', gn'') => Some (RAlt r1 r2, s'', gn'')
               | None => None
               end
          else Some (r1, c :: s', gn')
      | other => other
      end
  end
with parse_seq (fuel : nat) (s : str) (gn : nat) : parsed :=
  match fuel with
  | 0 => None
  | S f =>
      match s with
      | [] => Some (REmpty, s, gn)
      | c :: _ =>
          if ascii_eqb c "|" || ascii_eqb c ")" then Some (REmpty, s, gn)
          else match parse_item f s gn with
               | Some (r1, s', gn') =>
                   match parse_seq f s' gn' with
                   | Some (REmpty, s'', gn'') => Some (r1, s'', gn'')
                   | Some (r2, s'', gn'') => Some (RSeq r1 r2, s'', gn'')
                   | None => None
                   end
               | None => None
               end
      end
  end
with parse_item (fuel : nat) (s : str) (gn : nat) : parsed :=
  match fuel with
  | 0 => None
  | S f =>
      match s with
      | [] => None
      | c :: t =>
          if ascii_eqb c "("
          then match parse_alt f t (S gn) with
               | Some (r, x :: t', gn') =>
                   if ascii_eqb x ")" && negb (is_quantifier t')
                   then Some (RGroup gn r, t', gn')
                   else None
               | _ => None
               end
          else if ascii_eqb c "["
          then match parse_set false None t with
               | Some (a, t') =>
                   let (r, t'') := quantified a t' in Some (r, t'', gn)
               | None => None
               end
          else if ascii_eqb c "\"
          then match t with
               | e :: t' =>
                   if ascii_eqb e "b" then Some (RBoundary, t', gn)
                   else let (r, t'') := quantified (escape_atom e) t' in
                        Some (r, t'', gn)
               | [] => None
               end
          else if ascii_eqb c "^" then Some (RBol, t, gn)
          else if ascii_eqb c "$" then Some (REol, t, gn)
          else if is_quantifier s || ascii_eqb c "." || ascii_eqb c "{"
          then None
          else let (r, t') := quantified (ALit c) t in Some (r, t', gn)
      end
  end.

(** [re.compile(pat, flags)]: groups are numbered from 1 in the order of
    their opening parentheses.  Syntax outside the part of [re] that
    the patterns of this program use compiles to [RNever]. *)
Definition compile (pat : str) (ignorecase : bool) : pattern :=
  match parse_alt (3 * List.length pat + 3) pat 1 with
  | Some (r, [], _) => {| p_re := r; p_icase := ignorecase |}
  | _ => {| p_re := RNever; p_icase := ignorecase |}
  end.

End ReParse.

(** ** Python floats *)
Module Float.

Definition float := spec_float.

Definition prec : Z := 53.
Definition emax : Z := 1024.

Definition fneg (x : float) : float := SFopp x.
Definition fmul (x y : float) : float := SFmul prec emax x y.

(** The binary64 value nearest to [m * 10^e10], ties to even. *)
Definition of_decimal (neg : bool) (m : N) (e10 : Z) : float :=
  match m with
  | N0 => S754_zero neg
  | Npos p =>
      match e10 with
      | Zneg q =>
          SFdiv prec emax (S754_finite neg p 0)
                (S754_finite false (Pos.pow 10 q) 0)
      | _ => binary_round prec emax neg (p * Z.to_pos (10 ^ e10))%positive 0
      end
  end.

(** Conversion of a Python [int]: exact or nearest-even, and an
    [OverflowError] when the integer is beyond the range of a float. *)
Definition of_int (z : Z) : result float :=
  match binary_normalize prec emax z 0 false with
  | S754_infinity _ => Raise OverflowError
  | f => Ok f
  end.

(** [x * n] for a float [x] and an int [n]. *)
Definition mul_int (x : float) (n : Z) : result float :=
  f <- of_int n ;; Ok (fmul x f).

Definition digit_val (c : ascii) : N := (code c - 48)%N.

Fixpoint digits_val (acc : N) (ds : str) : N :=
  match ds with
  | [] => acc
  | c :: t => digits_val (10 * acc + digit_val c)%N t
  end.

(** Longest prefix of decimal digits, and what follows it. *)
Fixpoint span_digits (s : str) : str * str :=
  match s with
  | c :: t =>
      if Py.isdecimal c
      then let (ds, r) := span_digits t in (c :: ds, r)
      else ([], s)
  | [] => ([], [])
  end.

(** Underscores are allowed between two digits only. *)
Fixpoint drop_underscores (prev : option ascii) (s : str) : option str :=
  match s with
  | [] =>
      match prev with
      | Some p => if ascii_eqb p "_" then None else Some []
      | None => Some []
      end
  | c :: t =>
      if ascii_eqb c "_"
      then match prev with
           | Some p => if Py.isdecimal p then drop_underscores (Some c) t
                       else None
           | None => None
           end
      else
        let ok := match prev with
                  | Some p => negb (ascii_eqb p "_") || Py.isdecimal c
                  | None => true
                  end in
        if ok then option_map (cons c) (drop_underscores (Some c) t)
        else None
  end.

Definition take_sign (s : str) : bool * str :=
  match s with
  | c :: t =>
      if ascii_eqb c "-" then (true, t)
      else if ascii_eqb c "+" then (false, t)
      else (false, s)
  | [] => (false, s)
  end.

(** The exponent part, [e] or [E], an optional sign and digits. *)
Definition parse_exponent (s : str) : option Z :=
  match s with
  | [] => Some 0%Z
  | c :: t =>
      if ascii_eqb (Py.lower c) "e"
      then let (neg, t') := take_sign t in
           match span_digits t' with
           | ((_ :: _) as ds, []) =>
               let e := Z.of_N (digits_val 0 ds) in
               Some (if neg then (- e)%Z else e)
           | _ => None
           end
      else None
  end.

(** White space that [float] ignores around a number: the [isspace] of C
    and the spaces beyond ASCII. *)
Definition isblank (c : ascii) : bool :=
  let n := code c in
  ((9 <=? n) && (n <=? 13) || (n =? 32) || (n =? 133) || (n =? 160))%N.

Fixpoint skip_blanks (s : str) : str :=
  match s with
  | c :: t => if isblank c then skip_blanks t else s
  | [] => []
  end.

Definition trim (s : str) : str :=
  rev (skip_blanks (rev (skip_blanks s))).

(** [float(s)] for a string [s]. *)
Definition of_str (s : str) : result float :=
  match drop_underscores None (trim s) with
  | None => Raise ValueError
  | Some t =>
      let (neg, body) := take_sign t in
      let low := map Py.lower body in
      if str_eqb low (L "inf") || str_eqb low (L "infinity")
      then Ok (S754_infinity neg)
      else if str_eqb low (L "nan") then Ok S754_nan
      else
        let (ip, r1) := span_digits body in
        let (fp, r2) :=
          match r1 with
          | c :: t' => if ascii_eqb c "." then span_digits t' else ([], r1)
          | [] => ([], r1)
          end in
        match ip ++ fp with
        | [] => Raise ValueError
        | ds =>
            match parse_exponent r2 with
            | Some e =>
                Ok (of_decimal neg (digits_val 0 ds)
                               (e - Z.of_nat (List.length fp)))
            | None => Raise ValueError
            end
        end
  end.

End Float.

(** ** patterns.py *)
Module Patterns.
Import Re.

(** Characters of surrounding text captured for inline matches. *)
Definition CONTEXT_WINDOW : nat := 30.

(** Each entry: the raw pattern string, the label and the factor. *)
Definition MULTIPLIERS : list (str * str * Z) :=
  [ (L "thousands?|k", L "Thousand", 1000%Z);
    (L "millions?|m", L "Million", 1000000%Z);
    (L "billions?|b", L "Billion", 1000000000%Z);
    (L "trillions?|t", L "Trillion", 1000000000000%Z) ].

Definition _MULTIPLIER_COMPILED : list (pattern * str * Z) :=
  map (fun '(pat, label, factor) => (ReParse.compile pat true, label, factor))
      MULTIPLIERS.

Definition _mult_alt : str :=
  Py.join (L "|") (map (fun '(pat, _, _) => pat) MULTIPLIERS).

Definition HEADER_UNIT_PATTERNS : list pattern :=
  [ ReParse.compile (L "\(\w+\s+in\s+(" ++ _mult_alt ++ L ")\)") true;
    ReParse.compile (L "\(\s*\$\s+IN\s+(" ++ _mult_alt ++ L ")\)") true;
    ReParse.compile (L "\(\$\s*(" ++ _mult_alt ++ L ")\)") true;
    ReParse.compile (L "\(\s*\$\s*(" ++ _mult_alt ++ L ")\s*\)") true ].

Definition INLINE_DOLLAR_PATTERN : pattern :=
  ReParse.compile (L "\$\s*([\d,]+\.?\d*)\s*(" ++ _mult_alt ++ L ")\b") true.

Definition _mult_words : str :=
  Py.join (L "|")
    (map (fun '(pat, _, _) => pat)
         (filter (fun '(pat, _, _) => Nat.ltb 2 (List.length pat)) MULTIPLIERS)).

Definition INLINE_BARE_PATTERN : pattern :=
  ReParse.compile (L "([\d,]+\.?\d*)\s+(" ++ _mult_words ++ L ")\b") true.

Definition NUMBER_PATTERN : pattern :=
  ReParse.compile (L "^\s*\(?\s*[\d,]+\.?\d*\s*\)?\s*$") false.

(** The loop of [resolve_multiplier] over the compiled table. *)
Fixpoint resolve_in (table : list (pattern * str * Z)) (text : str)
  : option (str * Z) :=
  match table with
  | [] => None
  | (pattern, label, factor) :: table' =>
      match fullmatch pattern text with
      | Some _ => Some (label, factor)
      | None => resolve_in table' text
      end
  end.

(** Match a scale word or abbreviation: [(label, factor)] or [None]. *)
Definition resolve_multiplier (text : str) : option (str * Z) :=
  resolve_in _MULTIPLIER_COMPILED (Py.strip text).

(** The loop of [find_header_multiplier] over the header patterns: the
    first pattern found in the text decides. *)
Fixpoint find_in (patterns : list pattern) (text : str)
  : option (str * Z) :=
  match patterns with
  | [] => None
  | pattern :: patterns' =>
      match search pattern text with
      | Some m => resolve_multiplier (group m 1)
      | None => find_in patterns' text
      end
  end.

(** Extract the multiplier from header text. *)
Definition find_header_multiplier (text : str) : option (str * Z) :=
  find_in HEADER_UNIT_PATTERNS text.

(** Check if text looks like a numeric value. *)
Definition is_number (text : str) : bool :=
  match match_ NUMBER_PATTERN text with
  | Some _ => true
  | None => false
  end.

(** Parse an accounting-formatted number string into a float; [None]
    is the failure result. *)
Definition parse_number (text : str) : option Float.float :=
  let text := Py.strip text in
  match text with
  | [] => None
  | _ =>
      let negative := Py.contains "(" text && Py.contains ")" text in
      let cleaned :=
        Py.strip (Py.replace "," [] (Py.replace ")" [] (Py.replace "(" [] text))) in
      match Float.of_str cleaned with
      | Ok value => Some (if negative then Float.fneg value else value)
      | Raise _ => None
      end
  end.

End Patterns.

(** ** Reading an accounting number

    What [parse_number] is expected to return for a well-formed cell,
    stated on the text itself. *)
Module Accounting.

(** The decimal digits of the text, thousands separators dropped. *)
Definition digits (s : str) : str := filter Py.isdecimal s.

(** What follows the first decimal point. *)
Fixpoint after_point (s : str) : str :=
  match s with
  | [] => []
  | c :: t => if ascii_eqb c "." then t else after_point t
  end.

(** The number of fractional digits. *)
Definition frac_digits (s : str) : nat := List.length (digits (after_point s)).

(** The magnitude written in the text: its digits, scaled by the number
    of fractional digits, as the nearest float. *)
Definition magnitude (s : str) : Float.float :=
  Float.of_decimal false (Float.digits_val 0 (digits s))
                   (- Z.of_nat (frac_digits s)).

(** The text without parentheses, thousands separators and outer
    white space. *)
Definition cleaned (s : str) : str :=
  Py.strip (Py.replace "," [] (Py.replace ")" [] (Py.replace "(" [] s))).

(** Both parentheses are present. *)
Definition parenthesized (s : str) : bool :=
  Py.contains "(" s && Py.contains ")" s.

(** The sign bit of a float; [nan] counts as unsigned. *)
Definition sign_bit (f : Float.float) : bool :=
  match f with
  | S754_zero s | S754_infinity s | S754_finite s _ _ => s
  | S754_nan => false
  end.

End Accounting.

(** ** Loops that may raise *)

(** A [for] loop over [l] that threads the state [s]. *)
Fixpoint foldM {S A : Type} (f : S -> A -> result S) (s : S) (l : list A)
  : result S :=
  match l with
  | [] => Ok s
  | x :: l' => s' <- f s x ;; foldM f s' l'
  end.

(** [enumerate(l)] from index [i]. *)
Fixpoint enumerate_from {A : Type} (i : nat) (l : list A) : list (nat * A) :=
  match l with
  | [] => []
  | x :: l' => (i, x) :: enumerate_from (S i) l'
  end.

Definition enumerate {A : Type} (l : list A) : list (nat * A) :=
  enumerate_from 0 l.

(** [str(n)] for a natural number. *)
Definition str_of_nat (n : nat) : str :=
  L (NilEmpty.string_of_uint (Nat.to_uint n)).

(** ** extract.py *)
Module Extract.
Import Re Patterns.

Inductive source_kind := table | narrative | table_narrative.

Record ExtractedNumber := {
  value : Float.float;
  raw : str;
  multiplier_label : option str;
  multiplier : Z;
  adjusted_value : Float.float;
  row_label : str;
  column : str;
  section : option str;
  page : option Z;
  source : option str;
  source_type : source_kind;
  context : option str
}.

(** Build an ExtractedNumber with computed adjusted_value. *)
Definition _make_result (value : Float.float) (raw : str)
           (multiplier_label : option str) (multiplier : Z)
           (row_label column : str) (source_type : source_kind)
           (section : option str) (page : option Z) (source : option str)
           (context : option str) : result ExtractedNumber :=
  adjusted <- Float.mul_int value multiplier ;;
  Ok {| value := value; raw := raw;
        multiplier_label := multiplier_label; multiplier := multiplier;
        adjusted_value := adjusted;
        row_label := row_label; column := column;
        section := section; page := page; source := source;
        source_type := source_type; context := context |}.

(** A table grid: rows of optional cell strings. *)
Definition grid := list (list (option str)).

(** A positioned region of a page.  [textlines] holds, per text line, the
    texts of its spans; [table] is the grid of a table payload. *)
Record box := {
  boxclass : str;
  y0 : Q;
  textlines : list (list str);
  btable : option grid
}.

Record page_data := {
  page_number : Z;
  boxes : list box
}.

Definition truthy_cells (rows : grid) : list str :=
  flat_map (fun row =>
    flat_map (fun cell => if Py.truthy cell then [Py.or_empty cell] else [])
             row) rows.

(** Extract all text from a box's textlines or table extract. *)
Definition get_box_text (b : box) : str :=
  let parts := List.concat (textlines b) in
  let parts :=
    match btable b with
    | Some rows => parts ++ truthy_cells rows
    | None => parts
    end in
  Py.join (L " ") parts.

(** [cell and is_number(cell.split("\n")[0])] *)
Definition cell_is_number (cell : option str) : bool :=
  Py.truthy cell
  && is_number (hd [] (Py.split "010" (Py.or_empty cell))).

(** Index of the first row that holds a number, [None] when the scan of
    [resolve_column_headers] finds none. *)
Fixpoint first_data_row (rows : list (nat * list (option str)))
  : option nat :=
  match rows with
  | [] => None
  | (i, row) :: rows' =>
      if existsb cell_is_number row then Some i else first_data_row rows'
  end.

Definition clean_cell (cell : option str) : str :=
  Py.strip (Py.replace "010" (L " ") (Py.or_empty cell)).

(** Forward fill of one header row: an empty cell takes the cleaned text
    of the nearest non-empty cell to its left. *)
Fixpoint forward_fill (last : option str) (row : list (option str))
  : list (option str) :=
  match row with
  | [] => []
  | cell :: row' =>
      if Py.truthy cell && Py.truthy (Some (Py.strip (Py.or_empty cell)))
      then cell :: forward_fill (Some (clean_cell cell)) row'
      else last :: forward_fill last row'
  end.

Definition mem_str (s : str) (l : list str) : bool :=
  existsb (str_eqb s) l.

(** The distinct non-empty values of column [j], top to bottom. *)
Fixpoint column_parts (j : nat) (filled : grid) (seen : list str)
  : list str :=
  match filled with
  | [] => []
  | row :: filled' =>
      let val := Py.strip (Py.or_empty (nth j row None)) in
      if Py.truthy (Some val) && negb (mem_str val seen)
      then val :: column_parts j filled' (val :: seen)
      else column_parts j filled' seen
  end.

(** Determine column headers from the first few rows of a table. *)
Definition resolve_column_headers (rows : grid) : option (list str) :=
  match rows with
  | [] => None
  | _ =>
      let col_count := fold_right Nat.max 0 (map (@List.length _) rows) in
      match first_data_row (enumerate rows) with
      | None => None
      | Some 0 => None
      | Some data_start =>
          let header_rows := firstn data_start rows in
          match header_rows with
          | [row] => Some (map clean_cell row)
          | _ =>
              let filled :=
                map (fun row =>
                       row ++ repeat None (col_count - List.length row))
                    header_rows in
              let filled := map (forward_fill None) filled in
              Some (map (fun j =>
                           match column_parts j filled [] with
                           | [] => L "col_" ++ str_of_nat j
                           | parts => Py.join (L " / ") parts
                           end)
                        (seq 0 col_count))
          end
      end
  end.

(** The record of one inline match, [None] when its scale word does
    not resolve. *)
Definition inline_record (text : str) (m : mobj)
  : result (option ExtractedNumber) :=
  let num_str := Py.replace "," [] (group m 1) in
  match resolve_multiplier (group m 2) with
  | None => Ok None
  | Some (label, factor) =>
      value <- Float.of_str num_str ;;
      let start := m_start m - CONTEXT_WINDOW in
      let end_ := Nat.min (List.length text) (m_end m + CONTEXT_WINDOW) in
      let context :=
        Py.strip (Py.replace "010" (L " ") (Py.slice text start end_)) in
      r <- _make_result value (Py.strip (group m 0)) (Some label) factor
                        (L "inline") (L "narrative") narrative
                        None None None (Some context) ;;
      Ok (Some r)
  end.

(** [any(ds <= start < de for ds, de in dollar_spans)] *)
Definition in_dollar_span (dollar_spans : list (nat * nat)) (start : nat)
  : bool :=
  existsb (fun '(ds, de) => Nat.leb ds start && Nat.ltb start de)
          dollar_spans.

Definition dollar_step (text : str)
           (st : list ExtractedNumber * list (nat * nat)) (m : mobj)
  : result (list ExtractedNumber * list (nat * nat)) :=
  let (found, dollar_spans) := st in
  r <- inline_record text m ;;
  match r with
  | None => Ok (found, dollar_spans)
  | Some rec => Ok (found ++ [rec], dollar_spans ++ [(m_start m, m_end m)])
  end.

Definition bare_step (text : str) (dollar_spans : list (nat * nat))
           (found : list ExtractedNumber) (m : mobj)
  : result (list ExtractedNumber) :=
  if in_dollar_span dollar_spans (m_start m) then Ok found
  else
    r <- inline_record text m ;;
    match r with
    | None => Ok found
    | Some rec => Ok (found ++ [rec])
    end.

(** Find inline numbers like '$9.6 billion', '$6M', '2.0 million'. *)
Definition extract_inline_numbers (text : str)
  : result (list ExtractedNumber) :=
  st <- foldM (dollar_step text) ([], [])
              (finditer INLINE_DOLLAR_PATTERN text) ;;
  let (found, dollar_spans) := st in
  foldM (bare_step text dollar_spans) found
        (finditer INLINE_BARE_PATTERN text).

(** [{**inline, "section": ..., "page": ..., "source": ...}] *)
Definition with_provenance (r : ExtractedNumber) (section : option str)
           (page : option Z) (source : option str) : ExtractedNumber :=
  {| value := value r; raw := raw r;
     multiplier_label := multiplier_label r; multiplier := multiplier r;
     adjusted_value := adjusted_value r;
     row_label := row_label r; column := column r;
     section := section; page := page; source := source;
     source_type := source_type r; context := context r |}.

(** Extract inline numbers from narrative text and attach provenance. *)
Definition extract_from_text (text : str) (section : option str)
           (page : option Z) (source : option str)
  : result (list ExtractedNumber) :=
  inl <- extract_inline_numbers text ;;
  foldM (fun results inline =>
           Ok (results ++ [with_provenance inline section page source]))
        [] inl.

(** The scan of [extract_from_table] for the first data row: it goes on
    while [data_start] is 0. *)
Fixpoint table_data_start (rows : list (nat * list (option str)))
         (data_start : nat) : nat :=
  match rows with
  | [] => data_start
  | (i, row) :: rows' =>
      let data_start := if existsb cell_is_number row then i else data_start in
      if Nat.ltb 0 data_start then data_start
      else table_data_start rows' data_start
  end.

(** [{**inline, "row_label": "inline", "column": "table narrative", ...}] *)
Definition as_table_narrative (r : ExtractedNumber) (section : option str)
           (page : option Z) (source : option str) : ExtractedNumber :=
  {| value := value r; raw := raw r;
     multiplier_label := multiplier_label r; multiplier := multiplier r;
     adjusted_value := adjusted_value r;
     row_label := L "inline"; column := L "table narrative";
     section := section; page := page; source := source;
     source_type := table_narrative; context := context r |}.

Section Table.
Variable multiplier_label : option str.
Variable multiplier : Z.
Variable section : option str.
Variable page : option Z.
Variable source : option str.

(** Body of the loop over the sub-values of one cell. *)
Definition sub_value_step (headers : list str) (row_label : str)
           (row_mult : option (str * Z)) (sub_labels : list str)
           (col_idx : nat) (results : list ExtractedNumber)
           (iv : nat * str) : result (list ExtractedNumber) :=
  let (vi, val_text) := iv in
  let val_text := Py.strip val_text in
  if negb (is_number val_text) then Ok results
  else
    match parse_number val_text with
    | None => Ok results
    | Some parsed_val =>
        let col_header :=
          match nth_error headers col_idx with
          | Some h => h
          | None => L "col_" ++ str_of_nat col_idx
          end in
        let sub_label :=
          match nth_error sub_labels vi with
          | Some l => Py.strip l
          | None => Py.strip (last sub_labels [])
          end in
        let (effective_label, effective_factor) :=
          match row_mult with
          | Some (l, f) => (Some l, f)
          | None =>
              if Py.contains "." val_text
              then (multiplier_label, multiplier)
              else (None, 1%Z)
          end in
        r <- _make_result parsed_val val_text
                          effective_label effective_factor
                          sub_label col_header table
                          section page source None ;;
        Ok (results ++ [r])
    end.

(** Body of the loop over the columns of one data row. *)
Definition cell_step (headers : list str) (row : list (option str))
           (row_label : str) (row_mult : option (str * Z))
           (results : list ExtractedNumber) (col_idx : nat)
  : result (list ExtractedNumber) :=
  let cell := nth col_idx row None in
  if negb (Py.truthy cell) then Ok results
  else
    let sub_labels :=
      if Py.contains "010" (Py.or_empty (hd None row))
      then Py.split "010" row_label
      else [row_label] in
    let sub_values := Py.split "010" (Py.or_empty cell) in
    foldM (sub_value_step headers row_label row_mult sub_labels col_idx)
          results (enumerate sub_values).

(** Body of the loop over the data rows. *)
Definition row_step (headers : list str)
           (results : list ExtractedNumber) (row : list (option str))
  : result (list ExtractedNumber) :=
  let row_label :=
    match row with
    | [] => []
    | c :: _ => clean_cell c
    end in
  let row_mult := find_header_multiplier row_label in
  foldM (cell_step headers row row_label row_mult) results
        (seq 1 (List.length row - 1)).

(** Body of the scan of every cell for inline numbers. *)
Definition narrative_cell_step (results : list ExtractedNumber)
           (cell : option str) : result (list ExtractedNumber) :=
  if negb (Py.truthy cell) then Ok results
  else
    inl <- extract_inline_numbers (Py.or_empty cell) ;;
    foldM (fun results inline =>
             Ok (results ++ [as_table_narrative inline section page source]))
          results inl.

(** Extract numbers from structured table rows. *)
Definition extract_from_table (rows : grid)
  : result (list ExtractedNumber) :=
  match resolve_column_headers rows with
  | None => Ok []
  | Some [] => Ok []
  | Some headers =>
      let data_start := table_data_start (enumerate rows) 0 in
      results <- foldM (row_step headers) [] (skipn data_start rows) ;;
      foldM (fun results row => foldM narrative_cell_step results row)
            results rows
  end.
End Table.

(** Return the most recent (label, factor) declared above y-position. *)
Definition mult_for_y (mult_positions : list (Q * str * Z)) (y : Q)
  : option (str * Z) :=
  fold_left (fun result '(uy, label, factor) =>
               if Qle_bool uy y then Some (label, factor) else result)
            mult_positions None.

(** [sorted(boxes, key=lambda b: b["y0"])]: a stable sort. *)
Fixpoint insert_box (b : box) (l : list box) : list box :=
  match l with
  | [] => [b]
  | x :: l' =>
      if Qle_bool (y0 b) (y0 x) then b :: l else x :: insert_box b l'
  end.

Definition sorted_boxes (l : list box) : list box :=
  fold_right insert_box [] l.

(** State of the walk over the boxes of one page. *)
Record walk := {
  mult_positions : list (Q * str * Z);
  section_name : option str;
  results : list ExtractedNumber
}.

(** First pass: scale declarations of the boxes that are not tables. *)
Definition declaration_step (mult_positions : list (Q * str * Z)) (b : box)
  : list (Q * str * Z) :=
  if str_eqb (boxclass b) (L "table") then mult_positions
  else
    match find_header_multiplier (get_box_text b) with
    | Some (label, factor) => mult_positions ++ [(y0 b, label, factor)]
    | None => mult_positions
    end.

(** The section name after a section-header box. *)
Definition section_after (b : box) (section_name : option str)
  : option str :=
  if str_eqb (boxclass b) (L "section-header")
  then
    let text := get_box_text b in
    let stripped :=
      fold_left (fun s p => sub_empty p s) HEADER_UNIT_PATTERNS text in
    match find_header_multiplier text, Py.strip stripped with
    | Some _, [] => section_name
    | _, _ => Some text
    end
  else section_name.

(** Body of the second loop over the boxes of a page. *)
Definition box_step (page_num : Z) (source : str) (w : walk) (b : box)
  : result walk :=
  let bc := boxclass b in
  let section_name := section_after b (section_name w) in
  if str_eqb bc (L "text")
  then
    r <- extract_from_text (get_box_text b) section_name
                           (Some page_num) (Some source) ;;
    Ok {| mult_positions := mult_positions w;
          section_name := section_name;
          results := results w ++ r |}
  else
    match str_eqb bc (L "table"), btable b with
    | true, Some ((_ :: _) as rows) =>
        let has_data :=
          existsb (fun cell => is_number (hd [] (Py.split "010" cell)))
                  (truthy_cells rows) in
        let table_text := Py.join (L " ") (truthy_cells rows) in
        let table_mult := find_header_multiplier table_text in
        match table_mult, has_data with
        | Some (label, factor), false =>
            Ok {| mult_positions :=
                    mult_positions w ++ [(y0 b, label, factor)];
                  section_name := section_name;
                  results := results w |}
        | _, _ =>
            let (mult_label, mult_factor) :=
              match table_mult with
              | Some (l, f) => (Some l, f)
              | None =>
                  match mult_for_y (mult_positions w) (y0 b) with
                  | Some (l, f) => (Some l, f)
                  | None => (None, 1%Z)
                  end
              end in
            r <- extract_from_table mult_label mult_factor section_name
                                    (Some page_num) (Some source) rows ;;
            Ok {| mult_positions := mult_positions w;
                  section_name := section_name;
                  results := results w ++ r |}
        end
    | _, _ =>
        Ok {| mult_positions := mult_positions w;
              section_name := section_name;
              results := results w |}
    end.

(** Body of the loop over the pages: the declarations and the section
    name start afresh on every page. *)
Definition page_step (source : str) (results : list ExtractedNumber)
           (p : page_data) : result (list ExtractedNumber) :=
  let page_num := page_number p in
  let boxes := sorted_boxes (boxes p) in
  let mult_positions := fold_left declaration_step boxes [] in
  w <- foldM (box_step page_num source)
             {| mult_positions := mult_positions;
                section_name := None;
                results := results |}
             boxes ;;
  Ok (Extract.results w).

(** Extract numbers from pre-parsed page data. *)
Definition extract_from_pages (pages : list page_data) (source : str)
  : result (list ExtractedNumber) :=
  foldM (page_step source) [] pages.

End Extract.

(** ** Inputs of the test suite *)
Module Fixtures.
Import Extract.

(** A grid whose cells are all present. *)
Definition cells (rows : list (list string)) : grid :=
  map (map (fun c => Some (L c))) rows.

(** The newline character, and two lines in one cell. *)
Definition nl : str := ["010"%char].

Definition lines (a b : string) : string :=
  string_of_list_ascii (L a ++ nl ++ L b).

(** [_make_text_box] and [_make_table_box] of the tests. *)
Definition _make_text_box (text : string) (y0 : Q) (boxclass : string) : box :=
  {| boxclass := L boxclass; y0 := y0; textlines := [[L text]];
     btable := None |}.

Definition _make_table_box (rows : list (list string)) (y0 : Q) : box :=
  {| boxclass := L "table"; y0 := y0; textlines := [];
     btable := Some (cells rows) |}.

(** The [million_multiplier] fixture. *)
Definition million : option str * Z := (Some (L "Million"), 1000000%Z).

End Fixtures.

(** ** Properties of the records *)
Module Invariants.
Import Patterns Extract.

(** The scale of a record is at least 1, and its adjusted value is the
    product computed from its value and its scale. *)
Definition well_scaled (r : ExtractedNumber) : Prop :=
  Float.mul_int (value r) (multiplier r) = Ok (adjusted_value r)
  /\ (1 <= multiplier r)%Z.

(** The scale decided for a table value: the scale of the row label,
    else the default for a text with a decimal point, else none. *)
Definition scale_rule (row_mult : option (str * Z)) (raw : str)
           (default_label : option str) (default_factor : Z)
  : option str * Z :=
  match row_mult with
  | Some (l, f) => (Some l, f)
  | None =>
      if Py.contains "." raw then (default_label, default_factor)
      else (None, 1%Z)
  end.

(** The matches of the two inline patterns in a text. *)
Definition dollar_matches (text : str) : list Re.mobj :=
  Re.finditer INLINE_DOLLAR_PATTERN text.

Definition bare_matches (text : str) : list Re.mobj :=
  Re.finditer INLINE_BARE_PATTERN text.

(** The spans of two matches do not overlap. *)
Definition disjoint (a b : Re.mobj) : Prop :=
  Re.m_end a <= Re.m_start b \/ Re.m_end b <= Re.m_start a.

(** The bare matches that the overlap check lets through. *)
Definition kept_bare (text : str) : list Re.mobj :=
  filter (fun m =>
            negb (in_dollar_span
                    (map (fun d => (Re.m_start d, Re.m_end d))
                         (dollar_matches text))
                    (Re.m_start m)))
         (bare_matches text).

(** [r] is the record built from the match [m] of [text]. *)
Definition record_of (text : str) (m : Re.mobj) (r : ExtractedNumber) : Prop :=
  inline_record text m = Ok (Some r).

(** The sub-label that the specification describes for the sub-value at
    index [i]: the label cell split at its newlines, the last sub-label
    serving the sub-values beyond it. *)
Definition spec_sub_label (label_cell : str) (i : nat) : str :=
  let sub_labels := Py.split "010" label_cell in
  Py.strip (nth i sub_labels (last sub_labels [])).

(** The text of the cells of a table, and whether a cell holds a number. *)
Definition table_text (rows : grid) : str :=
  Py.join (L " ") (truthy_cells rows).

Definition has_data (rows : grid) : bool :=
  existsb (fun cell => is_number (hd [] (Py.split "010" cell)))
          (truthy_cells rows).






(** The walk at the top of a page whose sorted boxes are [bs]. *)
Definition page_start (bs : list box) (acc : list ExtractedNumber) : walk :=
  {| mult_positions := fold_left declaration_step bs [];
     section_name := None;
     results := acc |}.

(** The number part and the scale words of the inline patterns. *)
Definition number_part : Re.regex :=
  Re.RSeq (Re.RPlus (Re.AOr Re.ADigit (Re.ALit ",")))
          (Re.RSeq (Re.ROpt (Re.ALit ".")) (Re.RStar Re.ADigit)).

Definition scale_words : Re.regex :=
  Re.p_re (ReParse.compile _mult_alt true).

End Invariants.

(** ** The scale vocabulary as a table of words *)
Module Vocabulary.
Import Re.

(** The lower-case words of each scale, as the rows of [MULTIPLIERS]
    spell them. *)
Definition SCALE_WORDS : list (list str * str * Z) :=
  [ ([L "thousand"; L "thousands"; L "k"], L "Thousand", 1000%Z);
    ([L "million"; L "millions"; L "m"], L "Million", 1000000%Z);
    ([L "billion"; L "billions"; L "b"], L "Billion", 1000000000%Z);
    ([L "trillion"; L "trillions"; L "t"], L "Trillion", 1000000000000%Z) ].

Definition mem_word (w : str) (ws : list str) : bool := existsb (str_eqb w) ws.

(** The first row that lists the word. *)
Fixpoint lookup_word (table : list (list str * str * Z)) (w : str)
  : option (str * Z) :=
  match table with
  | [] => None
  | (ws, label, factor) :: table' =>
      if mem_word w ws then Some (label, factor) else lookup_word table' w
  end.

(** Patterns made of letters, optional letters, sequences and
    alternatives. *)
Fixpoint literal (r : regex) : bool :=
  match r with
  | REmpty | RAtom (ALit _) | ROpt (ALit _) => true
  | RSeq r1 r2 | RAlt r1 r2 => literal r1 && literal r2
  | _ => false
  end.

(** The lower-case words of a literal pattern. *)
Fixpoint words (r : regex) : list str :=
  match r with
  | REmpty => [[]]
  | RAtom (ALit c) => [[Py.lower c]]
  | ROpt (ALit c) => [[]; [Py.lower c]]
  | RSeq r1 r2 =>
      flat_map (fun u => map (fun v => u ++ v) (words r2)) (words r1)
  | RAlt r1 r2 => words r1 ++ words r2
  | _ => []
  end.

End Vocabulary.

(** ** Shapes of grids, records and pages *)
Module Records.
Import Re Py Patterns Extract Invariants.

Definition no_number (row : list (option str)) : Prop :=
  existsb cell_is_number row = false.

(** [d] is the index of the first row of [rows] that holds a number. *)
Definition first_numeric (rows : grid) (d : nat) : Prop :=
  (exists row, nth_error rows d = Some row
               /\ existsb cell_is_number row = true)
  /\ forall j row, j < d -> nth_error rows j = Some row -> no_number row.

(** A header cell that the forward fill replaces. *)
Definition blank (cell : option str) : bool :=
  negb (truthy cell && truthy (Some (strip (or_empty cell)))).

(** The cleaned text of the nearest cell to the left that is not blank,
    [last] when there is none. *)
Definition nearest_left (last : option str) (left : list (option str))
  : option str :=
  match find (fun c => negb (blank c)) (rev left) with
  | Some c => Some (clean_cell c)
  | None => last
  end.

(** A label and a factor that belong together: none and 1, or a row of
    [MULTIPLIERS]. *)
Definition scale_pair (lbl : option str) (f : Z) : Prop :=
  (lbl = None /\ f = 1%Z)
  \/ exists l pat, lbl = Some l /\ In (pat, l, f) MULTIPLIERS.

Definition consistent (r : ExtractedNumber) : Prop :=
  scale_pair (multiplier_label r) (multiplier r).

(** The record carries the provenance [(sec, pg, src)]. *)
Definition stamped (sec : option str) (pg : option Z) (src : option str)
           (r : ExtractedNumber) : Prop :=
  section r = sec /\ page r = pg /\ source r = src.

(** The context [c] of the match [m]: trimmed, on one line, and at most
    the window wider than the match on either side. *)
Definition window (c : str) (m : mobj) : Prop :=
  strip c = c /\ contains "010" c = false
  /\ List.length c <= (m_end m - m_start m) + 2 * CONTEXT_WINDOW.

(** The fields of a record built from an inline match. *)
Definition inline_fields (m : mobj) (r : ExtractedNumber) : Prop :=
  source_type r = narrative
  /\ row_label r = L "inline" /\ column r = L "narrative"
  /\ stamped None None None r
  /\ raw r = strip (group m 0)
  /\ (exists l pat, multiplier_label r = Some l
                    /\ In (pat, l, multiplier r) MULTIPLIERS)
  /\ exists c, context r = Some c /\ window c m.

(** The fields of a record read from a value cell: the column is the
    header of a column other than the first. *)
Definition value_fields (headers : list str) (r : ExtractedNumber) : Prop :=
  is_number (raw r) = true /\ strip (raw r) = raw r
  /\ parse_number (raw r) = Some (value r)
  /\ context r = None
  /\ exists j, 1 <= j
               /\ column r = match nth_error headers j with
                             | Some h => h
                             | None => L "col_" ++ str_of_nat j
                             end.

(** The fields of a record found in the text of a table cell. *)
Definition cell_fields (r : ExtractedNumber) : Prop :=
  row_label r = L "inline" /\ column r = L "table narrative"
  /\ (exists l pat, multiplier_label r = Some l
                    /\ In (pat, l, multiplier r) MULTIPLIERS)
  /\ exists c, context r = Some c /\ strip c = c
               /\ contains "010" c = false.

Definition table_fields (headers : list str) (r : ExtractedNumber) : Prop :=
  match source_type r with
  | table => value_fields headers r
  | table_narrative => cell_fields r
  | narrative => False
  end.

(** The section that a record of the page [p] may carry. *)
Definition section_of (p : page_data) (s : option str) : Prop :=
  s = None
  \/ exists h, In h (boxes p) /\ boxclass h = L "section-header"
               /\ s = Some (get_box_text h).

(** The record stems from a box of the page [p]: from the text of a
    text box, or from the grid of a table box. *)
Definition from_box (src : str) (p : page_data) (r : ExtractedNumber)
  : Prop :=
  page r = Some (page_number p) /\ source r = Some src
  /\ section_of p (section r)
  /\ exists b, In b (boxes p)
       /\ match source_type r with
          | narrative =>
              boxclass b = L "text"
              /\ exists rs,
                  extract_from_text (get_box_text b) (section r) (page r)
                                    (source r) = Ok rs
                  /\ In r rs
          | _ =>
              boxclass b = L "table"
              /\ exists rows lbl f rs,
                  btable b = Some rows
                  /\ extract_from_table lbl f (section r) (page r)
                                        (source r) rows = Ok rs
                  /\ In r rs
          end.

Definition is_header (b : box) : Prop := boxclass b = L "section-header".

(** The text of a section header that names a section: it declares no
    scale, or something is left of it without its declarations. *)
Definition titled (b : box) : Prop :=
  find_header_multiplier (get_box_text b) = None
  \/ strip (fold_left (fun s p => Re.sub_empty p s) HEADER_UNIT_PATTERNS
                      (get_box_text b)) <> [].

(** A counted match of the text. *)
Definition counted (text : str) (m : mobj) : Prop :=
  In m (dollar_matches text) \/ In m (kept_bare text).

(** The sub-values of a row: for each column after the first whose cell
    is not empty, the lines of the cell, trimmed, each with its column
    and its index in the cell. *)
Definition sub_values (row : list (option str)) : list (nat * nat * str) :=
  flat_map (fun col_idx =>
              let cell := nth col_idx row None in
              if truthy cell
              then map (fun iv => (col_idx, fst iv, strip (snd iv)))
                       (enumerate (split "010" (or_empty cell)))
              else [])
           (seq 1 (List.length row - 1)).

(** A sub-value that [is_number] accepts and [parse_number] reads. *)
Definition recognised (v : nat * nat * str) : bool :=
  is_number (snd v)
  && match parse_number (snd v) with Some _ => true | None => false end.

(** The data rows of a table: the rows from the index that the scan of
    [extract_from_table] stops at. *)
Definition data_rows (rows : grid) : grid :=
  skipn (table_data_start (enumerate rows) 0) rows.

(** The recognised sub-values of the data rows, each with its row, in
    the order of the rows, of the columns and of the lines of a cell. *)
Definition table_values (rows : grid)
  : list (list (option str) * (nat * nat * str)) :=
  flat_map (fun row => map (pair row) (filter recognised (sub_values row)))
           (data_rows rows).

(** [r] is the record of the sub-value [v = (row, (col_idx, vi, text))]:
    it carries the text and its parsed value, the label of that row, the
    header of that column, the scale that the label of that row and the
    text decide, the adjusted value computed from the two, and the
    provenance. *)
Definition value_record (lbl : option str) (f : Z) (sec : option str)
           (pg : option Z) (src : option str) (headers : list str)
           (v : list (option str) * (nat * nat * str)) (r : ExtractedNumber)
  : Prop :=
  let row := fst v in
  let col_idx := fst (fst (snd v)) in
  let text := snd (snd v) in
  source_type r = table
  /\ raw r = text
  /\ parse_number text = Some (value r)
  /\ row_label r = clean_cell (hd None row)
  /\ column r = match nth_error headers col_idx with
                | Some h => h
                | None => L "col_" ++ str_of_nat col_idx
                end
  /\ (multiplier_label r, multiplier r)
     = scale_rule (find_header_multiplier (clean_cell (hd None row)))
                  text lbl f
  /\ Float.mul_int (value r) (multiplier r) = Ok (adjusted_value r)
  /\ stamped sec pg src r
  /\ context r = None.

(** [a == b] on floats: false when either is nan. *)
Definition feq (a b : Float.float) : bool := SFeqb a b.

(** [adjusted_value == value * multiplier], as Python evaluates it. *)
Definition product_equal (r : ExtractedNumber) : Prop :=
  exists x, Float.of_int (multiplier r) = Ok x
            /\ feq (adjusted_value r) (Float.fmul (value r) x) = true.

End Records.

(** ** main.py *)

(** The part of [main] after the pages were read: the extraction, the
    warnings and the two largest records.  What [main] prints is not
    modelled; its exceptions are. *)
Module Main.
Import Extract.

(** [not n.get("multiplier")]: the factor is 0. *)
Definition no_multiplier (n : ExtractedNumber) : bool :=
  Z.eqb (multiplier n) 0.

(** The records for which a warning is printed. *)
Definition warnings (numbers : list ExtractedNumber)
  : list ExtractedNumber :=
  filter no_multiplier numbers.

(** [a > b] on floats: false when either is nan.  The comparison is that
    of [SpecFloat], which is the order of the values on floats in normal
    form. *)
Definition fgt (a b : Float.float) : bool := SFltb b a.

(** [max(items, key=key)]: an item replaces the best one so far when its
    key is greater; [ValueError] on an empty list. *)
Definition max_by (key : ExtractedNumber -> Float.float)
           (items : list ExtractedNumber) : result ExtractedNumber :=
  match items with
  | [] => Raise ValueError
  | x :: rest =>
      Ok (fold_left (fun best y =>
                       if fgt (key y) (key best) then y else best)
                    rest x)
  end.

(** [max(numbers, key=lambda n: abs(n["value"]))] *)
Definition largest_raw (numbers : list ExtractedNumber)
  : result ExtractedNumber :=
  max_by (fun n => SFabs (value n)) numbers.

(** [has_adjusted] is the whole list, every record has an adjusted
    value; [largest_adj] is [None] when the list is empty. *)
Definition largest_adj (numbers : list ExtractedNumber)
  : result (option ExtractedNumber) :=
  match numbers with
  | [] => Ok None
  | _ =>
      r <- max_by (fun n => SFabs (adjusted_value n)) numbers ;;
      Ok (Some r)
  end.

Record summary := {
  warned : list ExtractedNumber;
  count : nat;
  largest : ExtractedNumber;
  largest_adjusted : option ExtractedNumber
}.

(** The values that [main] computes from the pages of a document. *)
Definition report (pages : list page_data) (source : str)
  : result summary :=
  numbers <- extract_from_pages pages source ;;
  let warned := warnings numbers in
  largest <- largest_raw numbers ;;
  adj <- largest_adj numbers ;;
  Ok {| warned := warned; count := List.length numbers;
        largest := largest; largest_adjusted := adj |}.

End Main.

(** * Properties *)

Unset Implicit Arguments.

(** ** Loops *)

Lemma bind_Ok_inv {A B} (m : result A) (f : A -> result B) (b : B) :
  bind m f = Ok b -> exists a, m = Ok a /\ f a = Ok b.
Proof.
  destruct m as [a|e]; simpl; intro H; [eauto | discriminate].
Qed.

Lemma foldM_app {S A} (f : S -> A -> result S) (l1 l2 : list A) (s : S) :
  foldM f s (l1 ++ l2) = (s' <- foldM f s l1 ;; foldM f s' l2).
Proof.
  revert s; induction l1 as [|x l1 IH]; intro s; simpl; [reflexivity|].
  destruct (f s x) as [s'|e]; simpl; [apply IH | reflexivity].
Qed.

(** Loop invariant rule: a property of the state kept by every iteration
    holds when the loop ends. *)
Lemma foldM_invariant {S A} (I : S -> Prop) (f : S -> A -> result S)
      (l : list A) :
  (forall s x s', In x l -> I s -> f s x = Ok s' -> I s') ->
  forall s s', I s -> foldM f s l = Ok s' -> I s'.
Proof.
  induction l as [|x l IH]; intros Hf s s' Hs H; simpl in H.
  - now inversion H; subst.
  - apply bind_Ok_inv in H as (s1 & H1 & H2).
    apply (IH (fun s0 y s0' Hy => Hf s0 y s0' (or_intror Hy)) s1 s'); auto.
    apply (Hf s x s1); auto. now left.
Qed.

(** A loop that only appends one computed item per iteration. *)
Lemma foldM_append_map {A B} (g : A -> B) (l : list A) (acc : list B) :
  foldM (fun results x => Ok (results ++ [g x])) acc l = Ok (acc ++ map g l).
Proof.
  revert acc; induction l as [|x l IH]; intro acc; simpl.
  - now rewrite app_nil_r.
  - rewrite IH, <- app_assoc. reflexivity.
Qed.

(** ** Strings *)
Module PyFacts.
Import Py.

Lemma ascii_eqb_true (a b : ascii) : ascii_eqb a b = true <-> a = b.
Proof. apply Ascii.eqb_eq. Qed.

Lemma ascii_eqb_false (a b : ascii) : ascii_eqb a b = false <-> a <> b.
Proof. apply Ascii.eqb_neq. Qed.

Lemma str_eqb_true (a b : str) : str_eqb a b = true <-> a = b.
Proof.
  revert b; induction a as [|x a IH]; intros [|y b]; simpl;
    try (split; [discriminate | discriminate]); [tauto|].
  rewrite andb_true_iff, ascii_eqb_true, IH.
  split; [intros [-> ->]; reflexivity | intro H; inversion H; auto].
Qed.

Definition allspace (s : str) : bool := forallb isspace s.
Definition nospace (s : str) : bool := forallb (fun c => negb (isspace c)) s.

(** [s] has no white space at either end. *)
Definition trimmed (s : str) : Prop :=
  (forall c t, s = c :: t -> isspace c = false) /\
  (forall c t, s = t ++ [c] -> isspace c = false).

Lemma contains_In (c : ascii) (s : str) : contains c s = true <-> In c s.
Proof.
  induction s as [|x s IH]; simpl; [split; [discriminate | tauto]|].
  rewrite orb_true_iff, ascii_eqb_true, IH. tauto.
Qed.

Lemma contains_app (c : ascii) (a b : str) :
  contains c (a ++ b) = contains c a || contains c b.
Proof.
  induction a as [|x a IH]; simpl; [reflexivity|].
  now rewrite IH, orb_assoc.
Qed.

Lemma contains_allspace (c : ascii) (a : str) :
  isspace c = false -> allspace a = true -> contains c a = false.
Proof.
  intros Hc; induction a as [|x a IH]; simpl; [reflexivity|].
  rewrite andb_true_iff; intros [Hx Ha].
  rewrite (IH Ha), orb_false_r. apply ascii_eqb_false. congruence.
Qed.

Lemma replace_app (o : ascii) (n a b : str) :
  replace o n (a ++ b) = replace o n a ++ replace o n b.
Proof.
  induction a as [|x a IH]; simpl; [reflexivity|].
  destruct (ascii_eqb x o); rewrite IH; [now rewrite app_assoc | reflexivity].
Qed.

Lemma replace_absent (o : ascii) (n s : str) :
  contains o s = false -> replace o n s = s.
Proof.
  induction s as [|x s IH]; simpl; [reflexivity|].
  rewrite orb_false_iff; intros [Hx Hs]. rewrite Hx, (IH Hs). reflexivity.
Qed.

Lemma replace_filter (o : ascii) (s : str) :
  replace o [] s = filter (fun x => negb (ascii_eqb x o)) s.
Proof.
  induction s as [|x s IH]; simpl; [reflexivity|].
  destruct (ascii_eqb x o); simpl; now rewrite IH.
Qed.

Lemma contains_replace (o : ascii) (n s : str) :
  contains o n = false -> contains o (replace o n s) = false.
Proof.
  intro Hn; induction s as [|x s IH]; simpl; [reflexivity|].
  destruct (ascii_eqb x o) eqn:E.
  - now rewrite contains_app, Hn, IH.
  - simpl. now rewrite E, IH.
Qed.

Lemma split_absent (sep : ascii) (s : str) :
  contains sep s = false -> split sep s = [s].
Proof.
  induction s as [|x s IH]; simpl; [reflexivity|].
  rewrite orb_false_iff; intros [Hx Hs]. now rewrite Hx, (IH Hs).
Qed.

Lemma lstrip_pad (a x : str) :
  allspace a = true -> lstrip (a ++ x) = lstrip x.
Proof.
  induction a as [|c a IH]; simpl; [reflexivity|].
  rewrite andb_true_iff; intros [-> Ha]. auto.
Qed.

Lemma lstrip_decomp (s : str) :
  exists a, s = a ++ lstrip s /\ allspace a = true.
Proof.
  induction s as [|c s (a & Hs & Ha)]; simpl; [now exists []|].
  destruct (isspace c) eqn:E.
  - exists (c :: a); simpl. rewrite E, Ha. split; [now f_equal | reflexivity].
  - now exists [].
Qed.

Lemma lstrip_head (s : str) c t : lstrip s = c :: t -> isspace c = false.
Proof.
  induction s as [|x s IH]; simpl; [discriminate|].
  destruct (isspace x) eqn:E; [exact IH | intro H; inversion H; congruence].
Qed.

Lemma lstrip_fixed (s : str) :
  (forall c t, s = c :: t -> isspace c = false) -> lstrip s = s.
Proof.
  destruct s as [|c t]; simpl; [reflexivity|].
  intro H. now rewrite (H c t eq_refl).
Qed.

Lemma allspace_rev (a : str) : allspace (rev a) = allspace a.
Proof.
  unfold allspace. induction a as [|c a IH]; simpl; [reflexivity|].
  rewrite forallb_app, IH; simpl. rewrite andb_true_r. apply andb_comm.
Qed.

Lemma rstrip_pad (x a : str) :
  allspace a = true -> rstrip (x ++ a) = rstrip x.
Proof.
  intro Ha. unfold rstrip. rewrite rev_app_distr, lstrip_pad; [reflexivity|].
  now rewrite allspace_rev.
Qed.

Lemma rstrip_decomp (s : str) :
  exists a, s = rstrip s ++ a /\ allspace a = true.
Proof.
  destruct (lstrip_decomp (rev s)) as (a & Hs & Ha).
  exists (rev a). rewrite allspace_rev. split; [|exact Ha].
  unfold rstrip. rewrite <- rev_app_distr, <- Hs. now rewrite rev_involutive.
Qed.

Lemma rstrip_last (s : str) c t : rstrip s = t ++ [c] -> isspace c = false.
Proof.
  unfold rstrip. intro H.
  apply (f_equal (@rev ascii)) in H.
  rewrite rev_involutive, rev_app_distr in H. simpl in H.
  eapply lstrip_head; eassumption.
Qed.

Lemma rstrip_fixed (s : str) :
  (forall c t, s = t ++ [c] -> isspace c = false) -> rstrip s = s.
Proof.
  intro H. unfold rstrip. rewrite lstrip_fixed; [apply rev_involutive|].
  intros c t E. apply (H c (rev t)).
  rewrite <- (rev_involutive s), E. reflexivity.
Qed.

Lemma strip_decomp (s : str) :
  exists a c, s = a ++ strip s ++ c /\ allspace a = true /\ allspace c = true.
Proof.
  destruct (lstrip_decomp s) as (a & Hs & Ha).
  destruct (rstrip_decomp (lstrip s)) as (c & Hl & Hc).
  exists a, c. unfold strip. now rewrite <- Hl.
Qed.

Lemma strip_trimmed (s : str) : trimmed (strip s).
Proof.
  split; intros c t E.
  - destruct (rstrip_decomp (lstrip s)) as (a & Hl & _).
    unfold strip in E. rewrite E in Hl. simpl in Hl.
    eapply lstrip_head; eassumption.
  - eapply rstrip_last; eassumption.
Qed.

Lemma trimmed_strip (s : str) : trimmed s -> strip s = s.
Proof.
  intros [Hh Hl]. unfold strip. rewrite (lstrip_fixed s Hh).
  now apply rstrip_fixed.
Qed.

Lemma strip_idempotent (s : str) : strip (strip s) = strip s.
Proof. apply trimmed_strip, strip_trimmed. Qed.

Lemma lstrip_allspace (c : str) : allspace c = true -> lstrip c = [].
Proof.
  induction c as [|x c IH]; simpl; [reflexivity|].
  rewrite andb_true_iff; intros [-> Hc]. auto.
Qed.

Lemma strip_pad (a x c : str) :
  allspace a = true -> allspace c = true -> strip (a ++ x ++ c) = strip x.
Proof.
  intros Ha Hc. unfold strip. rewrite (lstrip_pad a _ Ha).
  destruct (lstrip_decomp x) as (b & Hx & Hb).
  destruct (lstrip x) as [|z t] eqn:E.
  - rewrite app_nil_r in Hx. subst x.
    rewrite lstrip_allspace; [reflexivity|].
    unfold allspace. rewrite forallb_app. now apply andb_true_iff.
  - assert (Hz : isspace z = false) by (eapply lstrip_head; eassumption).
    rewrite Hx, <- app_assoc, (lstrip_pad b _ Hb).
    simpl. rewrite Hz. apply (rstrip_pad (z :: t) c Hc).
Qed.

Lemma strip_under (f : str -> str) (s : str) :
  (forall a x c, allspace a = true -> allspace c = true ->
                 f (a ++ x ++ c) = a ++ f x ++ c) ->
  strip (f (strip s)) = strip (f s).
Proof.
  intro Hf. destruct (strip_decomp s) as (a & c & Hs & Ha & Hc).
  rewrite Hs at 2. rewrite (Hf a (strip s) c Ha Hc).
  now rewrite strip_pad.
Qed.

Lemma nospace_trimmed (s : str) : nospace s = true -> trimmed s.
Proof.
  unfold nospace. intro H. split; intros c t E; subst s.
  - simpl in H. apply andb_true_iff in H as [H _].
    now apply negb_true_iff.
  - rewrite forallb_app in H. simpl in H.
    apply andb_true_iff in H as [_ H]. apply andb_true_iff in H as [H _].
    now apply negb_true_iff.
Qed.

Lemma contains_strip (c : ascii) (s : str) :
  isspace c = false -> contains c (strip s) = contains c s.
Proof.
  intro Hc. destruct (strip_decomp s) as (a & b & Hs & Ha & Hb).
  rewrite Hs at 2. rewrite !contains_app.
  rewrite (contains_allspace c a Hc Ha), (contains_allspace c b Hc Hb).
  simpl. now rewrite orb_false_r.
Qed.

Lemma clean_no_newline (s : str) :
  contains "010" (strip (replace "010" (L " ") s)) = false.
Proof.
  destruct (contains "010" (strip (replace "010" (L " ") s))) eqn:E;
    [|reflexivity].
  apply contains_In in E.
  destruct (strip_decomp (replace "010" (L " ") s)) as (a & c & Hs & _).
  assert (H : In "010"%char (replace "010" (L " ") s)).
  { rewrite Hs. apply in_or_app. right. apply in_or_app. now left. }
  apply contains_In in H. rewrite contains_replace in H; [discriminate|].
  reflexivity.
Qed.

End PyFacts.

(** ** The matcher against the meaning of patterns *)
Module ReFacts.
Import Re ReSem.

Lemma orelse_Some {A} (x y : option A) (v : A) :
  orelse x y = Some v -> x = Some v \/ (x = None /\ y = Some v).
Proof. destruct x; simpl; intro H; [left | right]; auto. Qed.

Lemma orelse_right {A} (x y : option A) (v : A) :
  y = Some v -> exists u, orelse x y = Some u.
Proof. intro H. destruct x as [u|]; simpl; eauto. Qed.

Lemma orelse_left {A} (x y : option A) (v : A) :
  x = Some v -> orelse x y = Some v.
Proof. now intros ->. Qed.

Lemma after_nil (st : mstate) (t : str) : rest st = t -> after st [] t = st.
Proof. intros <-. now destruct st. Qed.

Lemma after_advance (st : mstate) c t w t' :
  after (advance st c t) w t' = after st (c :: w) t'.
Proof.
  unfold after, advance; simpl. f_equal. lia.
Qed.

Lemma last_of_app (p : option ascii) (w1 w2 : str) :
  last_of p (w1 ++ w2) = last_of (last_of p w1) w2.
Proof. revert p; induction w1 as [|c w1 IH]; intro p; simpl; auto. Qed.

Lemma after_after (st : mstate) w1 t1 w2 t2 :
  after (after st w1 t1) w2 t2 = after st (w1 ++ w2) t2.
Proof.
  unfold after; simpl. rewrite last_of_app, length_app. f_equal. lia.
Qed.

Section Soundness.
Variable ic : bool.
Variable A : Type.

Lemma star_sound (a : atom) (t : str) :
  forall (st : mstate) (k : mstate -> option A) (x : A),
    rest st = t -> star ic a t st k = Some x ->
    exists w t', t = w ++ t' /\ forallb (atom_match ic a) w = true
                 /\ k (after st w t') = Some x.
Proof.
  induction t as [|c t IH]; intros st k x Hr H; simpl in H.
  - exists [], []. rewrite (after_nil st [] Hr). auto.
  - destruct (atom_match ic a c) eqn:Ea.
    + apply orelse_Some in H as [H | [_ H]].
      * apply IH in H as (w & t' & -> & Hw & Hk); [|reflexivity].
        exists (c :: w), t'. simpl. rewrite Ea, Hw.
        rewrite after_advance in Hk. auto.
      * exists [], (c :: t). rewrite (after_nil st _ Hr). auto.
    + exists [], (c :: t). rewrite (after_nil st _ Hr). auto.
Qed.

Lemma star_complete (a : atom) (w : str) :
  forall (t' : str) (st : mstate) (k : mstate -> option A) (x : A),
    forallb (atom_match ic a) w = true ->
    k (after st w t') = Some x -> rest st = w ++ t' ->
    exists y, star ic a (w ++ t') st k = Some y.
Proof.
  induction w as [|c w IH]; intros t' st k x Hw Hk Hr.
  - simpl in *. rewrite (after_nil st _ Hr) in Hk.
    destruct t' as [|c t']; simpl; [eauto|].
    destruct (atom_match ic a c); [|eauto].
    eapply orelse_right; eauto.
  - simpl in Hw. apply andb_true_iff in Hw as [Hc Hw].
    simpl. rewrite Hc.
    rewrite <- after_advance with (t := w ++ t') in Hk.
    destruct (IH t' (advance st c (w ++ t')) k x Hw Hk eq_refl) as (y & Hy).
    exists y. now apply orelse_left.
Qed.

(** Every result of the matcher comes from a state that the pattern
    can reach and the continuation accepts. *)
Lemma rmatch_sound (r : regex) :
  forall (st : mstate) (k : mstate -> option A) (x : A),
    rmatch ic r st k = Some x ->
    exists st', sem ic r st st' /\ k st' = Some x.
Proof.
  induction r as [|a|a|a|a|r1 IH1 r2 IH2|r1 IH1 r2 IH2|n r1 IH1| | | |];
    intros st k x H; simpl in H.
  - exists st. simpl. auto.
  - destruct (rest st) as [|c t] eqn:Er; [discriminate|].
    destruct (atom_match ic a c) eqn:Ea; [|discriminate].
    exists (after st [c] t). split; [|exact H].
    simpl. exists c, t. auto.
  - destruct (rest st) as [|c t] eqn:Er.
    + exists st. simpl. auto.
    + destruct (atom_match ic a c) eqn:Ea.
      * apply orelse_Some in H as [H | [_ H]].
        -- exists (after st [c] t). split; [|exact H].
           simpl. right. exists c, t. auto.
        -- exists st. simpl. auto.
      * exists st. simpl. auto.
  - apply star_sound in H as (w & t' & E & Hw & Hk); [|reflexivity].
    exists (after st w t'). split; [|exact Hk]. simpl. eauto.
  - destruct (rest st) as [|c t] eqn:Er; [discriminate|].
    destruct (atom_match ic a c) eqn:Ea; [|discriminate].
    apply star_sound in H as (w & t' & -> & Hw & Hk); [|reflexivity].
    rewrite after_advance in Hk.
    exists (after st (c :: w) t'). split; [|exact Hk].
    simpl. exists (c :: w), t'. simpl. rewrite Ea, Hw.
    repeat split; auto. discriminate.
  - apply IH1 in H as (st1 & H1 & H). apply IH2 in H as (st' & H2 & H).
    exists st'. simpl. eauto.
  - apply orelse_Some in H as [H | [_ H]].
    + apply IH1 in H as (st' & H1 & H). exists st'. simpl. auto.
    + apply IH2 in H as (st' & H2 & H). exists st'. simpl. auto.
  - apply IH1 in H as (st1 & H1 & H).
    exists (close n st st1). simpl. eauto.
  - destruct (at_boundary st) eqn:E; [|discriminate].
    exists st. simpl. auto.
  - destruct (Nat.eqb (pos st) 0) eqn:E; [|discriminate].
    apply Nat.eqb_eq in E. exists st. simpl. auto.
  - destruct (at_eol st) eqn:E; [|discriminate].
    exists st. simpl. auto.
  - discriminate.
Qed.

(** When the pattern can reach a state that the continuation accepts,
    the matcher returns a result. *)
Lemma rmatch_complete (r : regex) :
  forall (st st' : mstate) (k : mstate -> option A) (x : A),
    sem ic r st st' -> k st' = Some x ->
    exists y, rmatch ic r st k = Some y.
Proof.
  induction r as [|a|a|a|a|r1 IH1 r2 IH2|r1 IH1 r2 IH2|n r1 IH1| | | |];
    intros st st' k x H Hk; simpl in H; simpl.
  - subst. eauto.
  - destruct H as (c & t & -> & -> & ->). eauto.
  - destruct H as [-> | (c & t & Er & Ea & ->)].
    + destruct (rest st) as [|c t]; [eauto|].
      destruct (atom_match ic a c); [|eauto].
      eapply orelse_right; eauto.
    + rewrite Er, Ea. exists x. now apply orelse_left.
  - destruct H as (w & t & Er & Hw & ->). rewrite Er.
    eapply star_complete; eauto.
  - destruct H as (w & t & Er & Hw & Hne & ->). rewrite Er.
    destruct w as [|c w]; [congruence|]. simpl in Hw.
    apply andb_true_iff in Hw as [Hc Hw]. simpl. rewrite Hc.
    rewrite <- after_advance with (t := w ++ t) in Hk.
    eapply star_complete; eauto.
  - destruct H as (st1 & H1 & H2).
    destruct (IH2 _ _ _ _ H2 Hk) as (y & Hy).
    exact (IH1 _ _ (fun st2 => rmatch ic r2 st2 k) _ H1 Hy).
  - destruct H as [H | H].
    + destruct (IH1 _ _ _ _ H Hk) as (y & Hy).
      exists y. now apply orelse_left.
    + destruct (IH2 _ _ _ _ H Hk) as (y & Hy).
      eapply orelse_right; eauto.
  - destruct H as (st1 & H1 & ->).
    exact (IH1 _ _ (fun st2 => k (close n st st2)) _ H1 Hk).
  - destruct H as (-> & ->). eauto.
  - destruct H as (E & ->). apply Nat.eqb_eq in E. rewrite E. eauto.
  - destruct H as (-> & ->). eauto.
  - contradiction.
Qed.
End Soundness.

(** A step of the pattern reads a word of its language. *)
Lemma sem_lang (ic : bool) (r : regex) :
  forall st st', sem ic r st st' ->
    exists w, rest st = w ++ rest st' /\ pos st' = List.length w + pos st
              /\ prev st' = last_of (prev st) w /\ lang ic r w.
Proof.
  induction r as [|a|a|a|a|r1 IH1 r2 IH2|r1 IH1 r2 IH2|n r1 IH1| | | |];
    intros st st' H; simpl in H; simpl.
  - subst. exists []. auto.
  - destruct H as (c & t & Er & Ea & ->). exists [c]. simpl.
    repeat split; auto. exists c. auto.
  - destruct H as [-> | (c & t & Er & Ea & ->)].
    + exists []. auto.
    + exists [c]. simpl. repeat split; auto. right. exists c. auto.
  - destruct H as (w & t & Er & Hw & ->). exists w. auto.
  - destruct H as (w & t & Er & Hw & Hne & ->). exists w. auto.
  - destruct H as (st1 & H1 & H2).
    apply IH1 in H1 as (w1 & E1 & P1 & L1 & W1).
    apply IH2 in H2 as (w2 & E2 & P2 & L2 & W2).
    exists (w1 ++ w2). rewrite <- app_assoc, <- E2, length_app, last_of_app.
    repeat split; eauto; try congruence. lia.
  - destruct H as [H | H]; [apply IH1 in H | apply IH2 in H];
      destruct H as (w & E & P & Lw & W); exists w; auto.
  - destruct H as (st1 & H1 & ->).
    apply IH1 in H1 as (w & E & P & Lw & W). exists w. auto.
  - destruct H as (_ & ->). exists []. auto.
  - destruct H as (_ & ->). exists []. auto.
  - destruct H as (_ & ->). exists []. auto.
  - contradiction.
Qed.

(** A word of a plain pattern can be read wherever it stands. *)
Lemma lang_sem (ic : bool) (r : regex) :
  plain r = true ->
  forall w st t, lang ic r w -> rest st = w ++ t -> sem ic r st (after st w t).
Proof.
  induction r as [|a|a|a|a|r1 IH1 r2 IH2|r1 IH1 r2 IH2|n r1 IH1| | | |];
    intros Hp w st t H Er; simpl in Hp; try discriminate; simpl in H; simpl.
  - subst w. simpl in Er. now rewrite (after_nil st t Er).
  - destruct H as (c & -> & Ea). exists c, t. auto.
  - destruct H as [-> | (c & -> & Ea)].
    + left. simpl in Er. now rewrite (after_nil st t Er).
    + right. exists c, t. auto.
  - exists w, t. auto.
  - destruct H as (Hw & Hne). exists w, t. auto.
  - apply andb_true_iff in Hp as [Hp1 Hp2].
    destruct H as (w1 & w2 & -> & H1 & H2).
    rewrite <- app_assoc in Er.
    exists (after st w1 (w2 ++ t)). split; [now apply IH1|].
    rewrite <- after_after with (t1 := w2 ++ t). now apply IH2.
  - apply andb_true_iff in Hp as [Hp1 Hp2].
    destruct H as [H | H]; [left; now apply IH1 | right; now apply IH2].
Qed.

Lemma forallb_weaken {A} (f g : A -> bool) (l : list A) :
  (forall x, f x = true -> g x = true) ->
  forallb f l = true -> forallb g l = true.
Proof.
  intros Hfg H. apply forallb_forall. intros x Hx.
  apply Hfg. revert x Hx. now apply forallb_forall.
Qed.

Lemma lang_accepts (ic : bool) (r : regex) :
  forall w, lang ic r w -> forallb (accepts ic r) w = true.
Proof.
  induction r as [|a|a|a|a|r1 IH1 r2 IH2|r1 IH1 r2 IH2|n r1 IH1| | | |];
    intros w H; simpl in H;
    try (subst w; reflexivity); try contradiction.
  - destruct H as (c & -> & Ea). simpl. now rewrite Ea.
  - destruct H as [-> | (c & -> & Ea)]; simpl; [auto | now rewrite Ea].
  - exact H.
  - exact (proj1 H).
  - destruct H as (w1 & w2 & -> & H1 & H2). rewrite forallb_app.
    apply andb_true_iff. split.
    + apply (forallb_weaken (accepts ic r1)); [|auto].
      intros c E. simpl. now rewrite E.
    + apply (forallb_weaken (accepts ic r2)); [|auto].
      intros c E. simpl. rewrite E. apply orb_true_r.
  - destruct H as [H | H].
    + apply (forallb_weaken (accepts ic r1)); [|auto].
      intros c E. simpl. now rewrite E.
    + apply (forallb_weaken (accepts ic r2)); [|auto].
      intros c E. simpl. rewrite E. apply orb_true_r.
  - simpl. auto.
Qed.

(** *** Searching *)

Lemma within_advance (s : str) (st : mstate) c t :
  within s st -> rest st = c :: t -> within s (advance st c t).
Proof.
  unfold within; simpl. intros H Er. rewrite Er in H.
  clear Er. revert H. generalize (pos st). intro n. revert s.
  induction n as [|n IH]; intros s H.
  - simpl in H. subst s. reflexivity.
  - destruct s as [|x s]; [discriminate|]. simpl in H. now apply IH.
Qed.

Lemma within_initial (s : str) : within s (initial s).
Proof. reflexivity. Qed.

(** The span of a match found at [st]. *)
Lemma match_at_sem (p : pattern) (s : str) (st : mstate) (m : mobj) :
  match_at p s st = Some m ->
  exists st', sem (p_icase p) (p_re p)
                  {| pos := pos st; prev := prev st; rest := rest st;
                     caps := [] |} st'
              /\ m = mk_mobj s (pos st) st'.
Proof.
  unfold match_at. intro H.
  apply rmatch_sound in H as (st' & Hs & Hk).
  exists st'. split; [exact Hs | congruence].
Qed.

Lemma scan_sound (p : pattern) (s : str) (m : mobj) :
  forall t st resume,
    rest st = t -> within s st -> In m (scan p s t st resume) ->
    exists st0, within s st0 /\ match_at p s st0 = Some m.
Proof.
  induction t as [|c t IH]; intros st resume Er Hw Hin; simpl in Hin.
  - destruct (Nat.ltb (pos st) resume); [contradiction|].
    destruct (match_at p s st) as [m0|] eqn:E; [|contradiction].
    destruct Hin as [-> | []]. eauto.
  - assert (Hadv : within s (advance st c t))
      by now apply within_advance.
    destruct (Nat.ltb (pos st) resume).
    + exact (IH (advance st c t) _ eq_refl Hadv Hin).
    + destruct (match_at p s st) as [m0|] eqn:E.
      * destruct Hin as [-> | Hin]; [eauto|].
        exact (IH (advance st c t) _ eq_refl Hadv Hin).
      * exact (IH (advance st c t) _ eq_refl Hadv Hin).
Qed.

(** Every match of [finditer] is a match of the pattern in the text:
    it reads the word [w] of the pattern's language that the subject
    holds between its start and its end. *)
Lemma finditer_sound (p : pattern) (s : str) (m : mobj) :
  In m (finditer p s) ->
  exists st0 st',
    within s st0 /\ caps st0 = [] /\ m_start m = pos st0
    /\ sem (p_icase p) (p_re p) st0 st'
    /\ m = mk_mobj s (pos st0) st'.
Proof.
  intro H.
  apply (scan_sound p s m s (initial s) 0 eq_refl (within_initial s)) in H.
  destruct H as (st0 & Hw & Hm).
  apply match_at_sem in Hm as (st' & Hs & ->).
  exists {| pos := pos st0; prev := prev st0; rest := rest st0; caps := [] |}, st'.
  repeat split; auto.
Qed.

Lemma slice_within (s : str) (st st' : mstate) (w : str) :
  within s st -> rest st = w ++ rest st' ->
  pos st' = List.length w + pos st ->
  Py.slice s (pos st) (pos st') = w.
Proof.
  unfold within, Py.slice. intros Hw Er Hp. rewrite Hw, Er, Hp.
  replace (List.length w + pos st - pos st) with (List.length w + 0) by lia.
  now rewrite firstn_app_2, firstn_O, app_nil_r.
Qed.

End ReFacts.

(** ** Characters *)
Module CharFacts.
Import Py.

(** Case analysis over the 256 characters. *)
Ltac by_cases c :=
  destruct c as [[] [] [] [] [] [] [] []]; vm_compute; intros;
  try reflexivity; try discriminate; try congruence; auto.

Lemma digit_not_space (c : ascii) : isdecimal c = true -> isspace c = false.
Proof. by_cases c. Qed.

Lemma digit_not_punct (c : ascii) :
  isdecimal c = true ->
  ascii_eqb c "(" = false /\ ascii_eqb c ")" = false
  /\ ascii_eqb c "," = false /\ ascii_eqb c "." = false
  /\ ascii_eqb c "_" = false /\ ascii_eqb c "-" = false
  /\ ascii_eqb c "+" = false /\ ascii_eqb c "$" = false.
Proof. by_cases c; repeat split. Qed.

Lemma space_not_punct (c : ascii) :
  isspace c = true ->
  ascii_eqb c "(" = false /\ ascii_eqb c ")" = false
  /\ ascii_eqb c "," = false /\ ascii_eqb c "." = false
  /\ isdecimal c = false.
Proof. by_cases c; repeat split. Qed.

Lemma digit_lower (c : ascii) : isdecimal c = true -> lower c = c.
Proof. by_cases c. Qed.

Lemma forallb_contains (P : ascii -> bool) (c : ascii) (w : str) :
  P c = false -> forallb P w = true -> contains c w = false.
Proof.
  intros Hc. induction w as [|x w IH]; simpl; [reflexivity|].
  rewrite andb_true_iff. intros [Hx Hw]. rewrite (IH Hw), orb_false_r.
  apply PyFacts.ascii_eqb_false. congruence.
Qed.

Lemma filter_none {A} (P : A -> bool) (w : list A) :
  forallb (fun x => negb (P x)) w = true -> filter P w = [].
Proof.
  induction w as [|x w IH]; simpl; [reflexivity|].
  rewrite andb_true_iff. intros [Hx Hw].
  apply negb_true_iff in Hx. now rewrite Hx, IH.
Qed.

Lemma filter_all {A} (P : A -> bool) (w : list A) :
  forallb P w = true -> filter P w = w.
Proof.
  induction w as [|x w IH]; simpl; [reflexivity|].
  rewrite andb_true_iff. intros [Hx Hw]. now rewrite Hx, IH.
Qed.

End CharFacts.

(** ** Accepted numbers *)
Module NumberFacts.
Import Re ReSem ReFacts Patterns Accounting PyFacts CharFacts.

(** Replace a compiled pattern by its expression. *)
Ltac compiled p H :=
  let r := eval vm_compute in (p_re p) in
  change (p_re p) with r in H.

Lemma sem_ends_eol (ic : bool) (r : regex) :
  forall st st', ends_eol r = true -> sem ic r st st' -> at_eol st' = true.
Proof.
  induction r as [|a|a|a|a|r1 IH1 r2 IH2|r1 IH1 r2 IH2|n r1 IH1| | | |];
    intros st st' He H; simpl in He; try discriminate; simpl in H.
  - destruct H as (st1 & _ & H2). eauto.
  - now destruct H as (E & ->).
Qed.

(** One-character words of a number. *)
Definition digit_or_comma (c : ascii) : bool :=
  Py.isdecimal c || ascii_eqb "," c.

(** The shape of the strings that [NUMBER_PATTERN] accepts: white
    space, an optional parenthesis, digits and commas, an optional
    point and digits, and the same outwards. *)
Inductive shape : str -> Prop :=
| Shape (ws1 lp ws2 dc dot fd ws3 rp ws4 : str) :
    allspace ws1 = true ->
    lp = [] \/ lp = L "(" ->
    allspace ws2 = true ->
    forallb digit_or_comma dc = true ->
    dc <> [] ->
    dot = [] \/ dot = L "." ->
    forallb Py.isdecimal fd = true ->
    allspace ws3 = true ->
    rp = [] \/ rp = L ")" ->
    allspace ws4 = true ->
    shape (ws1 ++ lp ++ ws2 ++ dc ++ dot ++ fd ++ ws3 ++ rp ++ ws4).

Lemma opt_lit (c x : ascii) (w : str) :
  w = [] \/ (exists y, w = [y] /\ atom_match false (ALit x) y = true) ->
  w = [] \/ w = [x].
Proof.
  intros [-> | (y & -> & E)]; [now left | right].
  simpl in E. apply ascii_eqb_true in E. now subst.
Qed.

Lemma is_number_shape (s : str) : is_number s = true -> shape s.
Proof.
  unfold is_number, match_, match_at.
  destruct (rmatch _ _ _ _) as [m|] eqn:E; [intros _ | discriminate].
  apply rmatch_sound in E as (st' & Hs & _).
  assert (He : at_eol st' = true).
  { apply (sem_ends_eol (p_icase NUMBER_PATTERN) (p_re NUMBER_PATTERN) _ _
             eq_refl Hs). }
  apply sem_lang in Hs as (w & Er & _ & _ & Hl).
  compiled NUMBER_PATTERN Hl. simpl in Er, Hl.
  destruct Hl as (w0 & r0 & -> & -> & w1 & r1 & -> & H1 & w2 & r2 & -> & H2
                  & w3 & r3 & -> & H3 & w4 & r4 & -> & [H4 H4'] & w5 & r5 & -> & H5
                  & w6 & r6 & -> & H6 & w7 & r7 & -> & H7
                  & w8 & r8 & -> & H8 & w9 & r9 & -> & H9 & ->).
  apply (opt_lit "(" "(") in H2. apply (opt_lit "." ".") in H5.
  apply (opt_lit ")" ")") in H8.
  replace s with (w1 ++ w2 ++ w3 ++ w4 ++ w5 ++ w6 ++ w7 ++ w8
                     ++ (w9 ++ rest st')).
  - apply Shape; auto.
    unfold allspace. rewrite forallb_app. apply andb_true_iff. split; auto.
    unfold at_eol in He. destruct (rest st') as [|c [|? ?]];
      try reflexivity; try discriminate.
    apply ascii_eqb_true in He. subst c. reflexivity.
  - rewrite Er. simpl. rewrite app_nil_r, <- !app_assoc. reflexivity.
Qed.

End NumberFacts.

(** ** Conversion of decimal text *)
Module FloatFacts.
Import Py PyFacts CharFacts Float.

Definition digit_or_point (c : ascii) : bool :=
  isdecimal c || ascii_eqb c ".".

Lemma digit_or_point_not_blank (c : ascii) :
  digit_or_point c = true -> isblank c = false.
Proof. by_cases c. Qed.

Lemma skip_blanks_plain (x : str) :
  forallb digit_or_point x = true -> skip_blanks x = x.
Proof.
  destruct x as [|c x]; simpl; [reflexivity|].
  rewrite andb_true_iff. intros [Hc _].
  now rewrite (digit_or_point_not_blank c Hc).
Qed.

Lemma trim_plain (x : str) : forallb digit_or_point x = true -> trim x = x.
Proof.
  intro H. unfold trim. rewrite (skip_blanks_plain x H).
  rewrite skip_blanks_plain; [apply rev_involutive|].
  apply forallb_forall. intros c Hc. apply in_rev in Hc.
  exact (proj1 (forallb_forall _ _) H c Hc).
Qed.

Lemma digit_or_point_plain (c : ascii) :
  digit_or_point c = true ->
  isspace c = false /\ ascii_eqb c "_" = false
  /\ ascii_eqb c "-" = false /\ ascii_eqb c "+" = false
  /\ ascii_eqb (lower c) "i" = false /\ ascii_eqb (lower c) "n" = false.
Proof. by_cases c; repeat split. Qed.

Lemma drop_underscores_plain (x : str) :
  forallb digit_or_point x = true ->
  forall prev,
    match prev with Some p => ascii_eqb p "_" = false | None => True end ->
    drop_underscores prev x = Some x.
Proof.
  induction x as [|c x IH]; intros Hx prev Hp; simpl.
  - destruct prev as [p|]; [now rewrite Hp | reflexivity].
  - simpl in Hx. apply andb_true_iff in Hx as [Hc Hx].
    destruct (digit_or_point_plain c Hc) as (_ & Hu & _).
    rewrite Hu.
    assert (Hok : match prev with
                  | Some p => negb (ascii_eqb p "_") || isdecimal c
                  | None => true
                  end = true).
    { destruct prev as [p|]; [now rewrite Hp | reflexivity]. }
    rewrite Hok, (IH Hx (Some c) Hu). reflexivity.
Qed.

Lemma span_digits_app (d r : str) :
  forallb isdecimal d = true ->
  span_digits (d ++ r) = (d ++ fst (span_digits r), snd (span_digits r)).
Proof.
  induction d as [|c d IH]; simpl; intro H.
  - now destruct (span_digits r).
  - apply andb_true_iff in H as [Hc Hd]. rewrite Hc, (IH Hd). reflexivity.
Qed.

Lemma span_digits_all (d : str) :
  forallb isdecimal d = true -> span_digits d = (d, []).
Proof.
  intro H. rewrite <- (app_nil_r d) at 1.
  rewrite (span_digits_app d [] H). simpl. now rewrite app_nil_r.
Qed.

Lemma not_special (x : str) :
  forallb digit_or_point x = true -> x <> [] ->
  str_eqb (map lower x) (L "inf") || str_eqb (map lower x) (L "infinity")
  = false
  /\ str_eqb (map lower x) (L "nan") = false
  /\ take_sign x = (false, x).
Proof.
  destruct x as [|c x]; [congruence|]. simpl. intros H _.
  apply andb_true_iff in H as [Hc _].
  destruct (digit_or_point_plain c Hc) as (_ & _ & Hm & Hp & Hi & Hn).
  unfold ascii_eqb in *. rewrite Hi, Hn, Hm, Hp. auto.
Qed.

(** [float] of digits with an optional point: the decimal read exactly,
    then rounded. *)
Lemma of_str_decimal (d dot f : str) :
  forallb isdecimal d = true -> forallb isdecimal f = true ->
  dot = [] \/ dot = L "." -> d ++ f <> [] ->
  of_str (d ++ dot ++ f)
  = Ok (of_decimal false (digits_val 0 (d ++ f))
          (- Z.of_nat (match dot with [] => 0 | _ => List.length f end))).
Proof.
  intros Hd Hf Hdot Hne.
  assert (Hall : forallb digit_or_point (d ++ dot ++ f) = true).
  { rewrite !forallb_app. unfold digit_or_point.
    rewrite (ReFacts.forallb_weaken isdecimal _ d), (ReFacts.forallb_weaken isdecimal _ f); auto;
      try (intros c ->; reflexivity).
    destruct Hdot as [-> | ->]; reflexivity. }
  assert (Hne' : d ++ dot ++ f <> []).
  { destruct d; [|discriminate]. destruct dot; [exact Hne | discriminate]. }
  unfold of_str.
  rewrite (trim_plain _ Hall).
  rewrite (drop_underscores_plain _ Hall None I).
  destruct (not_special _ Hall Hne') as (E1 & E2 & E3).
  rewrite E3, E1, E2.
  rewrite (span_digits_app d (dot ++ f) Hd).
  destruct Hdot as [-> | ->]; simpl app.
  - rewrite (span_digits_all f Hf). simpl fst; simpl snd.
    cbv beta iota zeta. rewrite app_nil_r.
    destruct (d ++ f) as [|c t] eqn:E; [congruence|].
    simpl. reflexivity.
  - replace (span_digits (L "." ++ f)) with (@nil ascii, "."%char :: f)
      by reflexivity.
    simpl fst; simpl snd. rewrite app_nil_r.
    change (ascii_eqb "." ".") with true. cbv beta iota zeta.
    rewrite (span_digits_all f Hf).
    destruct (d ++ f) as [|c t] eqn:E; [congruence|].
    simpl parse_exponent. cbv beta iota zeta. rewrite Z.sub_0_l. reflexivity.
Qed.

End FloatFacts.

(** ** Parsing accepted numbers *)
Module ParseFacts.
Import Py PyFacts CharFacts Patterns Accounting NumberFacts FloatFacts.

Lemma strip_cleaned (s : str) : cleaned (strip s) = cleaned s.
Proof.
  unfold cleaned.
  apply (strip_under
           (fun x => replace "," [] (replace ")" [] (replace "(" [] x)))).
  intros a x c Ha Hc.
  rewrite !replace_app.
  rewrite !(replace_absent _ _ a), !(replace_absent _ _ c);
    try reflexivity; now apply contains_allspace.
Qed.

(** [parse_number] in terms of its input: the text is cleaned, read as
    a float, and negated exactly when both parentheses occur. *)
Lemma parse_number_eq (s : str) :
  parse_number s
  = match strip s with
    | [] => None
    | _ =>
        match Float.of_str (cleaned s) with
        | Ok v => Some (if parenthesized s then Float.fneg v else v)
        | Raise _ => None
        end
    end.
Proof.
  unfold parse_number.
  destruct (strip s) as [|c t] eqn:E; [reflexivity|].
  rewrite <- E.
  change (strip (replace "," [] (replace ")" [] (replace "(" [] (strip s)))))
    with (cleaned (strip s)).
  rewrite strip_cleaned. unfold parenthesized.
  rewrite !contains_strip by reflexivity. reflexivity.
Qed.

Lemma after_point_skip (a b : str) :
  contains "." a = false -> after_point (a ++ b) = after_point b.
Proof.
  induction a as [|c a IH]; simpl; [reflexivity|].
  rewrite orb_false_iff. intros [-> Ha]. auto.
Qed.

Lemma allspace_no (c : ascii) (a : str) :
  isspace c = false -> allspace a = true -> contains c a = false.
Proof. apply contains_allspace. Qed.

Lemma digits_app (a b : str) : digits (a ++ b) = digits a ++ digits b.
Proof. apply filter_app. Qed.

Lemma digits_space (a : str) : allspace a = true -> digits a = [].
Proof.
  intro H. apply filter_none.
  apply (ReFacts.forallb_weaken isspace); [|exact H].
  intros c Hc. destruct (space_not_punct c Hc) as (_ & _ & _ & _ & ->).
  reflexivity.
Qed.

Lemma digits_digits (f : str) :
  forallb isdecimal f = true -> digits f = f.
Proof. apply filter_all. Qed.

Lemma digits_are_digits (s : str) : forallb isdecimal (digits s) = true.
Proof.
  apply forallb_forall. intros c Hc. now apply filter_In in Hc.
Qed.

(** Removing the separators from digits and commas leaves the digits. *)
Lemma unseparated (w : str) :
  forallb digit_or_comma w = true ->
  replace "," [] (replace ")" [] (replace "(" [] w)) = digits w.
Proof.
  induction w as [|c w IH]; simpl; [reflexivity|].
  rewrite andb_true_iff. intros [Hc Hw].
  unfold digit_or_comma in Hc. destruct (isdecimal c) eqn:Ed.
  - destruct (digit_not_punct c Ed) as (E1 & E2 & E3 & _).
    rewrite E1. simpl. rewrite E2. simpl. rewrite E3.
    now rewrite (IH Hw).
  - change (ascii_eqb "," c = true) in Hc.
    apply ascii_eqb_true in Hc. subst c. simpl. exact (IH Hw).
Qed.

Lemma plain_digits (f : str) :
  forallb isdecimal f = true ->
  replace "," [] (replace ")" [] (replace "(" [] f)) = f
  /\ contains "." f = false.
Proof.
  intro H.
  assert (forall x, isdecimal x = false -> contains x f = false) as Hc
      by (intros x Hx; now apply (forallb_contains isdecimal)).
  rewrite (replace_absent "(" [] f) by now apply Hc.
  rewrite (replace_absent ")" [] f) by now apply Hc.
  rewrite (replace_absent "," [] f) by now apply Hc.
  split; [reflexivity | now apply Hc].
Qed.

Lemma comma_digits_no_point (w : str) :
  forallb digit_or_comma w = true -> contains "." w = false.
Proof. apply (forallb_contains digit_or_comma). reflexivity. Qed.

Lemma digit_present (s : str) :
  existsb isdecimal s = true -> digits s <> [].
Proof.
  intro H. apply existsb_exists in H as (c & Hin & Hc).
  intro E. assert (Hf : In c (digits s)) by (apply filter_In; auto).
  rewrite E in Hf. contradiction.
Qed.

Lemma digit_not_blank (s : str) :
  existsb isdecimal s = true -> strip s <> [].
Proof.
  intros H E. destruct (strip_decomp s) as (a & c & Hs & Ha & Hc).
  rewrite E in Hs. simpl in Hs.
  apply digit_present in H. apply H.
  rewrite Hs, digits_app, !digits_space; auto.
Qed.

(** A string of the accepted shape that holds a digit parses to its
    magnitude, negated when it stands in parentheses. *)
Lemma parse_number_shape (s : str) :
  shape s -> existsb isdecimal s = true ->
  parse_number s
  = Some (if parenthesized s then Float.fneg (magnitude s) else magnitude s).
Proof.
  intros Hs Hd. rewrite parse_number_eq.
  pose proof (digit_not_blank s Hd) as Hb.
  destruct (strip s) as [|c0 t0]; [congruence|]. clear Hb c0 t0.
  pose proof (digit_present s Hd) as Hne.
  assert (Hq : exists d f dot,
             forallb isdecimal d = true /\ forallb isdecimal f = true
             /\ (dot = [] \/ dot = L ".")
             /\ cleaned s = d ++ dot ++ f
             /\ digits s = d ++ f
             /\ frac_digits s
                = match dot with [] => 0 | _ => List.length f end).
  { destruct Hs as [ws1 lp ws2 dc dot fd ws3 rp ws4
                        H1 Hlp H2 Hdc Hdcne Hdot Hfd H3 Hrp H4].
    exists (digits dc), fd, dot.
    destruct (plain_digits fd Hfd) as (Rfd & Pfd).
    assert (Rlp : replace "," [] (replace ")" [] (replace "(" [] lp)) = []
                  /\ digits lp = [] /\ contains "." lp = false)
      by (destruct Hlp as [-> | ->]; repeat split; reflexivity).
    assert (Rrp : replace "," [] (replace ")" [] (replace "(" [] rp)) = []
                  /\ digits rp = [] /\ contains "." rp = false)
      by (destruct Hrp as [-> | ->]; repeat split; reflexivity).
    assert (Rdot : replace "," [] (replace ")" [] (replace "(" [] dot)) = dot
                   /\ digits dot = [])
      by (destruct Hdot as [-> | ->]; split; reflexivity).
    destruct Rlp as (Rlp & Dlp & Plp). destruct Rrp as (Rrp & Drp & Prp).
    destruct Rdot as (Rdot & Ddot).
    assert (Rws : forall a, allspace a = true ->
              replace "," [] (replace ")" [] (replace "(" [] a)) = a
              /\ contains "." a = false).
    { intros a Ha.
      rewrite (replace_absent "(" [] a) by now apply contains_allspace.
      rewrite (replace_absent ")" [] a) by now apply contains_allspace.
      rewrite (replace_absent "," [] a) by now apply contains_allspace.
      split; [reflexivity | now apply contains_allspace]. }
    repeat split.
    - apply digits_are_digits.
    - exact Hfd.
    - exact Hdot.
    - unfold cleaned. rewrite !replace_app.
      rewrite (proj1 (Rws ws1 H1)), (proj1 (Rws ws2 H2)),
        (proj1 (Rws ws3 H3)), (proj1 (Rws ws4 H4)).
      rewrite Rlp, Rrp, Rdot, Rfd, (unseparated dc Hdc). simpl.
      replace (ws1 ++ ws2 ++ digits dc ++ dot ++ fd ++ ws3 ++ ws4)
        with ((ws1 ++ ws2) ++ (digits dc ++ dot ++ fd) ++ (ws3 ++ ws4))
        by (now rewrite <- !app_assoc).
      rewrite strip_pad;
        try (unfold allspace; rewrite forallb_app; now apply andb_true_iff).
      apply trimmed_strip, nospace_trimmed.
      apply (ReFacts.forallb_weaken digit_or_point).
      + intros c Hc. apply negb_true_iff.
        exact (proj1 (digit_or_point_plain c Hc)).
      + rewrite !forallb_app. unfold digit_or_point.
        rewrite (ReFacts.forallb_weaken isdecimal _ (digits dc)),
          (ReFacts.forallb_weaken isdecimal _ fd); auto;
          try (intros c ->; reflexivity); try apply digits_are_digits.
        destruct Hdot as [-> | ->]; reflexivity.
    - rewrite !digits_app.
      rewrite (digits_space ws1 H1), (digits_space ws2 H2),
        (digits_space ws3 H3), (digits_space ws4 H4).
      rewrite Dlp, Drp, Ddot, (digits_digits fd Hfd). simpl.
      now rewrite app_nil_r.
    - unfold frac_digits.
      rewrite (after_point_skip ws1) by apply (proj2 (Rws ws1 H1)).
      rewrite (after_point_skip lp) by exact Plp.
      rewrite (after_point_skip ws2) by apply (proj2 (Rws ws2 H2)).
      rewrite (after_point_skip dc) by now apply comma_digits_no_point.
      destruct Hdot as [-> | ->]; simpl.
      + rewrite (after_point_skip fd) by exact Pfd.
        rewrite (after_point_skip ws3) by apply (proj2 (Rws ws3 H3)).
        rewrite (after_point_skip rp) by exact Prp.
        rewrite <- (app_nil_r ws4).
        rewrite (after_point_skip ws4) by apply (proj2 (Rws ws4 H4)).
        reflexivity.
      + rewrite !digits_app.
        rewrite (digits_space ws3 H3), (digits_space ws4 H4), Drp,
          (digits_digits fd Hfd).
        simpl. now rewrite app_nil_r. }
  destruct Hq as (d & f & dot & Hd' & Hf & Hdot & Ec & Ed & Ef).
  rewrite Ec, (of_str_decimal d dot f Hd' Hf Hdot) by (now rewrite <- Ed).
  unfold magnitude. now rewrite Ed, Ef.
Qed.

(** Accepted strings with a digit parse. *)
Lemma parse_number_accepted (s : str) :
  is_number s = true -> existsb isdecimal s = true ->
  parse_number s
  = Some (if parenthesized s then Float.fneg (magnitude s) else magnitude s).
Proof. intro H. apply parse_number_shape. now apply is_number_shape. Qed.

End ParseFacts.

(** ** Scales *)
Module ScaleFacts.
Import Re Patterns.

Lemma resolve_in_table (table : list (pattern * str * Z)) (text : str) l f :
  resolve_in table text = Some (l, f) ->
  exists p, In (p, l, f) table /\ fullmatch p text <> None.
Proof.
  induction table as [|[[p l0] f0] table IH]; simpl; [discriminate|].
  destruct (fullmatch p text) eqn:E.
  - intro H. inversion H; subst. exists p. split; [now left | congruence].
  - intro H. destruct (IH H) as (q & Hq & Hm). exists q. auto.
Qed.

(** Every scale that resolves is a row of [MULTIPLIERS]. *)
Lemma resolve_multiplier_row (text : str) l f :
  resolve_multiplier text = Some (l, f) ->
  exists pat, In (pat, l, f) MULTIPLIERS.
Proof.
  unfold resolve_multiplier, _MULTIPLIER_COMPILED. intro H.
  apply resolve_in_table in H as (p & Hin & _).
  apply in_map_iff in Hin as ([[pat l0] f0] & E & Hin).
  inversion E; subst. eauto.
Qed.

Lemma resolve_multiplier_factor (text : str) l f :
  resolve_multiplier text = Some (l, f) -> (1 <= f)%Z.
Proof.
  intro H. apply resolve_multiplier_row in H as (pat & Hin).
  unfold MULTIPLIERS in Hin. simpl in Hin.
  repeat (destruct Hin as [E | Hin]; [inversion E; lia|]). contradiction.
Qed.

Lemma find_in_factor (ps : list pattern) (text : str) l f :
  find_in ps text = Some (l, f) -> (1 <= f)%Z.
Proof.
  induction ps as [|p ps IH]; simpl; [discriminate|].
  destruct (search p text); [apply resolve_multiplier_factor | exact IH].
Qed.

Lemma find_header_multiplier_factor (text : str) l f :
  find_header_multiplier text = Some (l, f) -> (1 <= f)%Z.
Proof. apply find_in_factor. Qed.

End ScaleFacts.

(** ** The invariant of the records *)
Module RecordFacts.
Import Patterns Extract Invariants ScaleFacts.

Lemma make_result_scaled v raw lbl f rl col st sec pg src ctx r :
  _make_result v raw lbl f rl col st sec pg src ctx = Ok r ->
  (1 <= f)%Z -> well_scaled r.
Proof.
  unfold _make_result. intros H Hf.
  apply bind_Ok_inv in H as (a & Ha & H). inversion H; subst.
  split; simpl; auto.
Qed.

Lemma Forall_snoc {A} (P : A -> Prop) (l : list A) (x : A) :
  Forall P l -> P x -> Forall P (l ++ [x]).
Proof. intros. apply Forall_app. auto. Qed.

Lemma inline_record_scaled text m r :
  inline_record text m = Ok (Some r) -> well_scaled r.
Proof.
  unfold inline_record.
  destruct (resolve_multiplier (Re.group m 2)) as [[l f]|] eqn:E;
    [|discriminate].
  intro H. apply bind_Ok_inv in H as (v & _ & H).
  apply bind_Ok_inv in H as (r0 & H0 & H). inversion H; subst.
  eapply make_result_scaled; [exact H0|].
  eapply resolve_multiplier_factor; eauto.
Qed.

Lemma extract_inline_numbers_scaled text rs :
  extract_inline_numbers text = Ok rs -> Forall well_scaled rs.
Proof.
  unfold extract_inline_numbers. intro H.
  apply bind_Ok_inv in H as ([found spans] & H1 & H2).
  assert (Hf : Forall well_scaled found).
  { refine (foldM_invariant (fun st => Forall well_scaled (fst st))
              _ _ _ _ (found, spans) _ H1); [|constructor].
    intros [fd sp] m [fd' sp'] _ Hs Hstep. unfold dollar_step in Hstep.
    apply bind_Ok_inv in Hstep as (o & Ho & Hstep).
    destruct o as [r|]; inversion Hstep; subst; simpl in *; auto.
    apply Forall_snoc; auto. eapply inline_record_scaled; eauto. }
  refine (foldM_invariant (Forall well_scaled) _ _ _ _ rs Hf H2).
  intros fd m fd' _ Hs Hstep. unfold bare_step in Hstep.
  destruct (in_dollar_span spans (Re.m_start m));
    [inversion Hstep; subst; auto|].
  apply bind_Ok_inv in Hstep as (o & Ho & Hstep).
  destruct o as [r|]; inversion Hstep; subst; auto.
  apply Forall_snoc; auto. eapply inline_record_scaled; eauto.
Qed.

Lemma with_provenance_scaled r sec pg src :
  well_scaled r -> well_scaled (with_provenance r sec pg src).
Proof. intros [H1 H2]. split; auto. Qed.

Lemma as_table_narrative_scaled r sec pg src :
  well_scaled r -> well_scaled (as_table_narrative r sec pg src).
Proof. intros [H1 H2]. split; auto. Qed.

Lemma extract_from_text_scaled text sec pg src rs :
  extract_from_text text sec pg src = Ok rs -> Forall well_scaled rs.
Proof.
  unfold extract_from_text. intro H.
  apply bind_Ok_inv in H as (inl & H1 & H2).
  rewrite foldM_append_map in H2. inversion H2; subst. simpl.
  apply extract_inline_numbers_scaled in H1.
  apply Forall_map. eapply Forall_impl; [|exact H1].
  intros r Hr. now apply with_provenance_scaled.
Qed.

Section Table.
Variables (lbl : option str) (f : Z) (sec : option str)
          (pg : option Z) (src : option str).
Hypothesis Hf : (1 <= f)%Z.

Lemma sub_value_step_scaled headers row_label row_mult sub_labels col_idx
      results iv results' :
  match row_mult with Some (_, g) => (1 <= g)%Z | None => True end ->
  Forall well_scaled results ->
  sub_value_step lbl f sec pg src headers row_label row_mult sub_labels
                 col_idx results iv = Ok results' ->
  Forall well_scaled results'.
Proof.
  intros Hm Hr. unfold sub_value_step. destruct iv as [vi val_text].
  destruct (negb (is_number (Py.strip val_text)));
    [intro H; inversion H; subst; auto|].
  destruct (parse_number (Py.strip val_text)) as [v|];
    [|intro H; inversion H; subst; auto].
  destruct (match row_mult with
            | Some (l, f0) => (Some l, f0)
            | None => if Py.contains "." (Py.strip val_text)
                      then (lbl, f) else (None, 1%Z)
            end) as [el ef] eqn:E.
  intro H. apply bind_Ok_inv in H as (r & Hmk & H).
  inversion H; subst. apply Forall_snoc; auto.
  eapply make_result_scaled; [exact Hmk|].
  destruct row_mult as [[l g]|].
  - inversion E; subst. exact Hm.
  - destruct (Py.contains "." (Py.strip val_text));
      inversion E; subst; [exact Hf | lia].
Qed.

Lemma row_step_scaled headers results row results' :
  Forall well_scaled results ->
  row_step lbl f sec pg src headers results row = Ok results' ->
  Forall well_scaled results'.
Proof.
  intros Hr. unfold row_step.
  set (row_label := match row with [] => [] | c :: _ => clean_cell c end).
  assert (Hm : match find_header_multiplier row_label with
               | Some (_, g) => (1 <= g)%Z | None => True end).
  { destruct (find_header_multiplier row_label) as [[l g]|] eqn:E; [|exact I].
    eapply find_header_multiplier_factor; eauto. }
  apply foldM_invariant; [|exact Hr].
  intros acc col_idx acc' _ Hacc. unfold cell_step.
  destruct (negb (Py.truthy (nth col_idx row None)));
    [intro H; inversion H; subst; auto|].
  apply foldM_invariant; [|exact Hacc].
  intros acc2 iv acc2' _ Hacc2. now apply sub_value_step_scaled.
Qed.

Lemma narrative_cell_step_scaled results cell results' :
  Forall well_scaled results ->
  narrative_cell_step sec pg src results cell = Ok results' ->
  Forall well_scaled results'.
Proof.
  intros Hr. unfold narrative_cell_step.
  destruct (negb (Py.truthy cell)); [intro H; inversion H; subst; auto|].
  intro H. apply bind_Ok_inv in H as (inl & H1 & H2).
  rewrite foldM_append_map in H2. inversion H2; subst.
  apply Forall_app. split; [exact Hr|].
  apply extract_inline_numbers_scaled in H1.
  apply Forall_map. eapply Forall_impl; [|exact H1].
  intros r Hr'. now apply as_table_narrative_scaled.
Qed.

Lemma extract_from_table_scaled rows rs :
  extract_from_table lbl f sec pg src rows = Ok rs ->
  Forall well_scaled rs.
Proof.
  unfold extract_from_table.
  destruct (resolve_column_headers rows) as [[|h headers]|];
    try (intro H; inversion H; subst; constructor).
  intro H. apply bind_Ok_inv in H as (res & H1 & H2).
  assert (Hres : Forall well_scaled res).
  { revert H1. apply foldM_invariant; [|constructor].
    intros acc row acc' _ Hacc. now apply row_step_scaled. }
  revert H2. apply foldM_invariant; [|exact Hres].
  intros acc row acc' _ Hacc. apply foldM_invariant; [|exact Hacc].
  intros acc2 cell acc2' _ Hacc2. now apply narrative_cell_step_scaled.
Qed.
End Table.

(** *** The walk over a page *)

Definition scales_ok (mp : list (Q * str * Z)) : Prop :=
  Forall (fun d => (1 <= snd d)%Z) mp.

Definition walk_ok (w : walk) : Prop :=
  Forall well_scaled (results w) /\ scales_ok (mult_positions w).

Lemma mult_for_y_In (mp : list (Q * str * Z)) (y : Q) l f :
  mult_for_y mp y = Some (l, f) -> exists uy, In (uy, l, f) mp.
Proof.
  unfold mult_for_y.
  assert (G : forall acc,
             fold_left (fun result '(uy, label, factor) =>
                          if Qle_bool uy y then Some (label, factor)
                          else result) mp acc = Some (l, f) ->
             acc = Some (l, f) \/ exists uy, In (uy, l, f) mp).
  { induction mp as [|[[uy l0] f0] mp IH]; simpl; intros acc H; [now left|].
    apply IH in H as [H | (uy' & H)].
    - destruct (Qle_bool uy y); [|now left].
      inversion H; subst. right. exists uy. now left.
    - right. exists uy'. now right. }
  intro H. apply G in H as [H | H]; [discriminate | exact H].
Qed.

Lemma declaration_step_ok mp b :
  scales_ok mp -> scales_ok (declaration_step mp b).
Proof.
  intro H. unfold declaration_step.
  destruct (str_eqb (boxclass b) (L "table")); [exact H|].
  destruct (find_header_multiplier (get_box_text b)) as [[l f]|] eqn:E;
    [|exact H].
  apply Forall_app. split; [exact H|]. constructor; [|constructor].
  simpl. eapply find_header_multiplier_factor; eauto.
Qed.

Lemma declarations_ok (bs : list box) :
  forall mp, scales_ok mp -> scales_ok (fold_left declaration_step bs mp).
Proof.
  induction bs as [|b bs IH]; simpl; intros mp H; [exact H|].
  apply IH. now apply declaration_step_ok.
Qed.

Lemma box_step_ok page_num source w b w' :
  walk_ok w -> box_step page_num source w b = Ok w' -> walk_ok w'.
Proof.
  intros [Hr Hs]. unfold box_step.
  destruct (str_eqb (boxclass b) (L "text")).
  { intro H. apply bind_Ok_inv in H as (r & H1 & H).
    inversion H; subst. split; simpl; [|exact Hs].
    apply Forall_app. split; [exact Hr|].
    eapply extract_from_text_scaled; eauto. }
  destruct (str_eqb (boxclass b) (L "table"));
    [|intro H; inversion H; subst; split; assumption].
  destruct (btable b) as [[|row rows]|];
    try (intro H; inversion H; subst; split; assumption).
  set (grid := row :: rows).
  destruct (find_header_multiplier (Py.join (L " ") (truthy_cells grid)))
    as [[l f]|] eqn:Em.
  - assert (Hf : (1 <= f)%Z)
      by (eapply find_header_multiplier_factor; eauto).
    destruct (existsb _ (truthy_cells grid)).
    + intro H. apply bind_Ok_inv in H as (r & H1 & H).
      inversion H; subst. split; simpl; [|exact Hs].
      apply Forall_app. split; [exact Hr|].
      eapply extract_from_table_scaled; eauto.
    + intro H. inversion H; subst. split; simpl; [exact Hr|].
      apply Forall_app. split; [exact Hs|]. constructor; [exact Hf|constructor].
  - assert (Hsc : forall el ef,
               match mult_for_y (mult_positions w) (y0 b) with
               | Some (l, f) => (Some l, f)
               | None => (None, 1%Z)
               end = (el, ef) -> (1 <= ef)%Z).
    { intros el ef E.
      destruct (mult_for_y (mult_positions w) (y0 b)) as [[l f]|] eqn:Ey;
        inversion E; subst; [|lia].
      apply mult_for_y_In in Ey as (uy & Hin).
      exact (proj1 (Forall_forall _ _) Hs _ Hin). }
    destruct (match mult_for_y (mult_positions w) (y0 b) with
              | Some (l, f) => (Some l, f)
              | None => (None, 1%Z)
              end) as [el ef] eqn:E.
    pose proof (Hsc el ef eq_refl) as Hef.
    intro H. apply bind_Ok_inv in H as (r & H1 & H).
    inversion H; subst. split; simpl; [|exact Hs].
    apply Forall_app. split; [exact Hr|].
    eapply extract_from_table_scaled; eauto.
Qed.

Lemma page_step_scaled source results p results' :
  Forall well_scaled results ->
  page_step source results p = Ok results' ->
  Forall well_scaled results'.
Proof.
  intros Hr. unfold page_step. intro H.
  apply bind_Ok_inv in H as (w & H1 & H). inversion H; subst.
  assert (Hw : walk_ok w).
  { revert H1. apply foldM_invariant.
    - intros s b s' _. apply box_step_ok.
    - split; simpl; [exact Hr|]. apply declarations_ok. constructor. }
  exact (proj1 Hw).
Qed.

Lemma extract_from_pages_scaled pages source rs :
  extract_from_pages pages source = Ok rs -> Forall well_scaled rs.
Proof.
  unfold extract_from_pages. apply foldM_invariant; [|constructor].
  intros acc p acc' _. apply page_step_scaled.
Qed.

End RecordFacts.

(** ** Where the records of a table come from *)
Module TableFacts.
Import Py PyFacts Patterns Extract Invariants.

Lemma make_result_fields v rw lbl f rl col st sec pg src ctx r :
  _make_result v rw lbl f rl col st sec pg src ctx = Ok r ->
  value r = v /\ raw r = rw /\ multiplier_label r = lbl /\ multiplier r = f
  /\ row_label r = rl /\ column r = col /\ source_type r = st.
Proof.
  unfold _make_result. intro H.
  apply bind_Ok_inv in H as (a & _ & H). inversion H; subst. simpl.
  repeat split.
Qed.

Lemma row_label_clean (row : list (option str)) :
  match row with [] => [] | c :: _ => clean_cell c end
  = clean_cell (hd None row).
Proof. destruct row; reflexivity. Qed.

Lemma clean_cell_trimmed (c : option str) :
  strip (clean_cell c) = clean_cell c.
Proof. apply strip_idempotent. Qed.

(** The label of every sub-value of a row is the whole label of the
    row: after the newlines of the label cell are replaced, the split
    yields one sub-label. *)
Lemma sub_labels_single (row : list (option str)) :
  (if contains "010" (or_empty (hd None row))
   then split "010" (clean_cell (hd None row))
   else [clean_cell (hd None row)])
  = [clean_cell (hd None row)].
Proof.
  destruct (contains "010" (or_empty (hd None row))); [|reflexivity].
  apply split_absent, clean_no_newline.
Qed.

Lemma sub_label_whole (l : str) (vi : nat) :
  match nth_error [l] vi with
  | Some x => strip x
  | None => strip (last [l] [])
  end = strip l.
Proof. destruct vi as [|[|vi]]; reflexivity. Qed.

Section Table.
Variables (lbl : option str) (f : Z) (sec : option str)
          (pg : option Z) (src : option str).
Variable rows : grid.

(** A table record stems from a row of the table: it carries the
    row's label and the scale that the rule decides. *)
Definition from_row (r : ExtractedNumber) : Prop :=
  source_type r = table ->
  exists row, In row rows
    /\ row_label r = clean_cell (hd None row)
    /\ (multiplier_label r, multiplier r)
       = scale_rule (find_header_multiplier (clean_cell (hd None row)))
                    (raw r) lbl f.

Lemma row_step_from_row headers results row results' :
  In row rows -> Forall from_row results ->
  row_step lbl f sec pg src headers results row = Ok results' ->
  Forall from_row results'.
Proof.
  intros Hin Hr. unfold row_step. rewrite row_label_clean.
  apply foldM_invariant; [|exact Hr].
  intros acc col_idx acc' _ Hacc. unfold cell_step.
  destruct (negb (truthy (nth col_idx row None)));
    [intro H; inversion H; subst; auto|].
  rewrite sub_labels_single.
  apply foldM_invariant; [|exact Hacc].
  intros acc2 [vi val_text] acc2' _ Hacc2. unfold sub_value_step.
  destruct (negb (is_number (strip val_text)));
    [intro H; inversion H; subst; auto|].
  destruct (parse_number (strip val_text)) as [v|];
    [|intro H; inversion H; subst; auto].
  rewrite sub_label_whole, clean_cell_trimmed.
  fold (scale_rule (find_header_multiplier (clean_cell (hd None row)))
                   (strip val_text) lbl f).
  destruct (scale_rule _ _ _ _) as [el ef] eqn:E.
  intro H. apply bind_Ok_inv in H as (r & Hmk & H).
  inversion H; subst. apply Forall_app. split; [exact Hacc2|].
  constructor; [|constructor].
  apply make_result_fields in Hmk as (_ & Hraw & Hl & Hm & Hrl & _).
  intros _. exists row. rewrite Hraw, Hl, Hm, Hrl, E. auto.
Qed.

Lemma narrative_cell_step_from_row results cell results' :
  Forall from_row results ->
  narrative_cell_step sec pg src results cell = Ok results' ->
  Forall from_row results'.
Proof.
  intros Hr. unfold narrative_cell_step.
  destruct (negb (truthy cell)); [intro H; inversion H; subst; auto|].
  intro H. apply bind_Ok_inv in H as (inl & _ & H2).
  rewrite foldM_append_map in H2. inversion H2; subst.
  apply Forall_app. split; [exact Hr|].
  apply Forall_map. apply Forall_forall. intros r _ Hst. discriminate.
Qed.

Lemma extract_from_table_from_row rs :
  extract_from_table lbl f sec pg src rows = Ok rs -> Forall from_row rs.
Proof.
  unfold extract_from_table.
  destruct (resolve_column_headers rows) as [[|h headers]|];
    try (intro H; inversion H; subst; constructor).
  intro H. apply bind_Ok_inv in H as (res & H1 & H2).
  assert (Hres : Forall from_row res).
  { revert H1. apply foldM_invariant; [|constructor].
    intros acc row acc' Hin Hacc. apply row_step_from_row; auto.
    revert Hin. generalize (table_data_start (enumerate rows) 0).
    intros n Hin. rewrite <- (firstn_skipn n rows).
    apply in_or_app. now right. }
  revert H2. apply foldM_invariant; [|exact Hres].
  intros acc row acc' _ Hacc. apply foldM_invariant; [|exact Hacc].
  intros acc2 cell acc2' _ Hacc2.
  now apply narrative_cell_step_from_row.
Qed.
End Table.

End TableFacts.

(** ** Inline matches *)
Module InlineFacts.
Import Re ReSem ReFacts Py PyFacts CharFacts Patterns Extract Invariants
       ScaleFacts.

Lemma dollar_re :
  p_re INLINE_DOLLAR_PATTERN
  = RSeq (RAtom (ALit "$"))
      (RSeq (RStar ASpace)
         (RSeq (RGroup 1 number_part)
            (RSeq (RStar ASpace) (RSeq (RGroup 2 scale_words) RBoundary)))).
Proof. vm_compute. reflexivity. Qed.

Lemma bare_re :
  p_re INLINE_BARE_PATTERN
  = RSeq (RGroup 1 number_part)
      (RSeq (RPlus ASpace) (RSeq (RGroup 2 scale_words) RBoundary)).
Proof. vm_compute. reflexivity. Qed.

Lemma skipn_add {A} (n : nat) (w t : list A) :
  forall s, skipn n s = w ++ t -> skipn (List.length w + n) s = t.
Proof.
  intros s H. rewrite <- skipn_skipn, H.
  now rewrite skipn_app, skipn_all, Nat.sub_diag.
Qed.

Lemma sem_within (ic : bool) (r : regex) (s : str) (st st' : mstate) :
  within s st -> sem ic r st st' -> within s st'.
Proof.
  unfold within. intros Hw Hs.
  apply sem_lang in Hs as (w & Er & Ep & _).
  rewrite Ep. apply skipn_add. congruence.
Qed.

(** The last group of a pattern spans a word of its body. *)
Lemma sem_last_group (ic : bool) (n : nat) (body r : regex) (s : str) :
  ends_with_group n body r ->
  forall st st', within s st -> sem ic r st st' ->
    exists w, lang ic body w
              /\ exists i, hd_error (caps st') = Some (n, (i, List.length w + i))
                           /\ Py.slice s i (List.length w + i) = w.
Proof.
  induction 1 as [|r1 r2 He IH]; intros st st' Hw Hs; simpl in Hs.
  - destruct Hs as (st1 & (sa & Hb & ->) & (_ & ->)).
    pose proof (sem_lang ic body st sa Hb) as (w & Er & Ep & _ & Hl).
    exists w. split; [exact Hl|]. exists (pos st). simpl.
    rewrite Ep. split; [reflexivity|].
    rewrite <- Ep. now apply (slice_within s st sa w).
  - destruct Hs as (st1 & H1 & H2).
    apply (IH st1 st'); [|exact H2]. eapply sem_within; eauto.
Qed.

Lemma lang_alts (ic : bool) (r : regex) (w : str) :
  lang ic r w -> exists a, In a (alts r) /\ lang ic a w.
Proof.
  induction r as [|a|a|a|a|r1 IH1 r2 IH2|r1 IH1 r2 IH2|n r1 IH1| | | |];
    intro H; try (eexists; split; [left; reflexivity | exact H]).
  simpl in H. destruct H as [H | H].
  - exists r1. split; [now left | exact H].
  - destruct (IH2 H) as (a & Hin & Ha). exists a. split; [now right | exact Ha].
Qed.

Lemma alts_lang (ic : bool) (r : regex) (w : str) :
  forall a, In a (alts r) -> lang ic a w -> lang ic r w.
Proof.
  induction r as [|a|a|a|a|r1 IH1 r2 IH2|r1 IH1 r2 IH2|n r1 IH1| | | |];
    intros b Hin Hb; try (destruct Hin as [<- | []]; exact Hb).
  simpl in Hin. destruct Hin as [<- | Hin]; simpl; [now left|].
  right. eapply IH2; eauto.
Qed.

(** The scale words are the alternatives of the rows of [MULTIPLIERS]. *)
Lemma scale_words_rows :
  alts scale_words
  = flat_map (fun '(pat, _, _) => alts (p_re (ReParse.compile pat true)))
             MULTIPLIERS.
Proof. vm_compute. reflexivity. Qed.

Lemma rows_plain :
  forallb (fun '(pat, _, _) => plain (p_re (ReParse.compile pat true)))
          MULTIPLIERS = true.
Proof. vm_compute. reflexivity. Qed.

Lemma scale_word_no_space (c : ascii) :
  accepts true scale_words c = true -> isspace c = false.
Proof. by_cases c. Qed.

(** A plain pattern matches every word of its language in full. *)
Lemma fullmatch_lang (p : pattern) (w : str) :
  plain (p_re p) = true -> lang (p_icase p) (p_re p) w ->
  fullmatch p w <> None.
Proof.
  intros Hp Hl. unfold fullmatch.
  assert (Hs : sem (p_icase p) (p_re p) (initial w) (after (initial w) w [])).
  { apply lang_sem; auto. simpl. now rewrite app_nil_r. }
  destruct (rmatch_complete (p_icase p) mobj (p_re p) (initial w)
              (after (initial w) w [])
              (fun st' => match rest st' with
                          | [] => Some (mk_mobj w 0 st')
                          | _ => None
                          end)
              (mk_mobj w 0 (after (initial w) w [])) Hs eq_refl) as (y & Hy).
  rewrite Hy. discriminate.
Qed.

Lemma resolve_in_some (table : list (pattern * str * Z)) (text : str) p l f :
  In (p, l, f) table -> fullmatch p text <> None ->
  exists l' f', resolve_in table text = Some (l', f').
Proof.
  induction table as [|[[q l0] f0] table IH]; simpl; [contradiction|].
  intros Hin Hm. destruct (fullmatch q text) eqn:E; [eauto|].
  destruct Hin as [Heq | Hin]; [|now apply IH].
  inversion Heq; subst. congruence.
Qed.

Lemma compile_icase (pat : str) (ic : bool) :
  p_icase (ReParse.compile pat ic) = ic.
Proof.
  unfold ReParse.compile.
  destruct (ReParse.parse_alt _ pat 1) as [[[r [|c t]] n]|]; reflexivity.
Qed.

(** Every scale word that the inline patterns capture resolves. *)
Lemma scale_word_resolves (w : str) :
  lang true scale_words w ->
  exists l f, resolve_multiplier w = Some (l, f).
Proof.
  intro Hl. unfold resolve_multiplier.
  assert (Hw : strip w = w).
  { apply trimmed_strip, nospace_trimmed.
    apply (forallb_weaken (accepts true scale_words)).
    - intros c Hc. apply negb_true_iff. now apply scale_word_no_space.
    - now apply lang_accepts. }
  rewrite Hw.
  apply lang_alts in Hl as (a & Hin & Ha).
  rewrite scale_words_rows in Hin.
  apply in_flat_map in Hin as ([[pat l] f] & Hrow & Hin).
  pose proof (proj1 (forallb_forall _ _) rows_plain _ Hrow) as Hp.
  simpl in Hp.
  apply (resolve_in_some _ w (ReParse.compile pat true) l f).
  - unfold _MULTIPLIER_COMPILED.
    apply in_map_iff. exists (pat, l, f). auto.
  - apply fullmatch_lang; [exact Hp|]. rewrite compile_icase.
    eapply alts_lang; eauto.
Qed.

Lemma span_head (m : mobj) (n i j : nat) :
  n <> 0 -> hd_error (m_caps m) = Some (n, (i, j)) -> span m n = Some (i, j).
Proof.
  intros Hn H. unfold span. destruct n as [|n]; [congruence|].
  destruct (m_caps m) as [|[k ij] l]; [discriminate|].
  simpl in H. inversion H; subst. simpl. now rewrite Nat.eqb_refl.
Qed.

Lemma inline_scale_resolves (p : pattern) (text : str) (m : mobj) :
  p_icase p = true -> ends_with_group 2 scale_words (p_re p) ->
  In m (finditer p text) ->
  exists l f, resolve_multiplier (group m 2) = Some (l, f).
Proof.
  intros Hic He Hin.
  apply finditer_sound in Hin as (st0 & st' & Hw & _ & _ & Hs & ->).
  rewrite Hic in Hs.
  destruct (sem_last_group true 2 scale_words (p_re p) text He st0 st' Hw Hs)
    as (w & Hl & i & Hc & Hsl).
  unfold group.
  rewrite (span_head (mk_mobj text (pos st0) st') 2 i (List.length w + i));
    [|discriminate|exact Hc].
  simpl. rewrite Hsl. now apply scale_word_resolves.
Qed.

Lemma dollar_ends : ends_with_group 2 scale_words (p_re INLINE_DOLLAR_PATTERN).
Proof. rewrite dollar_re. repeat constructor. Qed.

Lemma bare_ends : ends_with_group 2 scale_words (p_re INLINE_BARE_PATTERN).
Proof. rewrite bare_re. repeat constructor. Qed.

(** A match whose scale resolves yields a record or raises. *)
Lemma inline_record_some (text : str) (m : mobj) o :
  (exists l f, resolve_multiplier (group m 2) = Some (l, f)) ->
  inline_record text m = Ok o -> exists r, o = Some r.
Proof.
  intros (l & f & E). unfold inline_record. rewrite E. intro H.
  apply bind_Ok_inv in H as (v & _ & H).
  apply bind_Ok_inv in H as (r & _ & H). inversion H. eauto.
Qed.

End InlineFacts.

(** ** The two loops of the inline extractor *)
Module OverlapFacts.
Import Re ReSem ReFacts Py PyFacts CharFacts Patterns Extract Invariants
       InlineFacts.

Definition span_of (m : mobj) : nat * nat := (m_start m, m_end m).

Definition resolves (m : mobj) : Prop :=
  exists l f, resolve_multiplier (group m 2) = Some (l, f).

Lemma dollar_loop (text : str) (ms : list mobj) :
  (forall m, In m ms -> resolves m) ->
  forall found spans found' spans',
    foldM (dollar_step text) (found, spans) ms = Ok (found', spans') ->
    exists ds, found' = found ++ ds /\ spans' = spans ++ map span_of ms
               /\ Forall2 (record_of text) ms ds.
Proof.
  induction ms as [|m ms IH]; intros Hres found spans found' spans' H;
    simpl in H.
  - inversion H; subst. exists []. rewrite !app_nil_r. auto.
  - apply bind_Ok_inv in H as ([fd sp] & Hstep & H).
    unfold dollar_step in Hstep.
    apply bind_Ok_inv in Hstep as (o & Ho & Hstep).
    destruct (inline_record_some text m o (Hres m (or_introl eq_refl)) Ho)
      as (r & ->).
    inversion Hstep; subst.
    apply IH in H as (ds & -> & -> & HF);
      [|intros m' Hm'; apply Hres; now right].
    exists (r :: ds). rewrite <- !app_assoc. simpl. repeat split; auto.
Qed.

Lemma bare_loop (text : str) (spans : list (nat * nat)) (ms : list mobj) :
  (forall m, In m ms -> resolves m) ->
  forall found rs,
    foldM (bare_step text spans) found ms = Ok rs ->
    exists bs, rs = found ++ bs
               /\ Forall2 (record_of text)
                    (filter (fun m => negb (in_dollar_span spans (m_start m)))
                            ms) bs.
Proof.
  induction ms as [|m ms IH]; intros Hres found rs H; simpl in H.
  - inversion H; subst. exists []. rewrite app_nil_r. auto.
  - apply bind_Ok_inv in H as (fd & Hstep & H).
    assert (Hres' : forall m', In m' ms -> resolves m')
      by (intros m' Hm'; apply Hres; now right).
    unfold bare_step in Hstep. simpl.
    destruct (in_dollar_span spans (m_start m)); simpl.
    + inversion Hstep; subst. now apply IH.
    + apply bind_Ok_inv in Hstep as (o & Ho & Hstep).
      destruct (inline_record_some text m o (Hres m (or_introl eq_refl)) Ho)
        as (r & ->).
      inversion Hstep; subst.
      apply IH in H as (bs & -> & HF); [|exact Hres'].
      exists (r :: bs). rewrite <- app_assoc. simpl. split; auto.
Qed.

(** The records of a text: those of all dollar matches, then those of
    the bare matches that the overlap check lets through. *)
Lemma inline_records (text : str) (rs : list ExtractedNumber) :
  extract_inline_numbers text = Ok rs ->
  exists ds bs, rs = ds ++ bs
    /\ Forall2 (record_of text) (dollar_matches text) ds
    /\ Forall2 (record_of text) (kept_bare text) bs.
Proof.
  unfold extract_inline_numbers. intro H.
  apply bind_Ok_inv in H as ([found spans] & H1 & H2).
  apply dollar_loop in H1 as (ds & -> & -> & HF1).
  - apply bare_loop in H2 as (bs & -> & HF2).
    + exists ds, bs. simpl. repeat split; auto.
    + intros m Hm.
      exact (inline_scale_resolves INLINE_BARE_PATTERN text m eq_refl
               bare_ends Hm).
  - intros m Hm.
    exact (inline_scale_resolves INLINE_DOLLAR_PATTERN text m eq_refl
             dollar_ends Hm).
Qed.

Lemma dollar_only (c : ascii) :
  atom_match true (ALit "$") c = true -> c = "$"%char.
Proof. by_cases c. Qed.

Lemma bare_no_dollar :
  accepts true (p_re INLINE_BARE_PATTERN) "$" = false.
Proof. vm_compute. reflexivity. Qed.

(** A dollar match starts on a dollar sign. *)
Lemma dollar_match_start (text : str) (d : mobj) :
  In d (dollar_matches text) ->
  nth_error text (m_start d) = Some "$"%char.
Proof.
  intro H. apply finditer_sound in H as (st0 & st' & Hw & _ & Hst & Hs & _).
  apply sem_lang in Hs as (w & Er & _ & _ & Hl).
  simpl p_icase in Hl. rewrite dollar_re in Hl.
  destruct Hl as (w1 & w2 & -> & (c & -> & Hc) & _).
  apply dollar_only in Hc. subst c.
  rewrite Hst. unfold within in Hw.
  rewrite <- (Nat.add_0_r (pos st0)), <- nth_error_skipn, Hw, Er.
  reflexivity.
Qed.

(** A bare match holds no dollar sign. *)
Lemma bare_match_chars (text : str) (b : mobj) (i : nat) :
  In b (bare_matches text) ->
  m_start b <= i < m_end b ->
  nth_error text i <> Some "$"%char.
Proof.
  intros H Hi.
  apply finditer_sound in H as (st0 & st' & Hw & _ & Hst & Hs & ->).
  simpl in Hi, Hst.
  apply sem_lang in Hs as (w & Er & Ep & _ & Hl).
  apply lang_accepts in Hl. simpl p_icase in Hl.
  unfold within in Hw.
  replace i with (pos st0 + (i - pos st0)) by lia.
  rewrite <- nth_error_skipn, Hw, Er.
  rewrite nth_error_app1 by lia.
  intro E. apply nth_error_In in E.
  pose proof (proj1 (forallb_forall _ _) Hl _ E) as Ha.
  rewrite bare_no_dollar in Ha. discriminate.
Qed.

Lemma not_in_dollar_span (spans : list (nat * nat)) (start ds de : nat) :
  in_dollar_span spans start = false -> In (ds, de) spans ->
  start < ds \/ de <= start.
Proof.
  unfold in_dollar_span. intros H Hin.
  destruct (Nat.leb ds start && Nat.ltb start de) eqn:E.
  - assert (Hex : existsb (fun '(ds0, de0) =>
                             Nat.leb ds0 start && Nat.ltb start de0) spans
                  = true).
    { apply existsb_exists. exists (ds, de). auto. }
    congruence.
  - apply andb_false_iff in E as [E | E].
    + apply Nat.leb_gt in E. now left.
    + apply Nat.ltb_ge in E. now right.
Qed.

(** A bare match that is let through overlaps no dollar match. *)
Lemma kept_disjoint (text : str) (b d : mobj) :
  In b (kept_bare text) -> In d (dollar_matches text) -> disjoint b d.
Proof.
  unfold kept_bare. intros Hb Hd.
  apply filter_In in Hb as (Hb & Hk). apply negb_true_iff in Hk.
  destruct (not_in_dollar_span _ (m_start b) (m_start d) (m_end d) Hk)
    as [Hlt | Hge].
  - apply in_map_iff. exists d. auto.
  - destruct (le_lt_dec (m_end b) (m_start d)) as [Hle | Hin];
      [now left|].
    exfalso. apply (bare_match_chars text b (m_start d) Hb); [lia|].
    now apply dollar_match_start.
  - now right.
Qed.

End OverlapFacts.

(** ** The walk over the boxes of a page *)
Module PageFacts.
Import Py Patterns Extract Invariants.

Lemma Qle_bool_total (a b : Q) : Qle_bool a b = false -> Qle_bool b a = true.
Proof.
  intro H. apply Qle_bool_iff. apply Qlt_le_weak. apply Qnot_le_lt.
  intro Hle. apply Qle_bool_iff in Hle. congruence.
Qed.

Lemma Qle_bool_trans (a b c : Q) :
  Qle_bool a b = true -> Qle_bool b c = true -> Qle_bool a c = true.
Proof.
  rewrite !Qle_bool_iff. apply Qle_trans.
Qed.

Definition above (a b : box) : Prop := Qle_bool (y0 a) (y0 b) = true.

Lemma insert_box_In (b x : box) (l : list box) :
  In x (insert_box b l) -> x = b \/ In x l.
Proof.
  induction l as [|y l IH]; simpl.
  - intros [<- | []]. now left.
  - destruct (Qle_bool (y0 b) (y0 y)).
    + intros [<- | H]; auto.
    + intros [<- | H]; [right; now left|].
      destruct (IH H); auto.
Qed.

Lemma insert_box_sorted (b : box) (l : list box) :
  StronglySorted above l -> StronglySorted above (insert_box b l).
Proof.
  induction 1 as [|y l Hs IH Hy]; simpl.
  - repeat constructor.
  - destruct (Qle_bool (y0 b) (y0 y)) eqn:E.
    + constructor; [now constructor|]. constructor; [exact E|].
      eapply Forall_impl; [|exact Hy].
      intros z Hz. unfold above in *. eapply Qle_bool_trans; eauto.
    + constructor; [exact IH|].
      apply Forall_forall. intros z Hz.
      apply insert_box_In in Hz as [-> | Hz].
      * now apply Qle_bool_total.
      * exact (proj1 (Forall_forall _ _) Hy z Hz).
Qed.

(** The boxes of a page are walked from the top down. *)
Lemma sorted_boxes_sorted (l : list box) : StronglySorted above (sorted_boxes l).
Proof.
  induction l as [|b l IH]; simpl; [constructor|].
  now apply insert_box_sorted.
Qed.



Definition position (d : Q * str * Z) : Q := fst (fst d).

Lemma mult_for_y_snoc (mp : list (Q * str * Z)) (d : Q * str * Z) (y : Q) :
  mult_for_y (mp ++ [d]) y
  = if Qle_bool (position d) y then Some (snd (fst d), snd d)
    else mult_for_y mp y.
Proof.
  unfold mult_for_y. rewrite fold_left_app. destruct d as [[uy l] f]. reflexivity.
Qed.

(** On declarations in position order, the lookup returns the nearest
    declaration at or above the position. *)
Lemma mult_for_y_nearest (mp : list (Q * str * Z)) (y : Q) l f :
  (forall mp1 d mp2 a, mp = mp1 ++ d :: mp2 -> In a mp1 ->
                       Qle_bool (position a) (position d) = true) ->
  mult_for_y mp y = Some (l, f) ->
  exists uy, In (uy, l, f) mp /\ Qle_bool uy y = true
             /\ forall a, In a mp -> Qle_bool (position a) y = true ->
                          Qle_bool (position a) uy = true.
Proof.
  induction mp as [|d mp IH] using rev_ind; intros Hord H.
  - discriminate.
  - rewrite mult_for_y_snoc in H.
    destruct (Qle_bool (position d) y) eqn:E.
    + destruct d as [[uy l0] f0]. simpl in H. inversion H; subst.
      exists uy. split; [apply in_or_app; right; now left|].
      split; [exact E|]. intros a Ha _.
      apply in_app_or in Ha as [Ha | [<- | []]].
      * exact (Hord mp (uy, l, f) [] a eq_refl Ha).
      * apply Qle_bool_iff. apply Qle_refl.
    + destruct (IH (fun mp1 d0 mp2 a Hm =>
                      Hord mp1 d0 (mp2 ++ [d]) a
                           ltac:(rewrite Hm, <- app_assoc; reflexivity)) H)
        as (uy & Hin & Hy & Hmax).
      exists uy. split; [apply in_or_app; now left|]. split; [exact Hy|].
      intros a Ha Hay. apply in_app_or in Ha as [Ha | [<- | []]].
      * now apply Hmax.
      * congruence.
Qed.

Section Walk.
Variables (page_num : Z) (source : str).

Lemma section_after_table (b : box) (sn : option str) :
  boxclass b = L "table" -> section_after b sn = sn.
Proof. intro H. unfold section_after. now rewrite H. Qed.






(** The records found before a page do not change what the page adds. *)
Definition prefixed (acc : list ExtractedNumber) (w : walk) : walk :=
  {| mult_positions := mult_positions w;
     section_name := section_name w;
     results := acc ++ results w |}.

Lemma box_step_prefixed (acc : list ExtractedNumber) (w : walk) (b : box) :
  box_step page_num source (prefixed acc w) b
  = (w' <- box_step page_num source w b ;; Ok (prefixed acc w')).
Proof.
  unfold box_step.
  change (section_name (prefixed acc w)) with (section_name w).
  change (mult_positions (prefixed acc w)) with (mult_positions w).
  change (results (prefixed acc w)) with (acc ++ results w).
  destruct (str_eqb (boxclass b) (L "text")).
  { destruct (extract_from_text _ _ _ _) as [r|e]; [|reflexivity].
    unfold bind, prefixed. cbn [mult_positions section_name results].
    now rewrite app_assoc. }
  destruct (str_eqb (boxclass b) (L "table")); [|reflexivity].
  destruct (btable b) as [[|row rows]|]; try reflexivity.
  destruct (find_header_multiplier _) as [[l f]|].
  - destruct (existsb _ _); [|reflexivity].
    destruct (extract_from_table _ _ _ _ _ _) as [r|e]; [|reflexivity].
    unfold bind, prefixed. cbn [mult_positions section_name results].
    now rewrite app_assoc.
  - destruct (match mult_for_y (mult_positions w) (y0 b) with
              | Some (l, f) => (Some l, f)
              | None => (None, 1%Z)
              end) as [el ef].
    destruct (extract_from_table _ _ _ _ _ _) as [r|e]; [|reflexivity].
    unfold bind, prefixed. cbn [mult_positions section_name results].
    now rewrite app_assoc.
Qed.

Lemma walk_prefixed (acc : list ExtractedNumber) (bs : list box) :
  forall w,
    foldM (box_step page_num source) (prefixed acc w) bs
    = (w' <- foldM (box_step page_num source) w bs ;; Ok (prefixed acc w')).
Proof.
  induction bs as [|b bs IH]; intro w; simpl; [reflexivity|].
  rewrite box_step_prefixed.
  destruct (box_step page_num source w b) as [w1|e]; simpl; [|reflexivity].
  apply IH.
Qed.
End Walk.

(** What a page adds does not depend on the pages before it. *)
Lemma page_step_alone (source : str) (acc : list ExtractedNumber)
      (p : page_data) :
  page_step source acc p = (r <- page_step source [] p ;; Ok (acc ++ r)).
Proof.
  unfold page_step.
  set (bs := sorted_boxes (boxes p)).
  fold (page_start bs acc). fold (page_start bs []).
  assert (E : page_start bs acc = prefixed acc (page_start bs []))
    by (unfold prefixed, page_start; simpl; now rewrite app_nil_r).
  rewrite E, walk_prefixed.
  now destruct (foldM (box_step (page_number p) source) (page_start bs []) bs).
Qed.

End PageFacts.

Import Patterns Extract Invariants Accounting Fixtures.

(** * Further properties of the code *)

(** ** The scale lookup as a word table *)
Module VocabularyFacts.
Import Re ReSem ReFacts Py PyFacts Patterns Vocabulary InlineFacts.

Lemma lit_match (x c : ascii) :
  atom_match true (ALit x) c = true <-> lower c = lower x.
Proof.
  simpl. rewrite ascii_eqb_true. split; congruence.
Qed.

Lemma in_product (us vs : list str) (w : str) :
  In w (flat_map (fun u => map (fun v => u ++ v) vs) us)
  <-> exists u v, In u us /\ In v vs /\ w = u ++ v.
Proof.
  rewrite in_flat_map. split.
  - intros (u & Hu & Hw). apply in_map_iff in Hw as (v & <- & Hv). eauto.
  - intros (u & v & Hu & Hv & ->). exists u. split; [exact Hu|].
    apply in_map_iff. eauto.
Qed.

(** A literal pattern reads a word exactly when its lower-case form is
    one of the pattern's words. *)
Lemma lang_words (r : regex) :
  literal r = true ->
  forall w, lang true r w <-> In (map lower w) (words r).
Proof.
  induction r as [|a|a|a|a|r1 IH1 r2 IH2|r1 IH1 r2 IH2|n r1 IH1| | | |];
    intro Hl; simpl in Hl; try discriminate; intro w.
  - simpl. split.
    + intros ->. now left.
    + intros [H | []]. now destruct w.
  - destruct a as [x| | | |]; try discriminate. simpl lang. simpl words.
    split.
    + intros (c & -> & Hc). apply lit_match in Hc. simpl. left. congruence.
    + intros [H | []]. destruct w as [|c [|? ?]]; try discriminate.
      simpl in H. inversion H. exists c. split; [reflexivity|].
      apply lit_match. congruence.
  - destruct a as [x| | | |]; try discriminate. simpl lang. simpl words.
    split.
    + intros [-> | (c & -> & Hc)]; [now left|].
      apply lit_match in Hc. simpl. right. left. congruence.
    + intros [H | [H | []]].
      * left. now destruct w.
      * right. destruct w as [|c [|? ?]]; try discriminate.
        simpl in H. inversion H. exists c. split; [reflexivity|].
        apply lit_match. congruence.
  - apply andb_true_iff in Hl as [Hl1 Hl2].
    simpl lang. simpl words. rewrite in_product. split.
    + intros (w1 & w2 & -> & H1 & H2).
      exists (map lower w1), (map lower w2).
      rewrite map_app. repeat split; [now apply IH1 | now apply IH2].
    + intros (u & v & Hu & Hv & E).
      apply map_eq_app in E as (w1 & w2 & -> & <- & <-).
      exists w1, w2. repeat split; [now apply IH1 | now apply IH2].
  - apply andb_true_iff in Hl as [Hl1 Hl2].
    simpl lang. simpl words. rewrite in_app_iff, IH1, IH2 by assumption.
    reflexivity.
Qed.

Lemma literal_plain (r : regex) : literal r = true -> plain r = true.
Proof.
  induction r as [|a|a|a|a|r1 IH1 r2 IH2|r1 IH1 r2 IH2|n r1 IH1| | | |];
    simpl; try discriminate; auto.
  - intro H. apply andb_true_iff in H as [H1 H2]. now rewrite IH1, IH2.
  - intro H. apply andb_true_iff in H as [H1 H2]. now rewrite IH1, IH2.
Qed.

(** A full match reads the whole subject. *)
Lemma fullmatch_sound (p : pattern) (t : str) (m : mobj) :
  fullmatch p t = Some m -> lang (p_icase p) (p_re p) t.
Proof.
  unfold fullmatch. intro H.
  apply rmatch_sound in H as (st' & Hs & Hk).
  destruct (rest st') as [|c r] eqn:Er; [|discriminate].
  apply sem_lang in Hs as (w & Ew & _ & _ & Hl).
  simpl in Ew. rewrite Er, app_nil_r in Ew. now subst w.
Qed.

Lemma mem_word_In (w : str) (ws : list str) : mem_word w ws = true <-> In w ws.
Proof.
  unfold mem_word. rewrite existsb_exists. split.
  - intros (x & Hx & E). apply str_eqb_true in E. now subst.
  - intro H. exists w. split; [exact H | now apply str_eqb_true].
Qed.

(** A literal, case-insensitive pattern matches in full exactly the
    words of its table row. *)
Lemma fullmatch_words (p : pattern) (t : str) :
  literal (p_re p) = true -> p_icase p = true ->
  (fullmatch p t <> None <-> mem_word (map lower t) (words (p_re p)) = true).
Proof.
  intros Hl Hic. rewrite mem_word_In, <- (lang_words _ Hl). split.
  - destruct (fullmatch p t) as [m|] eqn:E; [intros _ | congruence].
    apply fullmatch_sound in E. now rewrite Hic in E.
  - intro H. apply fullmatch_lang; [now apply literal_plain|].
    now rewrite Hic.
Qed.

Definition row_words (row : pattern * str * Z) : list str * str * Z :=
  let '(p, l, f) := row in (words (p_re p), l, f).

Lemma resolve_in_lookup (table : list (pattern * str * Z)) (t : str) :
  Forall (fun row => literal (p_re (fst (fst row))) = true
                     /\ p_icase (fst (fst row)) = true) table ->
  resolve_in table t = lookup_word (map row_words table) (map lower t).
Proof.
  induction 1 as [|[[p l] f] table [Hl Hic] _ IH]; simpl; [reflexivity|].
  simpl in Hl, Hic.
  pose proof (fullmatch_words p t Hl Hic) as Hw.
  destruct (fullmatch p t) as [m|].
  - rewrite (proj1 Hw); [reflexivity | discriminate].
  - destruct (mem_word (map lower t) (words (p_re p))).
    + exfalso. now apply (proj2 Hw).
    + exact IH.
Qed.

Lemma compiled_rows :
  Forall (fun row => literal (p_re (fst (fst row))) = true
                     /\ p_icase (fst (fst row)) = true) _MULTIPLIER_COMPILED
  /\ map row_words _MULTIPLIER_COMPILED = SCALE_WORDS.
Proof.
  split.
  - repeat constructor.
  - vm_compute. reflexivity.
Qed.

End VocabularyFacts.

Import Vocabulary.

(** X1: [resolve_multiplier] is a lookup of the trimmed, lower-cased text
    in the table of scale words: the text resolves exactly when it is,
    whatever its case, one of thousand(s)/k, million(s)/m, billion(s)/b,
    trillion(s)/t, and to the label and factor of that word. *)
Theorem X1_resolve_multiplier_word_table :
  forall text,
    resolve_multiplier text
    = lookup_word SCALE_WORDS (map Py.lower (Py.strip text)).
Proof.
  intro text. unfold resolve_multiplier.
  rewrite (VocabularyFacts.resolve_in_lookup _ _
             (proj1 VocabularyFacts.compiled_rows)).
  now rewrite (proj2 VocabularyFacts.compiled_rows).
Qed.

(** ** Header declarations *)
Module HeaderFacts.
Import Re ReSem ReFacts Py PyFacts CharFacts Patterns ScaleFacts.

Lemma search_from_sound (p : pattern) (s : str) (m : mobj) :
  forall t st,
    rest st = t -> within s st -> search_from p s t st = Some m ->
    exists st0, within s st0 /\ match_at p s st0 = Some m.
Proof.
  induction t as [|c t IH]; intros st Er Hw H; simpl in H.
  - destruct (match_at p s st) as [m0|] eqn:E; simpl in H; [|discriminate].
    inversion H; subst. eauto.
  - destruct (match_at p s st) as [m0|] eqn:E; simpl in H.
    + inversion H; subst. eauto.
    + apply (IH (advance st c t)); auto. now apply within_advance.
Qed.

(** The word that a search finds lies in the subject. *)
Lemma search_sound (p : pattern) (s : str) (m : mobj) :
  search p s = Some m ->
  exists a w b, s = a ++ w ++ b /\ lang (p_icase p) (p_re p) w.
Proof.
  intro H.
  apply (search_from_sound p s m s (initial s) eq_refl (within_initial s)) in H.
  destruct H as (st0 & Hw & Hm).
  apply match_at_sem in Hm as (st' & Hs & _).
  apply sem_lang in Hs as (w & Er & _ & _ & Hl). simpl in Er.
  exists (firstn (pos st0) s), w, (rest st').
  split; [|exact Hl].
  rewrite <- Er. unfold within in Hw. rewrite <- Hw.
  symmetry. apply firstn_skipn.
Qed.

(** The pattern ends with the literal [c]. *)
Inductive ends_lit (c : ascii) : regex -> Prop :=
| ends_lit_here : ends_lit c (RAtom (ALit c))
| ends_lit_seq (r1 r2 : regex) : ends_lit c r2 -> ends_lit c (RSeq r1 r2).

Lemma paren_only (x c : ascii) :
  x = "("%char \/ x = ")"%char ->
  atom_match true (ALit x) c = true -> c = x.
Proof. intros [-> | ->]; by_cases c. Qed.

Lemma lang_ends_lit (x : ascii) (r : regex) :
  x = "("%char \/ x = ")"%char -> ends_lit x r ->
  forall w, lang true r w -> In x w.
Proof.
  intros Hx. induction 1 as [|r1 r2 He IH]; intros w Hl; simpl in Hl.
  - destruct Hl as (c & -> & Hc). apply (paren_only x c Hx) in Hc.
    subst. now left.
  - destruct Hl as (w1 & w2 & -> & _ & H2). apply in_or_app. right. auto.
Qed.

(** Every header pattern opens and closes a parenthesis. *)
Definition parenthetical (p : pattern) : Prop :=
  p_icase p = true
  /\ (exists r, p_re p = RSeq (RAtom (ALit "(")) r)
  /\ ends_lit ")" (p_re p).

Lemma header_patterns_parenthetical :
  Forall parenthetical HEADER_UNIT_PATTERNS.
Proof.
  unfold HEADER_UNIT_PATTERNS.
  constructor; [|constructor; [|constructor; [|constructor; [|constructor]]]];
    (split; [reflexivity|]; split;
     [eexists; vm_compute; reflexivity | vm_compute; repeat constructor]).
Qed.

Lemma find_in_none (ps : list pattern) (text : str) :
  Forall parenthetical ps ->
  contains "(" text = false \/ contains ")" text = false ->
  find_in ps text = None.
Proof.
  induction 1 as [|p ps (Hic & (r & Hr) & He) _ IH]; intro Hc;
    simpl; [reflexivity|].
  destruct (search p text) as [m|] eqn:E; [|now apply IH].
  exfalso. apply search_sound in E as (a & w & b & -> & Hl).
  rewrite Hic in Hl.
  assert (Ho : In "("%char w).
  { rewrite Hr in Hl. destruct Hl as (w1 & w2 & -> & (c & -> & Hc1) & _).
    apply (paren_only "(" c (or_introl eq_refl)) in Hc1. subst. now left. }
  assert (Hcl : In ")"%char w)
    by (apply (lang_ends_lit ")" (p_re p) (or_intror eq_refl) He w Hl)).
  destruct Hc as [Hc | Hc];
    rewrite !contains_app in Hc;
    apply orb_false_iff in Hc as [_ Hc];
    apply orb_false_iff in Hc as [Hc _];
    [apply contains_In in Ho | apply contains_In in Hcl]; congruence.
Qed.

End HeaderFacts.

(** X2: [find_header_multiplier] finds no scale in a text that lacks an
    opening or a closing parenthesis, and a scale that it finds is the
    label and factor of a row of [MULTIPLIERS]. *)
Theorem X2_header_scale_needs_parentheses :
  (forall text,
      Py.contains "(" text = false \/ Py.contains ")" text = false ->
      find_header_multiplier text = None)
  /\ (forall text l f,
         find_header_multiplier text = Some (l, f) ->
         exists pat, In (pat, l, f) MULTIPLIERS).
Proof.
  split.
  - intros text H.
    apply HeaderFacts.find_in_none;
      [exact HeaderFacts.header_patterns_parenthetical | exact H].
  - intros text l f. unfold find_header_multiplier.
    generalize HEADER_UNIT_PATTERNS. intro ps.
    induction ps as [|p ps IH]; simpl; [discriminate|].
    destruct (Re.search p text);
      [apply ScaleFacts.resolve_multiplier_row | exact IH].
Qed.

Lemma X2_header_scale_needs_parentheses_witness :
  (Py.contains "(" (L "Dollars in Millions") = false
   \/ Py.contains ")" (L "Dollars in Millions") = false)
  /\ find_header_multiplier (L "Dollars in Millions") = None
  /\ find_header_multiplier (L "Cash ($M)") = Some (L "Million", 1000000%Z)
  /\ exists pat, In (pat, L "Million", 1000000%Z) MULTIPLIERS.
Proof.
  split; [left; reflexivity|].
  split.
  - apply (proj1 X2_header_scale_needs_parentheses (L "Dollars in Millions")).
    left. reflexivity.
  - split; [vm_compute; reflexivity|].
    apply (proj2 X2_header_scale_needs_parentheses (L "Cash ($M)")).
    vm_compute. reflexivity.
Defined.

(** ** The accepted numbers, both ways *)
Module ShapeFacts.
Import Re ReSem ReFacts Py PyFacts CharFacts Patterns Accounting NumberFacts
       FloatFacts ParseFacts.

Lemma sem_step (ic : bool) (e r : regex) (st st' : mstate) (w t : str) :
  plain e = true -> lang ic e w -> rest st = w ++ t ->
  sem ic r (after st w t) st' -> sem ic (RSeq e r) st st'.
Proof.
  intros Hp Hl Er Hs. simpl. exists (after st w t).
  split; [now apply lang_sem | exact Hs].
Qed.

Lemma sem_bol (ic : bool) (r : regex) (st st' : mstate) :
  pos st = 0 -> sem ic r st st' -> sem ic (RSeq RBol r) st st'.
Proof. intros Hp Hs. simpl. exists st. auto. Qed.

Lemma opt_lang (x : ascii) (w : str) :
  w = [] \/ w = [x] -> lang false (ROpt (ALit x)) w.
Proof.
  intros [-> | ->]; simpl; [now left | right].
  exists x. split; [reflexivity | apply ascii_eqb_true; reflexivity].
Qed.

(** Every string of the shape is accepted. *)
Lemma shape_is_number (s : str) : shape s -> is_number s = true.
Proof.
  intros [ws1 lp ws2 dc dot fd ws3 rp ws4
              H1 Hlp H2 Hdc Hne Hdot Hfd H3 Hrp H4].
  set (txt := ws1 ++ lp ++ ws2 ++ dc ++ dot ++ fd ++ ws3 ++ rp ++ ws4).
  assert (Hs : exists st',
             sem false (p_re NUMBER_PATTERN) (initial txt) st').
  { let r := eval vm_compute in (p_re NUMBER_PATTERN) in
    change (p_re NUMBER_PATTERN) with r.
    eexists. apply sem_bol; [reflexivity|].
    eapply (sem_step _ _ _ _ _ ws1); [reflexivity | exact H1 | reflexivity|].
    eapply (sem_step _ _ _ _ _ lp);
      [reflexivity | now apply opt_lang | reflexivity|].
    eapply (sem_step _ _ _ _ _ ws2); [reflexivity | exact H2 | reflexivity|].
    eapply (sem_step _ _ _ _ _ dc);
      [reflexivity | split; [exact Hdc | exact Hne] | reflexivity|].
    eapply (sem_step _ _ _ _ _ dot);
      [reflexivity | now apply opt_lang | reflexivity|].
    eapply (sem_step _ _ _ _ _ fd); [reflexivity | exact Hfd | reflexivity|].
    eapply (sem_step _ _ _ _ _ ws3); [reflexivity | exact H3 | reflexivity|].
    eapply (sem_step _ _ _ _ _ rp);
      [reflexivity | now apply opt_lang | reflexivity|].
    eapply (sem_step _ _ _ _ _ ws4 []);
      [reflexivity | exact H4 | simpl; now rewrite app_nil_r|].
    simpl. split; reflexivity. }
  destruct Hs as (st' & Hs).
  unfold is_number, match_, match_at.
  destruct (rmatch_complete (p_icase NUMBER_PATTERN) mobj (p_re NUMBER_PATTERN)
              (initial txt) st' (fun st0 => Some (mk_mobj txt 0 st0))
              (mk_mobj txt 0 st') Hs eq_refl) as (y & Hy).
  change {| pos := pos (initial txt); prev := prev (initial txt);
            rest := rest (initial txt); caps := [] |} with (initial txt).
  change (pos (initial txt)) with 0.
  now rewrite Hy.
Qed.

Lemma no_point_in_digits_commas (w : str) :
  forallb digit_or_comma w = true -> ~ In "."%char w.
Proof.
  intros H Hin. apply contains_In in Hin.
  rewrite (comma_digits_no_point w H) in Hin. discriminate.
Qed.

Lemma split_unique {A} (x : A) (a b p q : list A) :
  ~ In x p -> ~ In x q ->
  a ++ x :: b = p ++ x :: q -> a = p /\ b = q.
Proof.
  revert p. induction a as [|y a IH]; intros [|z p] Hp Hq E; simpl in E.
  - inversion E. auto.
  - inversion E; subst. exfalso. apply Hp. now left.
  - inversion E; subst. exfalso. apply Hq.
    apply in_or_app. right. now left.
  - inversion E; subst.
    destruct (IH p) as [-> ->]; auto.
    intro H. apply Hp. now right.
Qed.

Lemma not_In_contains (c : ascii) (w : str) :
  contains c w = false -> ~ In c w.
Proof. intros H Hin. apply contains_In in Hin. congruence. Qed.

Lemma not_In_app {A} (x : A) (a b : list A) :
  ~ In x a -> ~ In x b -> ~ In x (a ++ b).
Proof. intros Ha Hb H. apply in_app_or in H as [H | H]; auto. Qed.

(** The parts of an accepted string around its decimal point. *)
Lemma shape_point (s : str) :
  shape s ->
  forall a b, s = a ++ "."%char :: b ->
    existsb digit_or_comma a = true /\ contains "." b = false.
Proof.
  intros [ws1 lp ws2 dc dot fd ws3 rp ws4
              H1 Hlp H2 Hdc Hne Hdot Hfd H3 Hrp H4] a b E.
  assert (Nws : forall w, allspace w = true -> ~ In "."%char w)
    by (intros w Hw; apply not_In_contains; now apply contains_allspace).
  assert (Nlp : ~ In "."%char lp)
    by (destruct Hlp as [-> | ->]; simpl; intuition discriminate).
  assert (Nrp : ~ In "."%char rp)
    by (destruct Hrp as [-> | ->]; simpl; intuition discriminate).
  assert (Ndc : ~ In "."%char dc) by now apply no_point_in_digits_commas.
  assert (Nfd : ~ In "."%char fd)
    by (apply not_In_contains; now apply (proj2 (plain_digits fd Hfd))).
  assert (Np : ~ In "."%char (ws1 ++ lp ++ ws2 ++ dc))
    by (repeat apply not_In_app; auto).
  assert (Nq : ~ In "."%char (fd ++ ws3 ++ rp ++ ws4))
    by (repeat apply not_In_app; auto).
  destruct Hdot as [-> | ->].
  - exfalso. simpl in E.
    assert (Hin : In "."%char (ws1 ++ lp ++ ws2 ++ dc ++ fd ++ ws3 ++ rp ++ ws4))
      by (rewrite E; apply in_or_app; right; now left).
    revert Hin. repeat apply not_In_app; auto.
  - replace (ws1 ++ lp ++ ws2 ++ dc ++ L "." ++ fd ++ ws3 ++ rp ++ ws4)
      with ((ws1 ++ lp ++ ws2 ++ dc) ++ "."%char :: (fd ++ ws3 ++ rp ++ ws4))
      in E by (now rewrite <- !app_assoc).
    symmetry in E.
    apply split_unique in E as [-> ->]; auto.
    split.
    + rewrite !existsb_app.
      destruct dc as [|c dc]; [congruence|]. simpl in Hdc.
      apply andb_true_iff in Hdc as [Hc _]. simpl. rewrite Hc.
      now rewrite !orb_true_r.
    + destruct (contains "." (fd ++ ws3 ++ rp ++ ws4)) eqn:Ec; [|reflexivity].
      apply contains_In in Ec. contradiction.
Qed.

End ShapeFacts.

(** ** More on parsing *)
Module ParseMore.
Import Py PyFacts CharFacts Patterns Accounting NumberFacts FloatFacts
       ParseFacts ShapeFacts.

(** The blank-input test of [parse_number] is subsumed by the
    conversion: the result is decided by the cleaned text alone. *)
Lemma parse_number_float (s : str) :
  parse_number s
  = match Float.of_str (cleaned s) with
    | Ok v => Some (if parenthesized s then Float.fneg v else v)
    | Raise _ => None
    end.
Proof.
  rewrite parse_number_eq.
  destruct (strip s) as [|c t] eqn:E; [|reflexivity].
  rewrite <- strip_cleaned, E. reflexivity.
Qed.

Lemma filter_again {A} (p q r : A -> bool) (l : list A) :
  filter p (filter q (filter r (filter p l))) = filter p (filter q (filter r l)).
Proof.
  induction l as [|x l IH]; simpl; [reflexivity|].
  destruct (p x) eqn:Ep; simpl.
  - destruct (r x) eqn:Er; simpl; [|exact IH].
    destruct (q x) eqn:Eq; simpl; [|exact IH].
    rewrite Ep. now rewrite IH.
  - destruct (r x) eqn:Er; simpl; [|exact IH].
    destruct (q x) eqn:Eq; simpl; [|exact IH].
    rewrite Ep. exact IH.
Qed.

Lemma cleaned_without_commas (s : str) :
  cleaned (replace "," [] s) = cleaned s.
Proof.
  unfold cleaned. rewrite !replace_filter. now rewrite filter_again.
Qed.

Lemma contains_replace_other (c o : ascii) (s : str) :
  ascii_eqb c o = false -> contains c (replace o [] s) = contains c s.
Proof.
  intro Hc. induction s as [|x s IH]; simpl; [reflexivity|].
  destruct (ascii_eqb x o) eqn:E; simpl.
  - apply ascii_eqb_true in E. subst x.
    rewrite IH. rewrite Ascii.eqb_sym in Hc. unfold ascii_eqb in *.
    now rewrite Hc.
  - now rewrite IH.
Qed.

Lemma cleaned_wrapped (s : str) :
  cleaned ("("%char :: s ++ [")"%char]) = cleaned s.
Proof.
  unfold cleaned. simpl replace at 3. rewrite !replace_app. simpl.
  now rewrite !app_nil_r.
Qed.

Lemma parenthesized_wrapped (s : str) :
  parenthesized ("("%char :: s ++ [")"%char]) = true.
Proof.
  unfold parenthesized. simpl. rewrite contains_app. simpl.
  now rewrite orb_true_r.
Qed.

(** The parts of a string of the shape, cleaned and as digits. *)
Lemma shape_parts (s : str) :
  shape s ->
  exists d f dot,
    forallb isdecimal d = true /\ forallb isdecimal f = true
    /\ (dot = [] \/ dot = L ".")
    /\ cleaned s = d ++ dot ++ f
    /\ digits s = d ++ f.
Proof.
  intros [ws1 lp ws2 dc dot fd ws3 rp ws4
              H1 Hlp H2 Hdc Hdcne Hdot Hfd H3 Hrp H4].
  exists (digits dc), fd, dot.
  destruct (plain_digits fd Hfd) as (Rfd & Pfd).
  assert (Rlp : replace "," [] (replace ")" [] (replace "(" [] lp)) = []
                /\ digits lp = [])
    by (destruct Hlp as [-> | ->]; split; reflexivity).
  assert (Rrp : replace "," [] (replace ")" [] (replace "(" [] rp)) = []
                /\ digits rp = [])
    by (destruct Hrp as [-> | ->]; split; reflexivity).
  assert (Rdot : replace "," [] (replace ")" [] (replace "(" [] dot)) = dot
                 /\ digits dot = [])
    by (destruct Hdot as [-> | ->]; split; reflexivity).
  destruct Rlp as (Rlp & Dlp). destruct Rrp as (Rrp & Drp).
  destruct Rdot as (Rdot & Ddot).
  assert (Rws : forall a, allspace a = true ->
            replace "," [] (replace ")" [] (replace "(" [] a)) = a).
  { intros a Ha.
    rewrite (replace_absent "(" [] a) by now apply contains_allspace.
    rewrite (replace_absent ")" [] a) by now apply contains_allspace.
    rewrite (replace_absent "," [] a) by now apply contains_allspace.
    reflexivity. }
  repeat split.
  - apply digits_are_digits.
  - exact Hfd.
  - exact Hdot.
  - unfold cleaned. rewrite !replace_app.
    rewrite (Rws ws1 H1), (Rws ws2 H2), (Rws ws3 H3), (Rws ws4 H4).
    rewrite Rlp, Rrp, Rdot, Rfd, (unseparated dc Hdc). simpl.
    replace (ws1 ++ ws2 ++ digits dc ++ dot ++ fd ++ ws3 ++ ws4)
      with ((ws1 ++ ws2) ++ (digits dc ++ dot ++ fd) ++ (ws3 ++ ws4))
      by (now rewrite <- !app_assoc).
    rewrite strip_pad;
      try (unfold allspace; rewrite forallb_app; now apply andb_true_iff).
    apply trimmed_strip, nospace_trimmed.
    apply (ReFacts.forallb_weaken digit_or_point).
    + intros c Hc. apply negb_true_iff.
      exact (proj1 (digit_or_point_plain c Hc)).
    + rewrite !forallb_app. unfold digit_or_point.
      rewrite (ReFacts.forallb_weaken isdecimal _ (digits dc)),
        (ReFacts.forallb_weaken isdecimal _ fd); auto;
        try (intros c ->; reflexivity); try apply digits_are_digits.
      destruct Hdot as [-> | ->]; reflexivity.
  - rewrite !digits_app.
    rewrite (digits_space ws1 H1), (digits_space ws2 H2),
      (digits_space ws3 H3), (digits_space ws4 H4).
    rewrite Dlp, Drp, Ddot, (digits_digits fd Hfd). simpl.
    now rewrite app_nil_r.
Qed.

Lemma no_digit (s : str) : existsb isdecimal s = false -> digits s = [].
Proof.
  intro H. unfold digits. apply filter_none.
  apply forallb_forall. intros c Hc. apply negb_true_iff.
  destruct (isdecimal c) eqn:E; [|reflexivity].
  assert (Hex : existsb isdecimal s = true)
    by (apply existsb_exists; eauto).
  congruence.
Qed.

(** An accepted string without a digit does not parse. *)
Lemma parse_number_no_digit (s : str) :
  is_number s = true -> existsb isdecimal s = false -> parse_number s = None.
Proof.
  intros Hn Hd. apply is_number_shape in Hn.
  destruct (shape_parts s Hn) as (d & f & dot & _ & _ & Hdot & Ec & Ed).
  rewrite (no_digit s Hd) in Ed. symmetry in Ed.
  apply app_eq_nil in Ed as [-> ->].
  rewrite parse_number_float, Ec.
  destruct Hdot as [-> | ->]; reflexivity.
Qed.

End ParseMore.

Import NumberFacts.

(** X3: [is_number] accepts exactly the strings made of: white space, an
    optional opening parenthesis, white space, one or more digits and
    commas, an optional point, digits, white space, an optional closing
    parenthesis, white space. *)
Theorem X3_is_number_shape :
  forall s, is_number s = true <-> shape s.
Proof.
  intro s. split; [apply is_number_shape | apply ShapeFacts.shape_is_number].
Qed.

Lemma X3_is_number_shape_witness :
  is_number (L " (1,234.50) ") = true /\ shape (L " (1,234.50) ").
Proof.
  split; [vm_compute; reflexivity|].
  apply (proj1 (X3_is_number_shape (L " (1,234.50) "))).
  vm_compute. reflexivity.
Defined.

(** X4: in a string accepted by [is_number] a decimal point comes after
    a digit or a comma, and there is no second point: a number written
    from its point on, such as ".001" or "(.001)", is not accepted. *)
Theorem X4_point_after_digits :
  (forall s a b,
      is_number s = true -> s = a ++ "."%char :: b ->
      existsb digit_or_comma a = true /\ Py.contains "." b = false)
  /\ is_number (L ".001") = false
  /\ is_number (L "(.001)") = false.
Proof.
  split; [|split; vm_compute; reflexivity].
  intros s a b Hn. apply ShapeFacts.shape_point. now apply is_number_shape.
Qed.

Lemma X4_point_after_digits_witness :
  is_number (L "(48.843)") = true
  /\ L "(48.843)" = L "(48" ++ "."%char :: L "843)"
  /\ existsb digit_or_comma (L "(48") = true
  /\ Py.contains "." (L "843)") = false.
Proof.
  split; [vm_compute; reflexivity|]. split; [reflexivity|].
  apply (proj1 X4_point_after_digits (L "(48.843)")).
  - vm_compute. reflexivity.
  - reflexivity.
Defined.

(** X5: [parse_number] returns its failure result exactly when the
    conversion to a float rejects the cleaned text (the input without
    parentheses, commas and outer white space); blank input is one such
    case, so the test for it changes no result. *)
Theorem X5_parse_fails_iff_conversion_fails :
  forall s,
    parse_number s = None <-> exists e, Float.of_str (cleaned s) = Raise e.
Proof.
  intro s. rewrite ParseMore.parse_number_float.
  destruct (Float.of_str (cleaned s)) as [v|e]; split.
  - discriminate.
  - intros (e & H). discriminate.
  - eauto.
  - reflexivity.
Qed.

Lemma X5_parse_fails_iff_conversion_fails_witness :
  parse_number (L " (,) ") = None
  /\ exists e, Float.of_str (cleaned (L " (,) ")) = Raise e.
Proof.
  split; [vm_compute; reflexivity|].
  apply (proj1 (X5_parse_fails_iff_conversion_fails (L " (,) "))).
  vm_compute. reflexivity.
Defined.

(** X6: thousands separators carry no meaning for [parse_number]: on
    every string, removing the commas first gives the same result. *)
Theorem X6_commas_ignored :
  forall s, parse_number (Py.replace "," [] s) = parse_number s.
Proof.
  intro s. rewrite !ParseMore.parse_number_float.
  rewrite ParseMore.cleaned_without_commas. unfold parenthesized.
  now rewrite !ParseMore.contains_replace_other by reflexivity.
Qed.

(** X7: wrapping a text that is not already in both parentheses into
    "(" and ")" negates what [parse_number] returns for it, and fails
    when it fails. *)
Theorem X7_parentheses_negate :
  forall s,
    parenthesized s = false ->
    parse_number ("("%char :: s ++ [")"%char])
    = option_map Float.fneg (parse_number s).
Proof.
  intros s Hp. rewrite !ParseMore.parse_number_float.
  rewrite ParseMore.cleaned_wrapped, ParseMore.parenthesized_wrapped, Hp.
  now destruct (Float.of_str (cleaned s)).
Qed.

Lemma X7_parentheses_negate_witness :
  parenthesized (L "1,234.5") = false
  /\ parse_number ("("%char :: L "1,234.5" ++ [")"%char])
     = option_map Float.fneg (parse_number (L "1,234.5")).
Proof.
  split; [reflexivity|].
  apply (X7_parentheses_negate (L "1,234.5")). reflexivity.
Defined.

(** X8: for a string accepted by [is_number], [parse_number] fails
    exactly when the string holds no digit (it is made of commas, with
    an optional point, parentheses and white space). *)
Theorem X8_accepted_fails_iff_no_digit :
  forall s,
    is_number s = true ->
    (parse_number s = None <-> existsb Py.isdecimal s = false).
Proof.
  intros s Hn. split.
  - intro H. destruct (existsb Py.isdecimal s) eqn:E; [|reflexivity].
    rewrite (ParseFacts.parse_number_accepted s Hn E) in H. discriminate.
  - now apply ParseMore.parse_number_no_digit.
Qed.

Lemma X8_accepted_fails_iff_no_digit_witness :
  is_number (L "(,,.)") = true
  /\ existsb Py.isdecimal (L "(,,.)") = false
  /\ parse_number (L "(,,.)") = None.
Proof.
  split; [vm_compute; reflexivity|]. split; [reflexivity|].
  apply (proj2 (X8_accepted_fails_iff_no_digit (L "(,,.)") eq_refl)).
  reflexivity.
Defined.

(** ** The lookup of declarations *)
Module LookupFacts.
Import Py Patterns Extract Invariants PageFacts.

Definition below (y : Q) (d : Q * str * Z) : Prop :=
  Qle_bool (position d) y = false.

Lemma mult_for_y_cons_none (mp : list (Q * str * Z)) (y : Q) :
  mult_for_y mp y = None <-> Forall (below y) mp.
Proof.
  induction mp as [|d mp IH] using rev_ind.
  - split; [constructor | reflexivity].
  - rewrite mult_for_y_snoc, Forall_app. unfold below at 2.
    destruct (Qle_bool (position d) y) eqn:E.
    + split; [discriminate|]. intros [_ H]. inversion H; subst. congruence.
    + rewrite IH. split; [intro H; split; auto | tauto].
Qed.

Lemma mult_for_y_after (a b : list (Q * str * Z)) (y : Q) :
  Forall (below y) b -> mult_for_y (a ++ b) y = mult_for_y a y.
Proof.
  induction b as [|d b IH] using rev_ind; intro H.
  - now rewrite app_nil_r.
  - apply Forall_app in H as [Hb Hd]. inversion Hd; subst.
    rewrite app_assoc, mult_for_y_snoc.
    unfold below in H1. rewrite H1. now apply IH.
Qed.

Lemma mult_for_y_split (mp : list (Q * str * Z)) (y : Q) l f :
  mult_for_y mp y = Some (l, f) <->
  exists a uy b, mp = a ++ (uy, l, f) :: b /\ Qle_bool uy y = true
                 /\ Forall (below y) b.
Proof.
  split.
  - induction mp as [|d mp IH] using rev_ind; [discriminate|].
    rewrite mult_for_y_snoc.
    destruct (Qle_bool (position d) y) eqn:E.
    + destruct d as [[uy l0] f0]. simpl. intro H. inversion H; subst.
      exists mp, uy, []. repeat split; auto.
    + intro H. destruct (IH H) as (a & uy & b & -> & Hy & Hb).
      exists a, uy, (b ++ [d]). rewrite <- app_assoc. simpl.
      repeat split; auto. apply Forall_app. split; auto.
  - intros (a & uy & b & -> & Hy & Hb).
    change (a ++ (uy, l, f) :: b) with (a ++ [(uy, l, f)] ++ b).
    rewrite app_assoc, (mult_for_y_after _ b y Hb), mult_for_y_snoc.
    change (position (uy, l, f)) with uy. now rewrite Hy.
Qed.

(** *** The declarations of the first pass *)

(** What one box declares. *)
Definition declared (b : box) : list (Q * str * Z) :=
  if str_eqb (boxclass b) (L "table") then []
  else match find_header_multiplier (get_box_text b) with
       | Some (l, f) => [(y0 b, l, f)]
       | None => []
       end.

Lemma declarations_flat (bs : list box) :
  forall acc,
    fold_left declaration_step bs acc = acc ++ flat_map declared bs.
Proof.
  induction bs as [|b bs IH]; intro acc; simpl; [now rewrite app_nil_r|].
  rewrite IH. unfold declaration_step, declared.
  destruct (str_eqb (boxclass b) (L "table")); [reflexivity|].
  destruct (find_header_multiplier (get_box_text b)) as [[l f]|];
    [now rewrite <- app_assoc | reflexivity].
Qed.

Lemma declared_In (b : box) (d : Q * str * Z) :
  In d (declared b) <->
  str_eqb (boxclass b) (L "table") = false
  /\ find_header_multiplier (get_box_text b) = Some (snd (fst d), snd d)
  /\ position d = y0 b.
Proof.
  unfold declared, position. destruct d as [[uy l] f]. cbn [fst snd].
  destruct (str_eqb (boxclass b) (L "table")).
  - split; [intros [] | intros (H & _); discriminate].
  - destruct (find_header_multiplier (get_box_text b)) as [[l0 f0]|].
    + split.
      * intros [H | []]. inversion H; subst. auto.
      * intros (_ & H & Hy). inversion H; subst. now left.
    + split; [intros [] | intros (_ & H & _); discriminate].
Qed.

Definition not_after (a d : Q * str * Z) : Prop :=
  Qle_bool (position a) (position d) = true.

Lemma declared_sorted (bs : list box) :
  StronglySorted above bs -> StronglySorted not_after (flat_map declared bs).
Proof.
  induction 1 as [|b bs Hs IH Hb]; simpl; [constructor|].
  assert (Hall : Forall (fun d => position d = y0 b) (declared b)).
  { apply Forall_forall. intros d Hd. now apply declared_In in Hd. }
  assert (Hrest : Forall (fun d => Qle_bool (y0 b) (position d) = true)
                         (flat_map declared bs)).
  { apply Forall_forall. intros d Hd.
    apply in_flat_map in Hd as (b' & Hb' & Hd).
    apply declared_In in Hd as (_ & _ & ->).
    exact (proj1 (Forall_forall _ _) Hb b' Hb'). }
  unfold declared in *.
  destruct (str_eqb (boxclass b) (L "table")); [exact IH|].
  destruct (find_header_multiplier (get_box_text b)) as [[l f]|];
    [|exact IH].
  simpl. constructor; [exact IH|].
  eapply Forall_impl; [|exact Hrest]. intros d Hd. exact Hd.
Qed.

Lemma sorted_before (mp1 mp2 : list (Q * str * Z)) d a :
  StronglySorted not_after (mp1 ++ d :: mp2) -> In a mp1 -> not_after a d.
Proof.
  induction mp1 as [|x mp1 IH]; simpl; intros H Ha; [contradiction|].
  apply StronglySorted_inv in H as [Hs Hx].
  destruct Ha as [<- | Ha]; [|now apply IH].
  apply (proj1 (Forall_forall _ _) Hx). apply in_or_app. right. now left.
Qed.

(** The scale that the first pass offers at a position is that of the
    nearest declaring box at or above it. *)
Lemma first_pass_nearest (boxes : list box) (y : Q) l f :
  mult_for_y (fold_left declaration_step (sorted_boxes boxes) []) y
  = Some (l, f) ->
  exists b,
    In b (sorted_boxes boxes)
    /\ str_eqb (boxclass b) (L "table") = false
    /\ find_header_multiplier (get_box_text b) = Some (l, f)
    /\ Qle_bool (y0 b) y = true
    /\ forall b',
        In b' (sorted_boxes boxes) ->
        str_eqb (boxclass b') (L "table") = false ->
        find_header_multiplier (get_box_text b') <> None ->
        Qle_bool (y0 b') y = true -> Qle_bool (y0 b') (y0 b) = true.
Proof.
  rewrite declarations_flat. simpl app. intro H.
  pose proof (declared_sorted _ (sorted_boxes_sorted boxes)) as Hs.
  apply mult_for_y_nearest in H as (uy & Hin & Hy & Hmax).
  - apply in_flat_map in Hin as (b & Hb & Hd).
    apply declared_In in Hd as (Hc & Hm & Hp). simpl in Hm, Hp.
    unfold position in Hp. simpl in Hp. subst uy.
    exists b. repeat split; auto.
    intros b' Hb' Hc' Hm' Hy'.
    destruct (find_header_multiplier (get_box_text b')) as [[l' f']|] eqn:E;
      [|congruence].
    apply (Hmax (y0 b', l', f')); [|exact Hy'].
    apply in_flat_map. exists b'. split; [exact Hb'|].
    apply declared_In. simpl. auto.
  - intros mp1 d mp2 a E Ha. rewrite E in Hs.
    exact (sorted_before mp1 mp2 d a Hs Ha).
Qed.

Lemma sorted_boxes_In (l : list box) (b : box) :
  In b (sorted_boxes l) <-> In b l.
Proof.
  induction l as [|x l IH]; simpl; [tauto|].
  split.
  - intro H. apply insert_box_In in H as [-> | H]; [now left|].
    right. now apply IH.
  - assert (G : forall y s, In y (insert_box x s) <-> y = x \/ In y s).
    { intros y s. induction s as [|z s IHs]; simpl.
      - split; [intros [<- | []]; now left | intros [-> | []]; now left].
      - destruct (Qle_bool (y0 x) (y0 z)); simpl; rewrite ?IHs.
        + split; [intros [<- | H]; auto | intros [-> | H]; auto].
        + tauto. }
    intro H. apply G. destruct H as [<- | H]; [now left|].
    right. now apply IH.
Qed.

End LookupFacts.

Import PageFacts.

(** X9: [mult_for_y] returns the last entry of the list, in list order,
    whose position is at or above the position asked for, and nothing
    exactly when every entry lies below it. *)
Theorem X9_mult_for_y_last_at_or_above :
  forall mp y,
    (mult_for_y mp y = None <->
     forall d, In d mp -> ~ (position d <= y)%Q)
    /\ (forall l f,
           mult_for_y mp y = Some (l, f) <->
           exists a uy b,
             mp = a ++ (uy, l, f) :: b /\ (uy <= y)%Q
             /\ forall d, In d b -> ~ (position d <= y)%Q).
Proof.
  assert (B : forall y d, LookupFacts.below y d <-> ~ (position d <= y)%Q).
  { intros y d. unfold LookupFacts.below. rewrite <- Qle_bool_iff.
    destruct (Qle_bool (position d) y); split; congruence. }
  intros mp y. split.
  - rewrite LookupFacts.mult_for_y_cons_none, Forall_forall.
    split; intros H d Hd; apply B; auto.
  - intros l f. rewrite LookupFacts.mult_for_y_split.
    split; intros (a & uy & b & E & Hy & Hb); exists a, uy, b;
      (split; [exact E|]); rewrite Qle_bool_iff in *;
      (split; [exact Hy|]).
    + intros d Hd. apply B.
      exact (proj1 (Forall_forall _ _) Hb d Hd).
    + apply Forall_forall. intros d Hd. apply B. auto.
Qed.

Lemma X9_mult_for_y_last_at_or_above_witness :
  exists a uy b,
    [((30 # 1)%Q, L "Thousand", 1000%Z); ((10 # 1)%Q, L "Million", 1000000%Z);
     ((70 # 1)%Q, L "Billion", 1000000000%Z)]
    = a ++ (uy, L "Million", 1000000%Z) :: b
    /\ (uy <= 50 # 1)%Q
    /\ forall d, In d b -> ~ (position d <= 50 # 1)%Q.
Proof.
  apply (proj1 (proj2 (X9_mult_for_y_last_at_or_above
           [((30 # 1)%Q, L "Thousand", 1000%Z);
            ((10 # 1)%Q, L "Million", 1000000%Z);
            ((70 # 1)%Q, L "Billion", 1000000000%Z)] (50 # 1)%Q)
           (L "Million") 1000000%Z)).
  vm_compute. reflexivity.
Defined.

(** X10: the declarations that the first pass of [extract_from_pages]
    collects from the boxes that are not tables are in position order,
    so that a lookup in them returns the scale of the nearest declaring
    box at or above the position. *)
Theorem X10_first_pass_nearest_above :
  forall boxes y l f,
    mult_for_y (fold_left declaration_step (sorted_boxes boxes) []) y
    = Some (l, f) ->
    exists b,
      In b boxes
      /\ str_eqb (boxclass b) (L "table") = false
      /\ find_header_multiplier (get_box_text b) = Some (l, f)
      /\ (y0 b <= y)%Q
      /\ forall b',
          In b' boxes ->
          str_eqb (boxclass b') (L "table") = false ->
          find_header_multiplier (get_box_text b') <> None ->
          (y0 b' <= y)%Q -> (y0 b' <= y0 b)%Q.
Proof.
  intros boxes y l f H.
  apply LookupFacts.first_pass_nearest in H
    as (b & Hb & Hc & Hm & Hy & Hmax).
  exists b. rewrite <- !Qle_bool_iff.
  split; [now apply LookupFacts.sorted_boxes_In|]. repeat split; auto.
  intros b' Hb' Hc' Hm' Hy'. rewrite <- Qle_bool_iff in *.
  apply Hmax; auto. now apply LookupFacts.sorted_boxes_In.
Qed.

Lemma X10_first_pass_nearest_above_witness :
  exists b,
    In b [_make_text_box "(Dollars in Millions)" (40 # 1) "text";
          _make_text_box "(Dollars in Thousands)" (10 # 1) "text"]
    /\ str_eqb (boxclass b) (L "table") = false
    /\ find_header_multiplier (get_box_text b) = Some (L "Million", 1000000%Z)
    /\ (y0 b <= 50 # 1)%Q
    /\ forall b',
        In b' [_make_text_box "(Dollars in Millions)" (40 # 1) "text";
               _make_text_box "(Dollars in Thousands)" (10 # 1) "text"] ->
        str_eqb (boxclass b') (L "table") = false ->
        find_header_multiplier (get_box_text b') <> None ->
        (y0 b' <= 50 # 1)%Q -> (y0 b' <= y0 b)%Q.
Proof.
  apply (X10_first_pass_nearest_above
           [_make_text_box "(Dollars in Millions)" (40 # 1) "text";
            _make_text_box "(Dollars in Thousands)" (10 # 1) "text"]
           (50 # 1)%Q (L "Million") 1000000%Z).
  vm_compute. reflexivity.
Defined.

(** ** The header rows of a table *)
Module GridFacts.
Import Py PyFacts Patterns Extract Records.

Lemma first_data_row_from (rows : grid) :
  forall i d,
    first_data_row (enumerate_from i rows) = Some d ->
    exists k, d = i + k /\ first_numeric rows k.
Proof.
  induction rows as [|row rows IH]; intros i d; simpl; [discriminate|].
  destruct (existsb cell_is_number row) eqn:E.
  - intro H. inversion H; subst. exists 0. split; [lia|]. split.
    + exists row. auto.
    + intros j r Hj. lia.
  - intro H. apply IH in H as (k & -> & (r & Hr & Hn) & Hb).
    exists (S k). split; [lia|]. split.
    + exists r. auto.
    + intros [|j] r' Hj Hr'; simpl in Hr'.
      * inversion Hr'; subst. exact E.
      * apply (Hb j); [lia | exact Hr'].
Qed.

Lemma first_data_row_none (rows : grid) :
  forall i,
    first_data_row (enumerate_from i rows) = None <-> Forall no_number rows.
Proof.
  induction rows as [|row rows IH]; intro i; simpl.
  - split; [constructor | reflexivity].
  - destruct (existsb cell_is_number row) eqn:E.
    + split; [discriminate|]. intro H. inversion H; subst.
      unfold no_number in *. congruence.
    + rewrite IH. split; [now constructor | intro H; now inversion H].
Qed.

Lemma table_data_start_from (rows : grid) :
  forall i d,
    first_data_row (enumerate_from i rows) = Some d -> 0 < d ->
    table_data_start (enumerate_from i rows) 0 = d.
Proof.
  induction rows as [|row rows IH]; intros i d; simpl; [discriminate|].
  destruct (existsb cell_is_number row).
  - intros H Hd. inversion H; subst.
    destruct d; [lia | reflexivity].
  - simpl. apply IH.
Qed.

(** The three outcomes of the scan of [resolve_column_headers]. *)
Lemma resolve_column_headers_cases (rows : grid) :
  (resolve_column_headers rows = None
   /\ (first_data_row (enumerate rows) = None
       \/ first_data_row (enumerate rows) = Some 0))
  \/ exists d,
      first_data_row (enumerate rows) = Some (S d)
      /\ resolve_column_headers rows
         = match firstn (S d) rows with
           | [row] => Some (map clean_cell row)
           | header_rows =>
               let col_count :=
                 fold_right Nat.max 0 (map (@List.length _) rows) in
               let filled :=
                 map (forward_fill None)
                     (map (fun row =>
                             row ++ repeat None (col_count - List.length row))
                          header_rows) in
               Some (map (fun j =>
                            match column_parts j filled [] with
                            | [] => L "col_" ++ str_of_nat j
                            | parts => join (L " / ") parts
                            end)
                         (seq 0 col_count))
           end.
Proof.
  unfold resolve_column_headers.
  destruct rows as [|row rows]; [left; split; [reflexivity | now left]|].
  destruct (first_data_row (enumerate (row :: rows))) as [[|d]|].
  - left. split; [reflexivity | now right].
  - right. exists d. split; [reflexivity|].
    destruct (firstn (S d) (row :: rows)) as [|r [|r' rs]]; reflexivity.
  - left. split; [reflexivity | now left].
Qed.

(** *** Forward fill *)

Lemma nearest_left_cons (last : option str) (cell : option str)
      (left : list (option str)) :
  nearest_left last (cell :: left)
  = nearest_left (if blank cell then last else Some (clean_cell cell)) left.
Proof.
  unfold nearest_left. simpl rev.
  induction (rev left) as [|x l IH]; simpl.
  - destruct (blank cell); reflexivity.
  - destruct (blank x); simpl; [exact IH | reflexivity].
Qed.

Lemma forward_fill_nth (row : list (option str)) :
  forall last j,
    nth_error (forward_fill last row) j
    = match nth_error row j with
      | Some cell =>
          Some (if blank cell then nearest_left last (firstn j row)
                else cell)
      | None => None
      end.
Proof.
  induction row as [|cell row IH]; intros last j.
  - destruct j; reflexivity.
  - assert (Hb : blank cell
                 = negb (truthy cell
                         && truthy (Some (strip (or_empty cell)))))
      by reflexivity.
    destruct j as [|j]; cbn [forward_fill nth_error firstn].
    + rewrite Hb.
      destruct (truthy cell && truthy (Some (strip (or_empty cell))));
        reflexivity.
    + rewrite nearest_left_cons, Hb.
      destruct (truthy cell && truthy (Some (strip (or_empty cell))));
        cbn [nth_error negb]; apply IH.
Qed.

Lemma forward_fill_length (row : list (option str)) :
  forall last, List.length (forward_fill last row) = List.length row.
Proof.
  induction row as [|cell row IH]; intro last; [reflexivity|].
  cbn [forward_fill].
  destruct (truthy cell && truthy (Some (strip (or_empty cell))));
    cbn [List.length]; now rewrite IH.
Qed.

(** *** The composite names *)

Definition name_part (p : str) : Prop := trimmed p /\ p <> [].

Lemma column_parts_parts (j : nat) (filled : grid) :
  forall seen, Forall name_part (column_parts j filled seen).
Proof.
  induction filled as [|row filled IH]; intro seen; [constructor|].
  cbn [column_parts]. cbv zeta.
  set (val := strip (or_empty (nth j row None))).
  destruct (truthy (Some val) && negb (mem_str val seen)) eqn:E;
    [|apply IH].
  apply andb_true_iff in E as [E _].
  constructor; [|apply IH]. split; [apply strip_trimmed|].
  intro H. rewrite H in E. discriminate.
Qed.

Lemma mem_str_In (s : str) (l : list str) : mem_str s l = true <-> In s l.
Proof.
  unfold mem_str. rewrite existsb_exists. split.
  - intros (x & Hx & E). apply str_eqb_true in E. now subst.
  - intro H. exists s. split; [exact H | now apply str_eqb_true].
Qed.

(** The parts of a composite name are pairwise distinct. *)
Lemma column_parts_distinct (j : nat) (filled : grid) :
  forall seen,
    NoDup (column_parts j filled seen)
    /\ forall p, In p (column_parts j filled seen) -> ~ In p seen.
Proof.
  induction filled as [|row filled IH]; intro seen.
  - split; [constructor | simpl; tauto].
  - cbn [column_parts]. cbv zeta.
    set (val := strip (or_empty (nth j row None))).
    destruct (truthy (Some val) && negb (mem_str val seen)) eqn:E;
      [|apply IH].
    apply andb_true_iff in E as [_ E]. apply negb_true_iff in E.
    destruct (IH (val :: seen)) as [Hn Hs]. split.
    + constructor; [|exact Hn]. intro H. apply (Hs val H). now left.
    + intros p [<- | Hp].
      * intro H. apply mem_str_In in H. congruence.
      * intro H. apply (Hs p Hp). now right.
Qed.

Lemma join_name (parts : list str) :
  parts <> [] -> Forall name_part parts -> name_part (join (L " / ") parts).
Proof.
  induction parts as [|p rest IH]; [congruence|]. intros _ H.
  inversion H as [|? ? [Hp Hne] Hrest]; subst.
  destruct rest as [|q rest]; [split; assumption|].
  destruct (IH ltac:(discriminate) Hrest) as [Hj Hjne].
  change (join (L " / ") (p :: q :: rest))
    with (p ++ L " / " ++ join (L " / ") (q :: rest)).
  set (tl := join (L " / ") (q :: rest)) in *.
  split; [split|].
  - intros c t E. destruct p as [|c0 p]; [congruence|].
    inversion E; subst. eapply (proj1 Hp); reflexivity.
  - intros c t E.
    destruct (exists_last Hjne) as (t' & c' & Et). rewrite Et in E.
    rewrite !app_assoc in E. apply app_inj_tail in E as [_ <-].
    eapply (proj2 Hj). exact Et.
  - destruct p; [congruence | discriminate].
Qed.

Lemma uint_nospace (d : Decimal.uint) :
  nospace (L (NilEmpty.string_of_uint d)) = true.
Proof. induction d; simpl; auto. Qed.

Lemma col_name (j : nat) : name_part (L "col_" ++ str_of_nat j).
Proof.
  split; [|discriminate]. apply nospace_trimmed.
  unfold nospace, str_of_nat. rewrite forallb_app.
  apply andb_true_iff. split; [reflexivity | apply uint_nospace].
Qed.

Lemma clean_cell_is_trimmed (c : option str) : trimmed (clean_cell c).
Proof. apply strip_trimmed. Qed.

Lemma Some_eq {A} (x y : A) : Some x = Some y -> x = y.
Proof. congruence. Qed.

End GridFacts.

Import Records GridFacts.

(** X11: [resolve_column_headers] gives no headers exactly when no row
    of the table holds a number or the first row holds one.  When it
    gives headers, the first row that holds a number is not the first
    row of the table, and the scan of [extract_from_table] for the first
    data row stops at that same row. *)
Theorem X11_headers_end_at_first_numeric_row :
  forall rows,
    (resolve_column_headers rows = None <->
     Forall no_number rows
     \/ exists row rest,
         rows = row :: rest /\ existsb cell_is_number row = true)
    /\ (forall hs,
           resolve_column_headers rows = Some hs ->
           0 < table_data_start (enumerate rows) 0
           /\ first_numeric rows (table_data_start (enumerate rows) 0)).
Proof.
  intro rows. split.
  - destruct (resolve_column_headers_cases rows)
      as [(-> & [H | H]) | (d & Hd & ->)].
    + split; [|reflexivity]. intros _. left.
      now apply (first_data_row_none rows 0).
    + split; [|reflexivity]. intros _. right.
      apply first_data_row_from in H as (k & Hk & (row & Hr & Hn) & _).
      destruct k; [|lia]. destruct rows as [|r rest]; [discriminate|].
      inversion Hr; subst. eauto.
    + split.
      * destruct (firstn (S d) rows) as [|r [|r' rs]]; discriminate.
      * intros [H | (row & rest & -> & H)].
        -- apply (first_data_row_none rows 0) in H.
           unfold enumerate in Hd. congruence.
        -- unfold enumerate in Hd. simpl in Hd. rewrite H in Hd.
           discriminate.
  - intros hs H.
    destruct (resolve_column_headers_cases rows)
      as [(E & _) | (d & Hd & _)]; [congruence|].
    unfold enumerate in *.
    rewrite (table_data_start_from rows 0 (S d) Hd) by lia.
    split; [lia|].
    apply first_data_row_from in Hd as (k & Hk & Hf).
    simpl in Hk. now subst k.
Qed.

Lemma X11_headers_end_at_first_numeric_row_witness :
  0 < table_data_start
        (enumerate (cells [["Fund"; "Unit"]; ["Item"; "FY2023"];
                           ["Budget"; "99.5"]]%string)) 0
  /\ first_numeric
       (cells [["Fund"; "Unit"]; ["Item"; "FY2023"];
               ["Budget"; "99.5"]]%string)
       (table_data_start
          (enumerate (cells [["Fund"; "Unit"]; ["Item"; "FY2023"];
                             ["Budget"; "99.5"]]%string)) 0).
Proof.
  apply (proj2 (X11_headers_end_at_first_numeric_row
                  (cells [["Fund"; "Unit"]; ["Item"; "FY2023"];
                          ["Budget"; "99.5"]]%string))
               [L "Fund / Item"; L "Unit / FY2023"]).
  vm_compute. reflexivity.
Defined.

(** X12: the headers that [resolve_column_headers] gives have no white
    space at either end.  With one header row there is one header per
    cell of that row, the cell with its newlines replaced by spaces and
    trimmed, however many columns the rows below have.  With several
    header rows there is one header per column of the widest row of the
    table, and none is empty. *)
Theorem X12_headers_shape :
  forall rows hs,
    resolve_column_headers rows = Some hs ->
    Forall (fun h => Py.strip h = h) hs
    /\ ((table_data_start (enumerate rows) 0 = 1
         /\ hs = map clean_cell (hd [] rows))
        \/ (1 < table_data_start (enumerate rows) 0
            /\ List.length hs
               = fold_right Nat.max 0 (map (@List.length _) rows)
            /\ Forall (fun h => h <> []) hs)).
Proof.
  intros rows hs H.
  destruct (resolve_column_headers_cases rows)
    as [(E & _) | (d & Hd & E)]; [congruence|].
  unfold enumerate in *.
  rewrite (table_data_start_from rows 0 (S d) Hd) by lia.
  rewrite E in H. clear E.
  assert (Hlen : List.length (firstn (S d) rows) = S d).
  { apply first_data_row_from in Hd as (k & Hk & (row & Hr & _) & _).
    simpl in Hk. subst k. apply firstn_length_le.
    apply Nat.lt_le_incl. apply nth_error_Some. congruence. }
  destruct (firstn (S d) rows) as [|r [|r' rs]] eqn:Ef;
    [discriminate| |].
  - inversion H; subst hs. simpl in Hlen.
    assert (Hr : hd [] rows = r)
      by (destruct rows; [discriminate | now inversion Ef]).
    split.
    + apply Forall_map, Forall_forall. intros c _.
      apply PyFacts.trimmed_strip, GridFacts.clean_cell_is_trimmed.
    + left. split; [congruence | now rewrite Hr].
  - cbv zeta in H. apply Some_eq in H. subst hs.
    set (filled := map (forward_fill None) _).
    assert (Hn : forall j,
               name_part match column_parts j filled [] with
                         | [] => L "col_" ++ str_of_nat j
                         | parts => Py.join (L " / ") parts
                         end).
    { intro j. pose proof (column_parts_parts j filled []) as Hp.
      destruct (column_parts j filled []) as [|p ps] eqn:Ec;
        [apply col_name|].
      apply join_name; [discriminate | exact Hp]. }
    split.
    + apply Forall_map, Forall_forall. intros j _.
      apply PyFacts.trimmed_strip, Hn.
    + right. simpl in Hlen. split; [lia|].
      split; [now rewrite length_map, length_seq|].
      apply Forall_map, Forall_forall. intros j _. apply Hn.
Qed.

Lemma X12_headers_shape_witness :
  Forall (fun h => Py.strip h = h) [L "Item"]
  /\ ((table_data_start
         (enumerate (cells [["Item"]; ["Budget"; "99.5"; "101.5"]]%string)) 0
       = 1
       /\ [L "Item"]
          = map clean_cell
              (hd [] (cells [["Item"]; ["Budget"; "99.5"; "101.5"]]%string)))
      \/ (1 < table_data_start
                (enumerate
                   (cells [["Item"]; ["Budget"; "99.5"; "101.5"]]%string)) 0
          /\ List.length [L "Item"]
             = fold_right Nat.max 0
                 (map (@List.length _)
                      (cells [["Item"]; ["Budget"; "99.5"; "101.5"]]%string))
          /\ Forall (fun h => h <> []) [L "Item"])).
Proof.
  apply (X12_headers_shape
           (cells [["Item"]; ["Budget"; "99.5"; "101.5"]]%string)
           [L "Item"]).
  vm_compute. reflexivity.
Defined.

(** X13: the forward fill of a header row keeps its length and every
    cell that is not blank as it is; a blank cell, one that is missing,
    empty or white space only, takes the cleaned text of the nearest
    cell to its left that is not blank, and the initial value when there
    is none. *)
Theorem X13_forward_fill_nearest_left :
  forall row last,
    List.length (forward_fill last row) = List.length row
    /\ forall j cell,
        nth_error row j = Some cell ->
        nth_error (forward_fill last row) j
        = Some (if blank cell then nearest_left last (firstn j row)
                else cell).
Proof.
  intros row last. split; [apply forward_fill_length|].
  intros j cell H. now rewrite forward_fill_nth, H.
Qed.

Lemma X13_forward_fill_nearest_left_witness :
  nth_error (forward_fill None
               [Some (L "FY 2023"); None; Some (L " "); Some (L "FY 2024")])
            2
  = Some (Some (L "FY 2023")).
Proof.
  apply (proj2 (X13_forward_fill_nearest_left
                  [Some (L "FY 2023"); None; Some (L " "); Some (L "FY 2024")]
                  None) 2 (Some (L " "))).
  reflexivity.
Defined.

(** X14: a table without headers yields nothing, not even the inline
    numbers of its cells: this is so when no row holds a number, when
    the first row holds one, and when the only row above the first
    number has no cell. *)
Theorem X14_no_headers_no_records :
  forall lbl f sec pg src rows,
    (Forall no_number rows
     \/ (exists row rest,
            rows = row :: rest /\ existsb cell_is_number row = true)
     \/ (exists row rest,
            rows = [] :: row :: rest /\ existsb cell_is_number row = true)) ->
    extract_from_table lbl f sec pg src rows = Ok [].
Proof.
  intros lbl f sec pg src rows H. unfold extract_from_table.
  destruct (resolve_column_headers_cases rows)
    as [(-> & _) | (d & Hd & E)]; [reflexivity|].
  unfold enumerate in Hd.
  destruct H as [H | [(row & rest & -> & H) | (row & rest & -> & H)]].
  - apply (first_data_row_none rows 0) in H. congruence.
  - simpl in Hd. rewrite H in Hd. discriminate.
  - simpl in Hd. rewrite H in Hd. inversion Hd; subst d.
    rewrite E. reflexivity.
Qed.

Lemma X14_no_headers_no_records_witness :
  extract_from_table None 1 None None None
    (cells [["Revenue"; "100"; "grew to $5 million"]]%string) = Ok [].
Proof.
  apply (X14_no_headers_no_records None 1%Z None None None
           (cells [["Revenue"; "100"; "grew to $5 million"]]%string)).
  right. left. eexists. eexists. split; [reflexivity|].
  vm_compute. reflexivity.
Defined.

(** ** The fields of the records *)
Module FieldFacts.
Import Re Py PyFacts Patterns Extract Invariants ScaleFacts OverlapFacts
       Records.

Lemma make_result_all v rw lbl f rl col st sec pg src ctx r :
  _make_result v rw lbl f rl col st sec pg src ctx = Ok r ->
  value r = v /\ raw r = rw /\ multiplier_label r = lbl /\ multiplier r = f
  /\ row_label r = rl /\ column r = col /\ source_type r = st
  /\ section r = sec /\ page r = pg /\ source r = src /\ context r = ctx.
Proof.
  unfold _make_result. intro H.
  apply bind_Ok_inv in H as (a & _ & H). inversion H; subst. simpl.
  repeat split.
Qed.

Lemma strip_length (s : str) : List.length (strip s) <= List.length s.
Proof.
  destruct (strip_decomp s) as (a & c & Hs & _).
  rewrite Hs at 2. rewrite !length_app. lia.
Qed.

Lemma replace_char_length (o n : ascii) (s : str) :
  List.length (replace o [n] s) = List.length s.
Proof.
  induction s as [|x s IH]; simpl; [reflexivity|].
  destruct (ascii_eqb x o); simpl; now rewrite IH.
Qed.

Lemma slice_length (s : str) (i j : nat) : List.length (slice s i j) <= j - i.
Proof. unfold slice. apply firstn_le_length. Qed.

Lemma context_window (text : str) (m : mobj) :
  window (strip (replace "010" (L " ")
                   (slice text (m_start m - CONTEXT_WINDOW)
                      (Nat.min (List.length text)
                               (m_end m + CONTEXT_WINDOW))))) m.
Proof.
  split; [apply strip_idempotent|]. split; [apply clean_no_newline|].
  eapply Nat.le_trans; [apply strip_length|].
  change (L " ") with [" "%char]. rewrite replace_char_length.
  eapply Nat.le_trans; [apply slice_length|].
  unfold CONTEXT_WINDOW. lia.
Qed.

Lemma inline_record_fields (text : str) (m : mobj) (r : ExtractedNumber) :
  record_of text m r -> inline_fields m r.
Proof.
  unfold record_of, inline_record.
  destruct (resolve_multiplier (group m 2)) as [[l f]|] eqn:E;
    [|discriminate].
  intro H. apply bind_Ok_inv in H as (v & _ & H).
  apply bind_Ok_inv in H as (r0 & H0 & H). inversion H; subst r0.
  apply make_result_all in H0
    as (_ & Hraw & Hl & Hf & Hrl & Hcol & Hst & Hsec & Hpg & Hsrc & Hctx).
  unfold inline_fields, stamped. repeat split; auto.
  - apply resolve_multiplier_row in E as (pat & Hin).
    exists l, pat. rewrite Hf. auto.
  - eexists. split; [exact Hctx|]. apply context_window.
Qed.

Lemma Forall2_In_r {A B} (R : A -> B -> Prop) (l : list A) (l' : list B) y :
  Forall2 R l l' -> In y l' -> exists x, In x l /\ R x y.
Proof.
  induction 1 as [|x y' l l' Hxy _ IH]; simpl; [contradiction|].
  intros [<- | Hy]; [exists x; auto|].
  destruct (IH Hy) as (x' & Hx' & HR). exists x'. auto.
Qed.

(** Every inline record stems from a counted match of the text. *)
Lemma inline_numbers_fields (text : str) (rs : list ExtractedNumber) r :
  extract_inline_numbers text = Ok rs -> In r rs ->
  exists m, (In m (dollar_matches text) \/ In m (kept_bare text))
            /\ inline_fields m r.
Proof.
  intros H Hr. apply inline_records in H as (ds & bs & -> & Hd & Hb).
  apply in_app_or in Hr as [Hr | Hr].
  - destruct (Forall2_In_r _ _ _ r Hd Hr) as (m & Hm & HR).
    exists m. split; [now left | now apply (inline_record_fields text)].
  - destruct (Forall2_In_r _ _ _ r Hb Hr) as (m & Hm & HR).
    exists m. split; [now right | now apply (inline_record_fields text)].
Qed.

Lemma from_text_fields text sec pg src rs r :
  extract_from_text text sec pg src = Ok rs -> In r rs ->
  stamped sec pg src r /\ source_type r = narrative
  /\ row_label r = L "inline" /\ column r = L "narrative"
  /\ (exists l pat, multiplier_label r = Some l
                    /\ In (pat, l, multiplier r) MULTIPLIERS).
Proof.
  unfold extract_from_text. intros H Hr.
  apply bind_Ok_inv in H as (inl & H1 & H2).
  rewrite foldM_append_map in H2. inversion H2; subst rs. simpl in Hr.
  apply in_map_iff in Hr as (r0 & <- & Hr0).
  destruct (inline_numbers_fields text inl r0 H1 Hr0)
    as (m & _ & Hst & Hrl & Hcol & _ & _ & Hsc & _).
  unfold stamped. simpl. repeat split; auto.
Qed.

Section Table.
Variables (lbl : option str) (f : Z) (sec : option str)
          (pg : option Z) (src : option str).

Definition table_row_record (headers : list str) (r : ExtractedNumber)
  : Prop :=
  stamped sec pg src r /\ table_fields headers r.

Lemma sub_value_step_fields headers row_label row_mult sub_labels col_idx
      results iv results' :
  1 <= col_idx ->
  Forall (table_row_record headers) results ->
  sub_value_step lbl f sec pg src headers row_label row_mult sub_labels
                 col_idx results iv = Ok results' ->
  Forall (table_row_record headers) results'.
Proof.
  intros Hc Hr. unfold sub_value_step. destruct iv as [vi val_text].
  destruct (is_number (strip val_text)) eqn:En; simpl;
    [|intro H; inversion H; subst; auto].
  destruct (parse_number (strip val_text)) as [v|] eqn:Ep;
    [|intro H; inversion H; subst; auto].
  destruct (match row_mult with
            | Some (l, f0) => (Some l, f0)
            | None => if contains "." (strip val_text)
                      then (lbl, f) else (None, 1%Z)
            end) as [el ef].
  intro H. apply bind_Ok_inv in H as (r & Hmk & H).
  inversion H; subst. apply Forall_app. split; [exact Hr|].
  constructor; [|constructor].
  apply make_result_all in Hmk
    as (Hv & Hraw & _ & _ & _ & Hcol & Hst & Hsec & Hpg & Hsrc & Hctx).
  split; [unfold stamped; auto|].
  unfold table_fields. rewrite Hst. unfold value_fields.
  rewrite Hraw, Hv, Hctx, Hcol. repeat split; auto.
  - apply strip_idempotent.
  - exists col_idx. auto.
Qed.

Lemma row_step_fields headers results row results' :
  Forall (table_row_record headers) results ->
  row_step lbl f sec pg src headers results row = Ok results' ->
  Forall (table_row_record headers) results'.
Proof.
  intros Hr. unfold row_step.
  apply foldM_invariant; [|exact Hr].
  intros acc col_idx acc' Hin Hacc. unfold cell_step.
  destruct (negb (truthy (nth col_idx row None)));
    [intro H; inversion H; subst; auto|].
  apply foldM_invariant; [|exact Hacc].
  intros acc2 iv acc2' _ Hacc2. apply sub_value_step_fields; auto.
  apply in_seq in Hin. lia.
Qed.

Lemma narrative_cell_step_fields headers results cell results' :
  Forall (table_row_record headers) results ->
  narrative_cell_step sec pg src results cell = Ok results' ->
  Forall (table_row_record headers) results'.
Proof.
  intros Hr. unfold narrative_cell_step.
  destruct (negb (truthy cell)); [intro H; inversion H; subst; auto|].
  intro H. apply bind_Ok_inv in H as (inl & H1 & H2).
  rewrite foldM_append_map in H2. inversion H2; subst.
  apply Forall_app. split; [exact Hr|].
  apply Forall_map, Forall_forall. intros r0 Hr0.
  destruct (inline_numbers_fields _ inl r0 H1 Hr0)
    as (m & _ & _ & _ & _ & _ & _ & Hsc & c & Hc & Ht & Hn & _).
  split; [unfold stamped; auto|].
  unfold table_fields, cell_fields. simpl. repeat split; auto.
  exists c. auto.
Qed.

Lemma extract_from_table_fields rows rs r :
  extract_from_table lbl f sec pg src rows = Ok rs -> In r rs ->
  exists headers,
    resolve_column_headers rows = Some headers
    /\ table_row_record headers r.
Proof.
  unfold extract_from_table.
  destruct (resolve_column_headers rows) as [[|h headers]|];
    try (intro H; inversion H; subst; contradiction).
  intros H Hr. exists (h :: headers). split; [reflexivity|].
  apply bind_Ok_inv in H as (res & H1 & H2).
  assert (Hres : Forall (table_row_record (h :: headers)) res).
  { revert H1. apply foldM_invariant; [|constructor].
    intros acc row acc' _ Hacc. now apply row_step_fields. }
  assert (Hall : Forall (table_row_record (h :: headers)) rs).
  { revert H2. apply foldM_invariant; [|exact Hres].
    intros acc row acc' _ Hacc. apply foldM_invariant; [|exact Hacc].
    intros acc2 cell acc2' _ Hacc2.
    now apply narrative_cell_step_fields. }
  exact (proj1 (Forall_forall _ _) Hall r Hr).
Qed.

Lemma find_header_multiplier_row (text : str) l g :
  find_header_multiplier text = Some (l, g) ->
  exists pat, In (pat, l, g) MULTIPLIERS.
Proof.
  unfold find_header_multiplier.
  induction HEADER_UNIT_PATTERNS as [|p ps IH]; simpl; [discriminate|].
  destruct (search p text); [apply resolve_multiplier_row | exact IH].
Qed.

Lemma extract_from_table_consistent rows rs r :
  scale_pair lbl f ->
  extract_from_table lbl f sec pg src rows = Ok rs -> In r rs ->
  consistent r.
Proof.
  intros Hp H Hr.
  destruct (extract_from_table_fields rows rs r H Hr)
    as (headers & _ & _ & Hf).
  pose proof (TableFacts.extract_from_table_from_row
                lbl f sec pg src rows rs H) as Hrow.
  pose proof (proj1 (Forall_forall _ _) Hrow r Hr) as Hfrom.
  unfold TableFacts.from_row in Hfrom. unfold table_fields in Hf.
  unfold consistent.
  destruct (source_type r); [|contradiction|].
  - destruct (Hfrom eq_refl) as (row & _ & _ & E).
    unfold scale_rule in E.
    destruct (find_header_multiplier (clean_cell (hd None row)))
      as [[l g]|] eqn:Em.
    + apply find_header_multiplier_row in Em as (pat & Hin).
      inversion E as [[El Ef]]. right. exists l, pat.
      split; [exact El | rewrite Ef; exact Hin].
    + destruct (contains "." (raw r)); inversion E as [[El Ef]];
        rewrite El, Ef; [exact Hp | now left].
  - destruct Hf as (_ & _ & (l & pat & Hl & Hin) & _).
    right. exists l, pat. auto.
Qed.
End Table.

(** *** The walk over a page *)

Definition walk_from (src : str) (pages : list page_data) (p : page_data)
           (w : walk) : Prop :=
  Forall (fun r => exists q, In q pages /\ from_box src q r) (results w)
  /\ section_of p (section_name w)
  /\ Forall (fun d => exists pat, In (pat, snd (fst d), snd d) MULTIPLIERS)
            (mult_positions w)
  /\ Forall consistent (results w).

Lemma section_after_of (p : page_data) (b : box) (s : option str) :
  In b (boxes p) -> section_of p s -> section_of p (section_after b s).
Proof.
  intros Hb Hs. unfold section_after.
  destruct (str_eqb (boxclass b) (L "section-header")) eqn:E; [|exact Hs].
  apply str_eqb_true in E.
  destruct (find_header_multiplier (get_box_text b)) as [x|].
  - destruct (strip _); [exact Hs|]. right. exists b. auto.
  - right. exists b. auto.
Qed.

Lemma box_step_from src pages p w b w' :
  In p pages -> In b (boxes p) -> walk_from src pages p w ->
  box_step (page_number p) src w b = Ok w' -> walk_from src pages p w'.
Proof.
  intros Hp Hb (Hr & Hs & Hm & Hc). unfold box_step.
  pose proof (section_after_of p b (section_name w) Hb Hs) as Hs'.
  set (sn := section_after b (section_name w)) in *.
  destruct (str_eqb (boxclass b) (L "text")) eqn:Et.
  { apply str_eqb_true in Et.
    intro H. apply bind_Ok_inv in H as (rs & H1 & H).
    inversion H; subst w'. unfold walk_from. simpl.
    split; [|split; [exact Hs'|split; [exact Hm|]]].
    - apply Forall_app. split; [exact Hr|].
      apply Forall_forall. intros r Hin. exists p. split; [exact Hp|].
      destruct (from_text_fields _ _ _ _ rs r H1 Hin)
        as ((Hsec & Hpg & Hsrc) & Hst & _).
      unfold from_box. rewrite Hst, Hsec, Hpg, Hsrc.
      repeat split; auto. exists b. split; [exact Hb|].
      split; [exact Et|]. exists rs. auto.
    - apply Forall_app. split; [exact Hc|].
      apply Forall_forall. intros r Hin.
      destruct (from_text_fields _ _ _ _ rs r H1 Hin)
        as (_ & _ & _ & _ & l & pat & Hl & Hrow).
      right. exists l, pat. auto. }
  assert (Hskip : walk_from src pages p
                    {| mult_positions := mult_positions w;
                       section_name := sn;
                       results := results w |})
    by (unfold walk_from; simpl; auto).
  destruct (str_eqb (boxclass b) (L "table")) eqn:Etab;
    [|intro H; inversion H; subst; exact Hskip].
  apply str_eqb_true in Etab.
  destruct (btable b) as [[|row rows]|] eqn:Eb;
    try (intro H; inversion H; subst; exact Hskip).
  set (grid := row :: rows) in *.
  assert (Hext : forall lbl f rs,
             scale_pair lbl f ->
             extract_from_table lbl f sn (Some (page_number p)) (Some src)
                                grid = Ok rs ->
             walk_from src pages p
               {| mult_positions := mult_positions w;
                  section_name := sn;
                  results := results w ++ rs |}).
  { intros lbl f rs Hsp Hx. unfold walk_from. simpl.
    split; [|split; [exact Hs'|split; [exact Hm|]]].
    - apply Forall_app. split; [exact Hr|].
      apply Forall_forall. intros r Hin. exists p. split; [exact Hp|].
      destruct (extract_from_table_fields _ _ _ _ _ _ rs r Hx Hin)
        as (hs & _ & (Hsec & Hpg & Hsrc) & Hf).
      unfold from_box. rewrite Hsec, Hpg, Hsrc.
      repeat split; auto. exists b. split; [exact Hb|].
      unfold table_fields in Hf.
      destruct (source_type r); [|contradiction|];
        (split; [exact Etab|]); exists grid, lbl, f, rs; auto.
    - apply Forall_app. split; [exact Hc|].
      apply Forall_forall. intros r Hin.
      eapply extract_from_table_consistent; eauto. }
  destruct (find_header_multiplier (join (L " ") (truthy_cells grid)))
    as [[l g]|] eqn:Em.
  - apply find_header_multiplier_row in Em as (pat & Hrow).
    destruct (existsb _ (truthy_cells grid)).
    + intro H. apply bind_Ok_inv in H as (rs & H1 & H).
      inversion H; subst w'. apply (Hext (Some l) g rs); [|exact H1].
      right. exists l, pat. auto.
    + intro H. inversion H; subst w'. unfold walk_from. simpl.
      split; [exact Hr|split; [exact Hs'|split; [|exact Hc]]].
      apply Forall_app. split; [exact Hm|].
      constructor; [|constructor]. exists pat. exact Hrow.
  - assert (Hsc : forall el ef,
               match mult_for_y (mult_positions w) (y0 b) with
               | Some (l, g) => (Some l, g)
               | None => (None, 1%Z)
               end = (el, ef) -> scale_pair el ef).
    { intros el ef E.
      destruct (mult_for_y (mult_positions w) (y0 b)) as [[l g]|] eqn:Ey;
        inversion E; subst; [|now left].
      apply RecordFacts.mult_for_y_In in Ey as (uy & Hin).
      destruct (proj1 (Forall_forall _ _) Hm _ Hin) as (pat & Hrow).
      right. exists l, pat. auto. }
    destruct (match mult_for_y (mult_positions w) (y0 b) with
              | Some (l, g) => (Some l, g)
              | None => (None, 1%Z)
              end) as [el ef] eqn:E.
    pose proof (Hsc el ef eq_refl) as Hef.
    intro H. apply bind_Ok_inv in H as (rs & H1 & H).
    inversion H; subst w'. now apply (Hext el ef rs).
Qed.

Lemma declarations_rows (bs : list box) :
  Forall (fun d => exists pat, In (pat, snd (fst d), snd d) MULTIPLIERS)
         (fold_left declaration_step bs []).
Proof.
  rewrite LookupFacts.declarations_flat. simpl.
  apply Forall_forall. intros d Hd.
  apply in_flat_map in Hd as (b & _ & Hd).
  apply LookupFacts.declared_In in Hd as (_ & Hm & _).
  now apply find_header_multiplier_row in Hm.
Qed.

Lemma extract_from_pages_from pages src rs :
  extract_from_pages pages src = Ok rs ->
  Forall (fun r => exists q, In q pages /\ from_box src q r) rs
  /\ Forall consistent rs.
Proof.
  unfold extract_from_pages.
  apply (foldM_invariant
           (fun acc =>
              Forall (fun r => exists q, In q pages /\ from_box src q r) acc
              /\ Forall consistent acc));
    [|split; constructor].
  intros acc p acc' Hp (Hacc & Hcon). unfold page_step. intro H.
  apply bind_Ok_inv in H as (w & H1 & H). inversion H; subst acc'.
  assert (Hw : walk_from src pages p w).
  { revert H1. apply foldM_invariant.
    - intros s b s' Hb. apply box_step_from; [exact Hp|].
      now apply LookupFacts.sorted_boxes_In.
    - unfold walk_from. simpl.
      split; [exact Hacc|split; [now left|split; [|exact Hcon]]].
      apply declarations_rows. }
  destruct Hw as (H2 & _ & _ & H3). auto.
Qed.

End FieldFacts.

Import FieldFacts.

(** X15: every record of [extract_inline_numbers] stems from a match of
    the text that is counted, a dollar-prefixed one or a bare-worded one
    that the overlap check lets through.  Its raw text is the trimmed
    match, it has a scale, a label with its factor from a row of
    [MULTIPLIERS], the row label "inline", the column "narrative" and no
    section, page or source.  Its context is trimmed, holds no newline,
    and is at most 30 characters longer than the match at either
    side. *)
Theorem X15_inline_record_fields :
  forall text rs r,
    extract_inline_numbers text = Ok rs -> In r rs ->
    exists m,
      (In m (dollar_matches text) \/ In m (kept_bare text))
      /\ inline_fields m r.
Proof. exact inline_numbers_fields. Qed.

Lemma X15_inline_record_fields_witness :
  exists rs,
    extract_inline_numbers (L "rose to $9.6 billion in 2023") = Ok rs
    /\ rs <> []
    /\ forall r,
        In r rs ->
        exists m,
          (In m (dollar_matches (L "rose to $9.6 billion in 2023"))
           \/ In m (kept_bare (L "rose to $9.6 billion in 2023")))
          /\ inline_fields m r.
Proof.
  eexists. split; [vm_compute; reflexivity|]. split; [discriminate|].
  intros r Hr.
  eapply (X15_inline_record_fields (L "rose to $9.6 billion in 2023"));
    [vm_compute; reflexivity | exact Hr].
Defined.

(** X16: every record of [extract_from_table] carries the section, the
    page and the source passed in.  A table record has a raw text that
    is trimmed, accepted by [is_number] and parsed to the record's
    value, no context, and as column the header of a column other than
    the first, or "col_j" when the headers end before it: the first
    column is never read as a value.  The other records are those of
    the text of the cells: row label "inline", column
    "table narrative", a scale from [MULTIPLIERS] and a context. *)
Theorem X16_table_record_fields :
  forall lbl f sec pg src rows rs r,
    extract_from_table lbl f sec pg src rows = Ok rs -> In r rs ->
    stamped sec pg src r
    /\ exists headers,
        resolve_column_headers rows = Some headers
        /\ table_fields headers r.
Proof.
  intros lbl f sec pg src rows rs r H Hr.
  destruct (extract_from_table_fields lbl f sec pg src rows rs r H Hr)
    as (headers & Hh & Hs & Hf).
  split; [exact Hs|]. exists headers. auto.
Qed.

Lemma X16_table_record_fields_witness :
  exists rs,
    extract_from_table (Some (L "Million")) 1000000 None (Some 3%Z) None
      (cells [["Item"; "FY2023"]; ["Budget"; "150.5"]]%string) = Ok rs
    /\ rs <> []
    /\ forall r,
        In r rs ->
        stamped None (Some 3%Z) None r
        /\ exists headers,
            resolve_column_headers
              (cells [["Item"; "FY2023"]; ["Budget"; "150.5"]]%string)
            = Some headers
            /\ table_fields headers r.
Proof.
  eexists. split; [vm_compute; reflexivity|]. split; [discriminate|].
  intros r Hr.
  eapply (X16_table_record_fields (Some (L "Million")) 1000000%Z None
           (Some 3%Z) None
           (cells [["Item"; "FY2023"]; ["Budget"; "150.5"]]%string));
    [vm_compute; reflexivity | exact Hr].
Defined.

(** X17: every record of [extract_from_pages] stems from a box of one
    of the pages: a narrative record from the text of a box of class
    "text", any other record from the grid of a box of class "table".
    It carries the number of that page and the source, and its section
    is none or the text of a box of class "section-header" of that same
    page.  Boxes of other classes, section headers included, yield no
    record. *)
Theorem X17_page_record_provenance :
  forall pages src rs r,
    extract_from_pages pages src = Ok rs -> In r rs ->
    exists p, In p pages /\ from_box src p r.
Proof.
  intros pages src rs r H Hr.
  apply extract_from_pages_from in H as [H _].
  exact (proj1 (Forall_forall _ _) H r Hr).
Qed.

Lemma X17_page_record_provenance_witness :
  exists rs,
    extract_from_pages
      [{| page_number := 7;
          boxes := [_make_text_box "Revenue" (10 # 1) "section-header";
                    _make_text_box "rose to $9.6 billion" (20 # 1) "text"]
       |}] (L "test.pdf") = Ok rs
    /\ rs <> []
    /\ forall r,
        In r rs ->
        exists p,
          In p [{| page_number := 7;
                   boxes :=
                     [_make_text_box "Revenue" (10 # 1) "section-header";
                      _make_text_box "rose to $9.6 billion" (20 # 1) "text"]
                |}]
          /\ from_box (L "test.pdf") p r.
Proof.
  eexists. split; [vm_compute; reflexivity|]. split; [discriminate|].
  intros r Hr.
  eapply (X17_page_record_provenance
           [{| page_number := 7;
               boxes := [_make_text_box "Revenue" (10 # 1) "section-header";
                         _make_text_box "rose to $9.6 billion" (20 # 1)
                                        "text"] |}]
           (L "test.pdf"));
    [vm_compute; reflexivity | exact Hr].
Defined.

(** X18: the label and the factor of a record belong together: they
    are none and 1, or the label and the factor of one row of
    [MULTIPLIERS].  This holds for every record of [extract_from_text]
    and of [extract_from_pages], and for those of [extract_from_table]
    when the default scale passed in is such a pair. *)
Theorem X18_label_and_factor_agree :
  (forall text sec pg src rs,
      extract_from_text text sec pg src = Ok rs -> Forall consistent rs)
  /\ (forall lbl f sec pg src rows rs,
         scale_pair lbl f ->
         extract_from_table lbl f sec pg src rows = Ok rs ->
         Forall consistent rs)
  /\ (forall pages src rs,
         extract_from_pages pages src = Ok rs -> Forall consistent rs).
Proof.
  split; [|split].
  - intros text sec pg src rs H. apply Forall_forall. intros r Hr.
    destruct (from_text_fields text sec pg src rs r H Hr)
      as (_ & _ & _ & _ & l & pat & Hl & Hrow).
    right. exists l, pat. auto.
  - intros lbl f sec pg src rows rs Hp H. apply Forall_forall.
    intros r Hr. eapply extract_from_table_consistent; eauto.
  - intros pages src rs H. now apply extract_from_pages_from in H.
Qed.

Lemma X18_label_and_factor_agree_witness :
  exists rs,
    extract_from_table (Some (L "Million")) 1000000 None None None
      (cells [["Item"; "FY2023"]; ["Budget"; "150.5"]]%string) = Ok rs
    /\ scale_pair (Some (L "Million")) 1000000
    /\ Forall consistent rs.
Proof.
  assert (Hp : scale_pair (Some (L "Million")) 1000000).
  { right. exists (L "Million"), (L "millions?|m"). split; [reflexivity|].
    right. left. reflexivity. }
  eexists. split; [vm_compute; reflexivity|]. split; [exact Hp|].
  apply (proj1 (proj2 X18_label_and_factor_agree)
           (Some (L "Million")) 1000000%Z None None None
           (cells [["Item"; "FY2023"]; ["Budget"; "150.5"]]%string));
    [exact Hp | vm_compute; reflexivity].
Defined.

(** ** When the inline extractor raises *)
Module InlineMore.
Import Re ReSem ReFacts Py PyFacts CharFacts Patterns Accounting Extract
       Invariants NumberFacts FloatFacts ParseFacts ScaleFacts InlineFacts
       OverlapFacts Records.

Lemma digit_or_comma_atom (c : ascii) :
  atom_match true (AOr ADigit (ALit ",")) c = true -> digit_or_comma c = true.
Proof. by_cases c. Qed.

Lemma digit_atom (c : ascii) :
  atom_match true ADigit c = true -> isdecimal c = true.
Proof. by_cases c. Qed.

Lemma point_atom (c : ascii) :
  atom_match true (ALit ".") c = true -> c = "."%char.
Proof. by_cases c. Qed.

(** The words of the number part of the inline patterns. *)
Lemma number_word (w : str) :
  lang true number_part w ->
  exists dc dot fd,
    w = dc ++ dot ++ fd /\ forallb digit_or_comma dc = true /\ dc <> []
    /\ (dot = [] \/ dot = L ".") /\ forallb isdecimal fd = true.
Proof.
  unfold number_part. cbn [lang].
  intros (dc & w2 & -> & (Hdc & Hne) & dot & fd & -> & Hdot & Hfd).
  exists dc, dot, fd. split; [reflexivity|]. split; [|split; [exact Hne|split]].
  - apply (forallb_weaken (atom_match true (AOr ADigit (ALit ","))));
      [apply digit_or_comma_atom | exact Hdc].
  - destruct Hdot as [-> | (c & -> & Hc)]; [now left|].
    apply point_atom in Hc. subst c. now right.
  - apply (forallb_weaken (atom_match true ADigit));
      [apply digit_atom | exact Hfd].
Qed.

Lemma without_commas (w : str) :
  forallb digit_or_comma w = true -> replace "," [] w = digits w.
Proof.
  induction w as [|c w IH]; simpl; [reflexivity|].
  rewrite andb_true_iff. intros [Hc Hw]. rewrite (IH Hw).
  unfold digit_or_comma in Hc. destruct (isdecimal c) eqn:Ed.
  - destruct (digit_not_punct c Ed) as (_ & _ & E3 & _). now rewrite E3.
  - change (ascii_eqb "," c = true) in Hc.
    apply ascii_eqb_true in Hc. subst c. reflexivity.
Qed.

Lemma number_without_commas (dc dot fd : str) :
  forallb digit_or_comma dc = true -> (dot = [] \/ dot = L ".") ->
  forallb isdecimal fd = true ->
  replace "," [] (dc ++ dot ++ fd) = digits dc ++ dot ++ fd.
Proof.
  intros Hdc Hdot Hfd. rewrite !replace_app, (without_commas dc Hdc).
  rewrite (replace_absent "," [] dot)
    by (destruct Hdot as [-> | ->]; reflexivity).
  rewrite (replace_absent "," [] fd); [reflexivity|].
  now apply (forallb_contains isdecimal).
Qed.

Lemma all_digits_none (fd : str) :
  forallb isdecimal fd = true -> existsb isdecimal fd = false -> fd = [].
Proof.
  destruct fd as [|c fd]; [reflexivity|]. simpl.
  rewrite andb_true_iff, orb_false_iff. intros [-> _] [H _]. discriminate.
Qed.

(** The conversion of a number word succeeds exactly when the word
    holds a digit. *)
Lemma number_word_float (w : str) :
  lang true number_part w ->
  (existsb isdecimal w = true ->
   exists v, Float.of_str (replace "," [] w) = Ok v)
  /\ (existsb isdecimal w = false ->
      Float.of_str (replace "," [] w) = Raise ValueError).
Proof.
  intro Hl.
  destruct (number_word w Hl) as (dc & dot & fd & -> & Hdc & _ & Hdot & Hfd).
  rewrite (number_without_commas dc dot fd Hdc Hdot Hfd).
  assert (Hdotd : existsb isdecimal dot = false)
    by (destruct Hdot as [-> | ->]; reflexivity).
  rewrite !existsb_app, Hdotd. simpl. split.
  - intro H. eexists. apply of_str_decimal; auto.
    + apply digits_are_digits.
    + intro E. apply app_eq_nil in E as [E1 E2]. subst fd.
      simpl in H. rewrite orb_false_r in H.
      apply digit_present in H. contradiction.
  - intro H. apply orb_false_iff in H as [H1 H2].
    rewrite (ParseMore.no_digit dc H1), (all_digits_none fd Hfd H2).
    destruct Hdot as [-> | ->]; reflexivity.
Qed.

Lemma of_str_raises (s : str) e : Float.of_str s = Raise e -> e = ValueError.
Proof.
  unfold Float.of_str.
  destruct (Float.drop_underscores None (Float.trim s)) as [t|];
    [|congruence].
  destruct (Float.take_sign t) as [neg body].
  destruct (str_eqb _ _ || str_eqb _ _); [discriminate|].
  destruct (str_eqb _ _); [discriminate|].
  destruct (Float.span_digits body) as [ip r1].
  destruct (match r1 with
            | [] => ([], r1)
            | c :: t' =>
                if ascii_eqb c "." then Float.span_digits t' else ([], r1)
            end) as [fp r2].
  destruct (ip ++ fp); [congruence|].
  destruct (Float.parse_exponent r2); [discriminate | congruence].
Qed.

Lemma row_factor_float (pat l : str) (f : Z) :
  In (pat, l, f) MULTIPLIERS -> exists x, Float.of_int f = Ok x.
Proof.
  unfold MULTIPLIERS. simpl.
  intros [E | [E | [E | [E | []]]]]; inversion E; subst;
    eexists; vm_compute; reflexivity.
Qed.

(** What a match whose number part is a number word yields. *)
Lemma inline_record_outcome (text : str) (m : mobj) :
  lang true number_part (group m 1) -> resolves m ->
  (existsb isdecimal (group m 1) = true ->
   exists r, inline_record text m = Ok (Some r))
  /\ (existsb isdecimal (group m 1) = false ->
      inline_record text m = Raise ValueError).
Proof.
  intros Hl (l & f & E). unfold inline_record. rewrite E.
  destruct (number_word_float (group m 1) Hl) as [Hok Hno].
  split; intro Hd.
  - destruct (Hok Hd) as (v & ->). cbn [bind].
    destruct (resolve_multiplier_row _ l f E) as (pat & Hrow).
    destruct (row_factor_float pat l f Hrow) as (x & Hx).
    unfold _make_result, Float.mul_int. rewrite Hx. cbn [bind]. eauto.
  - rewrite (Hno Hd). reflexivity.
Qed.

Lemma inline_record_raises (text : str) (m : mobj) e :
  inline_record text m = Raise e -> e = ValueError.
Proof.
  unfold inline_record.
  destruct (resolve_multiplier (group m 2)) as [[l f]|] eqn:E;
    [|discriminate].
  destruct (Float.of_str (replace "," [] (group m 1))) as [v|e'] eqn:Ev.
  - cbn [bind].
    destruct (resolve_multiplier_row _ l f E) as (pat & Hrow).
    destruct (row_factor_float pat l f Hrow) as (x & Hx).
    unfold _make_result, Float.mul_int. rewrite Hx. cbn [bind].
    discriminate.
  - cbn [bind]. intro H. inversion H; subst. eapply of_str_raises; eauto.
Qed.

(** *** The number part of a match *)

Lemma sem_plain_caps (ic : bool) (r : regex) :
  plain r = true ->
  forall st st', sem ic r st st' -> caps st' = caps st.
Proof.
  induction r as [|a|a|a|a|r1 IH1 r2 IH2|r1 IH1 r2 IH2|n r1 IH1| | | |];
    intros Hp st st' H; simpl in Hp; try discriminate; simpl in H.
  - now subst.
  - destruct H as (c & t & _ & _ & ->). reflexivity.
  - destruct H as [-> | (c & t & _ & _ & ->)]; reflexivity.
  - destruct H as (w & t & _ & _ & ->). reflexivity.
  - destruct H as (w & t & _ & _ & _ & ->). reflexivity.
  - apply andb_true_iff in Hp as [Hp1 Hp2].
    destruct H as (st1 & H1 & H2).
    rewrite (IH2 Hp2 _ _ H2). now apply IH1.
  - apply andb_true_iff in Hp as [Hp1 Hp2].
    destruct H as [H | H]; [now apply IH1 | now apply IH2].
Qed.

Lemma number_part_plain : plain number_part = true.
Proof. reflexivity. Qed.

Lemma scale_words_plain : plain scale_words = true.
Proof. vm_compute. reflexivity. Qed.

(** Group 1 of a match whose captures are those of the scale word and
    of the number part is the word of the number part. *)
Lemma group1_word (text : str) (st sa st' : mstate) (start : nat) k :
  within text st -> sem true number_part st sa ->
  caps st' = (2, k) :: (1, (pos st, pos sa)) :: caps sa ->
  lang true number_part (group (mk_mobj text start st') 1).
Proof.
  intros Hw Hs Hc.
  apply sem_lang in Hs as (w & Er & Ep & _ & Hl).
  unfold group, span, mk_mobj. cbn [m_caps m_subject]. rewrite Hc.
  cbn [find fst snd Nat.eqb option_map].
  now rewrite (slice_within text st sa w Hw Er Ep).
Qed.

Lemma dollar_group1 (text : str) (m : mobj) :
  In m (dollar_matches text) -> lang true number_part (group m 1).
Proof.
  intro H. apply finditer_sound in H as (st0 & st' & Hw & _ & _ & Hs & ->).
  change (p_icase INLINE_DOLLAR_PATTERN) with true in Hs.
  rewrite dollar_re in Hs. cbn [sem] in Hs.
  destruct Hs as (s1 & H1 & s2 & H2 & s3 & (sa & Hn & ->) & s4 & H4 & s5
                  & (sb & Hb & ->) & _ & ->).
  assert (Hw2 : within text s2).
  { apply (sem_within true (RStar ASpace) text s1 s2); [|exact H2].
    apply (sem_within true (RAtom (ALit "$")) text st0 s1); assumption. }
  apply (group1_word text s2 sa _ _ (pos s4, pos sb) Hw2 Hn).
  cbn [close caps].
  rewrite (sem_plain_caps true scale_words scale_words_plain _ _ Hb).
  rewrite (sem_plain_caps true (RStar ASpace) eq_refl _ _ H4).
  reflexivity.
Qed.

Lemma bare_group1 (text : str) (m : mobj) :
  In m (bare_matches text) -> lang true number_part (group m 1).
Proof.
  intro H. apply finditer_sound in H as (st0 & st' & Hw & _ & _ & Hs & ->).
  change (p_icase INLINE_BARE_PATTERN) with true in Hs.
  rewrite bare_re in Hs. cbn [sem] in Hs.
  destruct Hs as (s3 & (sa & Hn & ->) & s4 & H4 & s5
                  & (sb & Hb & ->) & _ & ->).
  apply (group1_word text st0 sa _ _ (pos s4, pos sb) Hw Hn).
  cbn [close caps].
  rewrite (sem_plain_caps true scale_words scale_words_plain _ _ Hb).
  rewrite (sem_plain_caps true (RPlus ASpace) eq_refl _ _ H4).
  reflexivity.
Qed.

Lemma dollar_resolves (text : str) (m : mobj) :
  In m (dollar_matches text) -> resolves m.
Proof.
  intro H.
  exact (inline_scale_resolves INLINE_DOLLAR_PATTERN text m eq_refl
           dollar_ends H).
Qed.

Lemma bare_resolves (text : str) (m : mobj) :
  In m (bare_matches text) -> resolves m.
Proof.
  intro H.
  exact (inline_scale_resolves INLINE_BARE_PATTERN text m eq_refl
           bare_ends H).
Qed.

(** *** The two loops *)

Lemma dollar_loop_total (text : str) (ms : list mobj) :
  (forall m, In m ms -> exists r, inline_record text m = Ok (Some r)) ->
  forall found spans,
    exists found',
      foldM (dollar_step text) (found, spans) ms
      = Ok (found', spans ++ map span_of ms).
Proof.
  induction ms as [|m ms IH]; intros Hall found spans; simpl.
  - exists found. now rewrite app_nil_r.
  - destruct (Hall m (or_introl eq_refl)) as (r & Hr).
    rewrite Hr. cbn [bind].
    destruct (IH (fun m' Hm' => Hall m' (or_intror Hm'))
                 (found ++ [r]) (spans ++ [(m_start m, m_end m)]))
      as (found' & ->).
    exists found'. now rewrite <- app_assoc.
Qed.

Lemma bare_loop_total (text : str) (spans : list (nat * nat))
      (ms : list mobj) :
  (forall m, In m ms -> in_dollar_span spans (m_start m) = false ->
             exists r, inline_record text m = Ok (Some r)) ->
  forall found, exists rs, foldM (bare_step text spans) found ms = Ok rs.
Proof.
  induction ms as [|m ms IH]; intros Hall found; simpl; [eauto|].
  unfold bare_step at 1.
  destruct (in_dollar_span spans (m_start m)) eqn:E; cbn [bind].
  - apply IH. intros m' Hm'. apply Hall. now right.
  - destruct (Hall m (or_introl eq_refl) E) as (r & ->). cbn [bind].
    apply IH. intros m' Hm'. apply Hall. now right.
Qed.

Lemma foldM_raises {S A} (f : S -> A -> result S) (l : list A) e0 :
  (forall s x e, f s x = Raise e -> e = e0) ->
  forall s e, foldM f s l = Raise e -> e = e0.
Proof.
  intro Hf. induction l as [|x l IH]; intros s e; simpl; [discriminate|].
  destruct (f s x) as [s'|e'] eqn:E; cbn [bind].
  - apply IH.
  - intro H. inversion H; subst. eapply Hf; eauto.
Qed.

Lemma inline_numbers_raises (text : str) e :
  extract_inline_numbers text = Raise e -> e = ValueError.
Proof.
  unfold extract_inline_numbers.
  destruct (foldM (dollar_step text) ([], []) _) as [[found spans]|e'] eqn:E;
    cbn [bind].
  - apply foldM_raises. intros s m e1. unfold bare_step.
    destruct (in_dollar_span spans (m_start m)); [discriminate|].
    destruct (inline_record text m) as [[r|]|e2] eqn:Er; cbn [bind];
      try discriminate.
    intro H. inversion H; subst. eapply inline_record_raises; eauto.
  - intro H. inversion H; subst. revert E. apply foldM_raises.
    intros [fd sp] m e1. unfold dollar_step.
    destruct (inline_record text m) as [[r|]|e2] eqn:Er; cbn [bind];
      try discriminate.
    intro H'. inversion H'; subst. eapply inline_record_raises; eauto.
Qed.

Lemma counted_number (text : str) (m : mobj) :
  counted text m -> lang true number_part (group m 1) /\ resolves m.
Proof.
  intros [H | H].
  - split; [now apply (dollar_group1 text) | now apply (dollar_resolves text)].
  - apply filter_In in H as [H _].
    split; [now apply (bare_group1 text) | now apply (bare_resolves text)].
Qed.

Lemma inline_numbers_total (text : str) :
  (forall m, counted text m -> existsb isdecimal (group m 1) = true) ->
  exists rs, extract_inline_numbers text = Ok rs.
Proof.
  intro Hall.
  assert (Hrec : forall m, counted text m ->
                           exists r, inline_record text m = Ok (Some r)).
  { intros m Hm. destruct (counted_number text m Hm) as [Hl Hres].
    apply (proj1 (inline_record_outcome text m Hl Hres)). now apply Hall. }
  unfold extract_inline_numbers.
  destruct (dollar_loop_total text (finditer INLINE_DOLLAR_PATTERN text)
              (fun m Hm => Hrec m (or_introl Hm)) [] [])
    as (found & ->). cbn [bind app].
  apply bare_loop_total. intros m Hm Hs. apply Hrec. right.
  unfold kept_bare. apply filter_In. split; [exact Hm|].
  apply negb_true_iff. exact Hs.
Qed.

Lemma inline_numbers_digits (text : str) rs :
  extract_inline_numbers text = Ok rs ->
  forall m, counted text m -> existsb isdecimal (group m 1) = true.
Proof.
  intros H m Hm.
  destruct (counted_number text m Hm) as [Hl Hres].
  destruct (existsb isdecimal (group m 1)) eqn:Ed; [reflexivity|].
  pose proof (proj2 (inline_record_outcome text m Hl Hres) Ed) as Hraise.
  apply inline_records in H as (ds & bs & _ & Hd & Hb).
  assert (Hex : exists r, record_of text m r).
  { destruct Hm as [Hm | Hm].
    - clear Hb. induction Hd as [|x y l l' Hxy _ IH]; [contradiction|].
      destruct Hm as [<- | Hm]; [eauto | auto].
    - clear Hd. induction Hb as [|x y l l' Hxy _ IH]; [contradiction|].
      destruct Hm as [<- | Hm]; [eauto | auto]. }
  destruct Hex as (r & Hr). unfold record_of in Hr. congruence.
Qed.

(** A number word without a comma holds a digit. *)
Lemma number_word_digit (w : str) :
  lang true number_part w -> contains "," w = false ->
  existsb isdecimal w = true.
Proof.
  intros Hl Hc.
  destruct (number_word w Hl) as (dc & dot & fd & -> & Hdc & Hne & _).
  destruct dc as [|c dc]; [congruence|]. simpl in *.
  apply andb_true_iff in Hdc as [Hd _].
  apply orb_false_iff in Hc as [Hc _].
  unfold digit_or_comma in Hd. destruct (isdecimal c); [reflexivity|].
  simpl in Hd. change (ascii_eqb "," c = true) in Hd.
  apply ascii_eqb_true in Hd. subst c. discriminate.
Qed.

Lemma contains_slice (c : ascii) (s : str) (i j : nat) :
  contains c s = false -> contains c (slice s i j) = false.
Proof.
  intro H. destruct (contains c (slice s i j)) eqn:E; [|reflexivity].
  apply contains_In in E. unfold slice in E.
  assert (Hin : In c s).
  { rewrite <- (firstn_skipn i s). apply in_or_app. right.
    rewrite <- (firstn_skipn (j - i) (skipn i s)).
    apply in_or_app. now left. }
  apply contains_In in Hin. congruence.
Qed.

Lemma contains_group (c : ascii) (text : str) (m : mobj) (n : nat) :
  m_subject m = text -> contains c text = false ->
  contains c (group m n) = false.
Proof.
  intros <- H. unfold group.
  destruct (span m n) as [[i j]|]; [now apply contains_slice | reflexivity].
Qed.

Lemma finditer_subject (p : pattern) (text : str) (m : mobj) :
  In m (finditer p text) -> m_subject m = text.
Proof.
  intro H. apply finditer_sound in H as (st0 & st' & _ & _ & _ & _ & ->).
  reflexivity.
Qed.

Lemma counted_subject (text : str) (m : mobj) :
  counted text m -> m_subject m = text.
Proof.
  intros [H | H]; [|apply filter_In in H as [H _]];
    eapply finditer_subject; eauto.
Qed.

End InlineMore.

(** X19: [extract_inline_numbers] returns exactly when the number part
    of every counted match of the text, dollar-prefixed or bare-worded
    and let through by the overlap check, holds a digit; the only
    exception it raises is [ValueError].  So it returns on every text
    without a comma, and so does [extract_from_text]. *)
Theorem X19_inline_extractor_returns_iff_digits :
  forall text,
    ((exists rs, extract_inline_numbers text = Ok rs) <->
     (forall m,
         In m (dollar_matches text) \/ In m (kept_bare text) ->
         existsb Py.isdecimal (Re.group m 1) = true))
    /\ (forall e, extract_inline_numbers text = Raise e -> e = ValueError)
    /\ (Py.contains "," text = false ->
        (exists rs, extract_inline_numbers text = Ok rs)
        /\ forall sec pg src,
            exists rs, extract_from_text text sec pg src = Ok rs).
Proof.
  intro text. split; [split|split].
  - intros (rs & H). exact (InlineMore.inline_numbers_digits text rs H).
  - apply InlineMore.inline_numbers_total.
  - apply InlineMore.inline_numbers_raises.
  - intro Hc.
    assert (H : exists rs, extract_inline_numbers text = Ok rs).
    { apply InlineMore.inline_numbers_total. intros m Hm.
      apply InlineMore.number_word_digit.
      - now apply (InlineMore.counted_number text).
      - apply (InlineMore.contains_group "," text); [|exact Hc].
        now apply InlineMore.counted_subject. }
    split; [exact H|]. intros sec pg src. destruct H as (rs & H).
    unfold extract_from_text. rewrite H. cbn [bind].
    rewrite foldM_append_map. eauto.
Qed.

Lemma X19_inline_extractor_returns_iff_digits_witness :
  Py.contains "," (L "rose to $9.6 billion or 3 m") = false
  /\ (exists rs,
         extract_inline_numbers (L "rose to $9.6 billion or 3 m") = Ok rs)
  /\ forall sec pg src,
      exists rs,
        extract_from_text (L "rose to $9.6 billion or 3 m") sec pg src
        = Ok rs.
Proof.
  split; [reflexivity|].
  apply (proj2 (proj2 (X19_inline_extractor_returns_iff_digits
                         (L "rose to $9.6 billion or 3 m")))).
  reflexivity.
Defined.

(** ** Pages, sections and tables without numbers *)
Module WalkFacts.
Import Py PyFacts Patterns Extract Invariants PageFacts GridFacts FieldFacts
       Records.

Lemma pages_from (source : str) (ps : list page_data) :
  forall acc,
    foldM (page_step source) acc ps
    = (r <- foldM (page_step source) [] ps ;; Ok (acc ++ r)).
Proof.
  induction ps as [|p ps IH]; intro acc; simpl.
  - now rewrite app_nil_r.
  - rewrite (page_step_alone source acc p).
    destruct (page_step source [] p) as [r|e]; cbn [bind]; [|reflexivity].
    rewrite (IH (acc ++ r)), (IH r).
    destruct (foldM (page_step source) [] ps) as [x|e]; cbn [bind];
      [|reflexivity].
    now rewrite app_assoc.
Qed.

(** *** Sections *)

Lemma str_eqb_false (a b : str) : str_eqb a b = false <-> a <> b.
Proof.
  split.
  - intros H E. apply str_eqb_true in E. congruence.
  - intro H. destruct (str_eqb a b) eqn:E; [|reflexivity].
    apply str_eqb_true in E. contradiction.
Qed.

Lemma section_after_other (b : box) (s : option str) :
  ~ is_header b -> section_after b s = s.
Proof.
  intro H. unfold section_after.
  now rewrite (proj2 (str_eqb_false _ _) H).
Qed.

Lemma section_after_titled (b : box) (s : option str) :
  is_header b -> titled b -> section_after b s = Some (get_box_text b).
Proof.
  intros Hb Ht. unfold section_after.
  rewrite (proj2 (str_eqb_true _ _) Hb).
  destruct Ht as [-> | Ht]; [reflexivity|].
  destruct (find_header_multiplier (get_box_text b)); [|reflexivity].
  destruct (strip _); [congruence | reflexivity].
Qed.

Lemma section_after_untitled (b : box) (s : option str) :
  is_header b -> ~ titled b -> section_after b s = s.
Proof.
  intros Hb Ht. unfold section_after.
  rewrite (proj2 (str_eqb_true _ _) Hb).
  destruct (find_header_multiplier (get_box_text b)) eqn:E.
  - destruct (strip _) eqn:Es; [reflexivity|].
    exfalso. apply Ht. right. unfold str in *. rewrite Es. discriminate.
  - exfalso. apply Ht. now left.
Qed.

(** What one box adds to the walk. *)
Lemma box_step_adds (pn : Z) (src : str) (w w' : walk) (b : box) :
  box_step pn src w b = Ok w' ->
  section_name w' = section_after b (section_name w)
  /\ exists rs,
      results w' = results w ++ rs
      /\ Forall (stamped (section_name w') (Some pn) (Some src)) rs.
Proof.
  unfold box_step.
  set (sn := section_after b (section_name w)).
  assert (Hskip : forall mp,
             section_name {| mult_positions := mp; section_name := sn;
                             results := results w |} = sn
             /\ exists rs,
                 results w = results w ++ rs
                 /\ Forall (stamped sn (Some pn) (Some src)) rs).
  { intro mp. split; [reflexivity|]. exists []. now rewrite app_nil_r. }
  destruct (str_eqb (boxclass b) (L "text")).
  { intro H. apply bind_Ok_inv in H as (rs & H1 & H).
    inversion H; subst w'. cbn [section_name results].
    split; [reflexivity|]. exists rs. split; [reflexivity|].
    apply Forall_forall. intros r Hr.
    now destruct (from_text_fields _ _ _ _ rs r H1 Hr) as (Hs & _). }
  destruct (str_eqb (boxclass b) (L "table"));
    [|intro H; inversion H; subst w'; apply Hskip].
  destruct (btable b) as [[|row rows]|];
    try (intro H; inversion H; subst w'; apply Hskip).
  set (grid := row :: rows).
  assert (Hext : forall lbl f,
             (r <- extract_from_table lbl f sn (Some pn) (Some src) grid ;;
              Ok {| mult_positions := mult_positions w;
                    section_name := sn;
                    results := results w ++ r |}) = Ok w' ->
             section_name w' = sn
             /\ exists rs,
                 results w' = results w ++ rs
                 /\ Forall (stamped (section_name w') (Some pn) (Some src))
                           rs).
  { intros lbl f H. apply bind_Ok_inv in H as (rs & H1 & H).
    inversion H; subst w'. cbn [section_name results].
    split; [reflexivity|]. exists rs. split; [reflexivity|].
    apply Forall_forall. intros r Hr.
    now destruct (extract_from_table_fields _ _ _ _ _ _ rs r H1 Hr)
      as (hs & _ & Hs & _). }
  destruct (find_header_multiplier (join (L " ") (truthy_cells grid)))
    as [[l g]|].
  - destruct (existsb _ (truthy_cells grid)); [apply Hext|].
    intro H. inversion H; subst w'. apply Hskip.
  - destruct (mult_for_y (mult_positions w) (y0 b)) as [[l g]|];
      apply Hext.
Qed.

Lemma walk_section (pn : Z) (src : str) (bs : list box) :
  Forall (fun b => ~ is_header b) bs ->
  forall w w', foldM (box_step pn src) w bs = Ok w' ->
               section_name w' = section_name w.
Proof.
  induction 1 as [|b bs Hb _ IH]; intros w w' H; simpl in H.
  - now inversion H.
  - apply bind_Ok_inv in H as (w1 & H1 & H).
    rewrite (IH _ _ H).
    rewrite (proj1 (box_step_adds pn src w w1 b H1)).
    now apply section_after_other.
Qed.

(** *** Tables without a number *)

Lemma existsb_flat_map {A B} (g : B -> bool) (h : A -> list B) (l : list A) :
  existsb g (flat_map h l) = existsb (fun x => existsb g (h x)) l.
Proof.
  induction l as [|x l IH]; simpl; [reflexivity|].
  now rewrite existsb_app, IH.
Qed.

(** The test for data of [extract_from_pages] is that of
    [resolve_column_headers], on all rows. *)
Lemma has_data_rows (rows : grid) :
  has_data rows = existsb (existsb cell_is_number) rows.
Proof.
  unfold has_data, truthy_cells. rewrite existsb_flat_map.
  induction rows as [|row rows IH]; simpl; [reflexivity|].
  rewrite IH. f_equal. rewrite existsb_flat_map.
  induction row as [|cell row IHr]; simpl; [reflexivity|].
  rewrite IHr. f_equal. unfold cell_is_number.
  destruct (truthy cell); simpl; [now rewrite orb_false_r | reflexivity].
Qed.

Lemma no_data_rows (rows : grid) :
  has_data rows = false -> Forall no_number rows.
Proof.
  rewrite has_data_rows. intro H. apply Forall_forall. intros row Hr.
  unfold no_number. destruct (existsb cell_is_number row) eqn:E;
    [|reflexivity].
  assert (Hex : existsb (existsb cell_is_number) rows = true)
    by (apply existsb_exists; eauto).
  congruence.
Qed.

Lemma no_number_no_records lbl f sec pg src (rows : grid) :
  Forall no_number rows ->
  extract_from_table lbl f sec pg src rows = Ok [].
Proof.
  intro H. unfold extract_from_table.
  destruct (resolve_column_headers_cases rows)
    as [(-> & _) | (d & Hd & _)]; [reflexivity|].
  apply (first_data_row_none rows 0) in H.
  unfold enumerate in Hd. congruence.
Qed.

End WalkFacts.

Import WalkFacts.

(** X20: the pages of a document are extracted one by one and
    independently: the records of a list of pages followed by another
    are the records of the first list followed by those of the second,
    and an exception of either is an exception of the whole. *)
Theorem X20_pages_extracted_independently :
  forall ps1 ps2 src,
    extract_from_pages (ps1 ++ ps2) src
    = (r1 <- extract_from_pages ps1 src ;;
       r2 <- extract_from_pages ps2 src ;;
       Ok (r1 ++ r2)).
Proof.
  intros ps1 ps2 src. unfold extract_from_pages. rewrite foldM_app.
  destruct (foldM (page_step src) [] ps1) as [r1|e]; cbn [bind];
    [apply pages_from | reflexivity].
Qed.

(** X21: every record that a box adds carries the section that is
    current once the box itself has been looked at, with the number of
    the page and the source.  After a section header that names a
    section, one that declares no scale or has text besides its
    declaration, and any boxes that are not section headers, the
    current section is the text of that header; a section header that
    is only a scale declaration leaves the section as it was. *)
Theorem X21_section_of_last_titled_header :
  (forall pn src w b w',
      box_step pn src w b = Ok w' ->
      section_name w' = section_after b (section_name w)
      /\ exists rs,
          results w' = results w ++ rs
          /\ Forall (stamped (section_name w') (Some pn) (Some src)) rs)
  /\ (forall pn src w h mid w1 w',
         is_header h -> Forall (fun b => ~ is_header b) mid ->
         box_step pn src w h = Ok w1 ->
         foldM (box_step pn src) w1 mid = Ok w' ->
         (titled h -> section_name w' = Some (get_box_text h))
         /\ (~ titled h -> section_name w' = section_name w)).
Proof.
  split; [intros pn src w b w'; apply box_step_adds|].
  intros pn src w h mid w1 w' Hh Hmid H1 H.
  rewrite (walk_section pn src mid Hmid w1 w' H).
  rewrite (proj1 (box_step_adds pn src w w1 h H1)).
  split; intro Ht.
  - now apply section_after_titled.
  - now apply section_after_untitled.
Qed.

Lemma X21_section_of_last_titled_header_witness :
  (exists w1 w',
      box_step 1 (L "test.pdf") (page_start [] [])
        (_make_text_box "Revenue (Dollars in Millions)" (10 # 1)
                        "section-header") = Ok w1
      /\ foldM (box_step 1 (L "test.pdf")) w1
           [_make_text_box "rose to $9.6 billion" (20 # 1) "text"] = Ok w'
      /\ section_name w' = Some (L "Revenue (Dollars in Millions)"))
  /\ (exists w1 w',
         box_step 1 (L "test.pdf") (page_start [] [])
           (_make_text_box "(Dollars in Millions)" (10 # 1)
                           "section-header") = Ok w1
         /\ foldM (box_step 1 (L "test.pdf")) w1
              [_make_text_box "rose to $9.6 billion" (20 # 1) "text"]
            = Ok w'
         /\ section_name w' = None).
Proof.
  split.
  - eexists. eexists. split; [vm_compute; reflexivity|].
    split; [vm_compute; reflexivity|].
    apply (proj1 (proj2 X21_section_of_last_titled_header
                    1%Z (L "test.pdf") (page_start [] [])
                    (_make_text_box "Revenue (Dollars in Millions)" (10 # 1)
                                    "section-header")
                    [_make_text_box "rose to $9.6 billion" (20 # 1) "text"]
                    _ _ eq_refl
                    ltac:(repeat constructor; discriminate)
                    ltac:(vm_compute; reflexivity)
                    ltac:(vm_compute; reflexivity))).
    right. vm_compute. discriminate.
  - eexists. eexists. split; [vm_compute; reflexivity|].
    split; [vm_compute; reflexivity|].
    apply (proj2 (proj2 X21_section_of_last_titled_header
                    1%Z (L "test.pdf") (page_start [] [])
                    (_make_text_box "(Dollars in Millions)" (10 # 1)
                                    "section-header")
                    [_make_text_box "rose to $9.6 billion" (20 # 1) "text"]
                    _ _ eq_refl
                    ltac:(repeat constructor; discriminate)
                    ltac:(vm_compute; reflexivity)
                    ltac:(vm_compute; reflexivity))).
    intros [H | H]; [vm_compute in H; discriminate|].
    apply H. vm_compute. reflexivity.
Defined.

(** X22: a table box none of whose cells holds a number adds no record
    and leaves the section as it was, whatever its cells say: the
    inline numbers of its cells are not extracted. *)
Theorem X22_table_without_number_adds_nothing :
  forall pn src w b rows,
    boxclass b = L "table" -> btable b = Some rows ->
    has_data rows = false ->
    exists w',
      box_step pn src w b = Ok w'
      /\ results w' = results w /\ section_name w' = section_name w.
Proof.
  intros pn src w b rows Hbc Hbt Hd. unfold box_step.
  rewrite (section_after_table b _ Hbc), Hbc, Hbt.
  change (str_eqb (L "table") (L "text")) with false.
  change (str_eqb (L "table") (L "table")) with true.
  destruct rows as [|row rows]; [eexists; split; [reflexivity|]; auto|].
  cbv beta iota zeta.
  fold (table_text (row :: rows)). fold (has_data (row :: rows)).
  rewrite Hd.
  destruct (find_header_multiplier (table_text (row :: rows)))
    as [[l g]|]; [eexists; split; [reflexivity|]; auto|].
  destruct (mult_for_y (mult_positions w) (y0 b)) as [[l g]|];
    rewrite (no_number_no_records _ _ _ _ _ _ (no_data_rows _ Hd));
    cbn [bind]; eexists; (split; [reflexivity|]); cbn [results section_name];
    rewrite app_nil_r; auto.
Qed.

Lemma X22_table_without_number_adds_nothing_witness :
  exists w',
    box_step 1 (L "test.pdf") (page_start [] [])
      (_make_table_box [["Note"; "grew to $5 million"]]%string (10 # 1))
    = Ok w'
    /\ results w' = [] /\ section_name w' = None.
Proof.
  apply (X22_table_without_number_adds_nothing 1%Z (L "test.pdf")
           (page_start [] [])
           (_make_table_box [["Note"; "grew to $5 million"]]%string (10 # 1))
           (cells [["Note"; "grew to $5 million"]]%string));
    vm_compute; reflexivity.
Defined.

(** ** The summary of main *)
Module MainFacts.
Import Extract Invariants Main.

Lemma SFcompare_lt_trans (a b c : spec_float) :
  SFcompare a b = Some Lt -> SFcompare b c = Some Lt ->
  SFcompare a c = Some Lt.
Proof.
  destruct a as [sa|sa| |sa ma ea], b as [sb|sb| |sb mb eb],
           c as [sc|sc| |sc mc ec]; simpl; try discriminate;
    repeat match goal with s : bool |- _ => destruct s end;
    simpl; try discriminate; try reflexivity;
    change (PosDef.Pos.compare_cont Eq) with Pos.compare;
    destruct (Z.compare_spec ea eb), (Z.compare_spec eb ec),
             (Z.compare_spec ea ec);
    try lia; try discriminate; try reflexivity;
    destruct (Pos.compare_spec ma mb), (Pos.compare_spec mb mc),
             (Pos.compare_spec ma mc);
    simpl; try discriminate; try reflexivity; lia.
Qed.

Lemma SFcompare_irrefl (a : spec_float) : SFcompare a a <> Some Lt.
Proof.
  destruct a as [s|s| |s m e]; simpl; try discriminate;
    destruct s; try discriminate;
    change (PosDef.Pos.compare_cont Eq) with Pos.compare;
    rewrite Z.compare_refl, Pos.compare_refl; discriminate.
Qed.

Lemma SFltb_trans (a b c : spec_float) :
  SFltb a b = true -> SFltb b c = true -> SFltb a c = true.
Proof.
  unfold SFltb.
  destruct (SFcompare a b) as [[]|] eqn:E1; try discriminate.
  destruct (SFcompare b c) as [[]|] eqn:E2; try discriminate.
  now rewrite (SFcompare_lt_trans a b c E1 E2).
Qed.

Lemma SFltb_irrefl (a : spec_float) : SFltb a a = false.
Proof.
  unfold SFltb. pose proof (SFcompare_irrefl a) as H.
  destruct (SFcompare a a) as [[]|]; congruence.
Qed.

(** The loop of [max]: the best item so far is an item seen, and no
    item seen has a greater key. *)
Lemma max_loop (key : ExtractedNumber -> Float.float)
      (rest : list ExtractedNumber) :
  forall best seen,
    In best seen ->
    (forall y, In y seen -> fgt (key y) (key best) = false) ->
    let r := fold_left (fun best y =>
                          if fgt (key y) (key best) then y else best)
                       rest best in
    In r (seen ++ rest)
    /\ forall y, In y (seen ++ rest) -> fgt (key y) (key r) = false.
Proof.
  induction rest as [|y0 rest IH]; intros best seen Hin Hmax; simpl.
  - rewrite app_nil_r. auto.
  - replace (seen ++ y0 :: rest) with ((seen ++ [y0]) ++ rest)
      by now rewrite <- app_assoc.
    apply IH.
    + destruct (fgt (key y0) (key best)); apply in_or_app;
        [right; now left | now left].
    + intros y Hy. apply in_app_or in Hy as [Hy | [<- | []]].
      * destruct (fgt (key y0) (key best)) eqn:E; [|now apply Hmax].
        destruct (fgt (key y) (key y0)) eqn:E2; [|reflexivity].
        unfold fgt in *.
        rewrite <- (Hmax y Hy). symmetry.
        now apply (SFltb_trans _ (key y0)).
      * destruct (fgt (key y0) (key best)) eqn:E; [|exact E].
        apply SFltb_irrefl.
Qed.

Lemma max_by_spec (key : ExtractedNumber -> Float.float)
      (items : list ExtractedNumber) :
  items <> [] ->
  exists r, max_by key items = Ok r /\ In r items
            /\ forall y, In y items -> fgt (key y) (key r) = false.
Proof.
  destruct items as [|x rest]; [congruence|]. intros _.
  eexists. split; [reflexivity|].
  apply (max_loop key rest x [x]); [now left|].
  intros y [<- | []]. apply SFltb_irrefl.
Qed.

Lemma no_warnings (rs : list ExtractedNumber) :
  Forall well_scaled rs -> warnings rs = [].
Proof.
  unfold warnings. induction 1 as [|r rs [_ Hr] _ IH]; [reflexivity|].
  simpl. unfold no_multiplier at 1.
  destruct (Z.eqb_spec (multiplier r) 0); [lia | exact IH].
Qed.

End MainFacts.

Import Main.

(** X23: the warning of [main] for a record without a multiplier is
    never printed for the records of [extract_from_pages]: the factor
    of a record without a scale is 1, not 0 or missing. *)
Theorem X23_no_warning_for_extracted_records :
  forall pages src rs,
    extract_from_pages pages src = Ok rs -> warnings rs = [].
Proof.
  intros pages src rs H. apply MainFacts.no_warnings.
  eapply RecordFacts.extract_from_pages_scaled; eauto.
Qed.

Lemma X23_no_warning_for_extracted_records_witness :
  exists rs,
    extract_from_pages
      [{| page_number := 1;
          boxes := [_make_table_box
                      [["Item"; "FY2023"]; ["Headcount"; "150"]]%string
                      (50 # 1)] |}] (L "test.pdf") = Ok rs
    /\ rs <> [] /\ warnings rs = [].
Proof.
  eexists. split; [vm_compute; reflexivity|]. split; [discriminate|].
  eapply (X23_no_warning_for_extracted_records
            [{| page_number := 1;
                boxes := [_make_table_box
                            [["Item"; "FY2023"]; ["Headcount"; "150"]]%string
                            (50 # 1)] |}] (L "test.pdf")).
  vm_compute. reflexivity.
Defined.

(** X24: the [max] of [main] raises [ValueError] exactly on an empty
    list; on any other list it returns a record of the list, and the
    key of no record of the list is greater than the key of that
    record. *)
Theorem X24_max_by_is_maximal :
  forall key items,
    (max_by key items = Raise ValueError <-> items = [])
    /\ (items <> [] ->
        exists r,
          max_by key items = Ok r /\ In r items
          /\ forall y, In y items -> fgt (key y) (key r) = false).
Proof.
  intros key items. split; [|apply MainFacts.max_by_spec].
  destruct items; split; try reflexivity; discriminate.
Qed.

Lemma X24_max_by_is_maximal_witness :
  exists rs,
    extract_inline_numbers (L "from $3 million to $9.6 billion") = Ok rs
    /\ rs <> []
    /\ exists r,
        max_by (fun n => SFabs (adjusted_value n)) rs = Ok r
        /\ In r rs
        /\ forall y,
            In y rs ->
            fgt (SFabs (adjusted_value y)) (SFabs (adjusted_value r))
            = false.
Proof.
  eexists. split; [vm_compute; reflexivity|]. split; [discriminate|].
  apply (proj2 (X24_max_by_is_maximal
                  (fun n => SFabs (adjusted_value n)) _)).
  discriminate.
Defined.

(** X25: [main] gets past its summary exactly when the extraction
    returns at least one record: on a document without a record the
    search for the largest raw value raises [ValueError].  When it gets
    past it, no warning was due, the count is the number of records, the
    largest raw record is one of the records, and there is a largest
    adjusted record. *)
Theorem X25_summary_needs_a_record :
  forall pages src,
    ((exists s, report pages src = Ok s) <->
     (exists rs, extract_from_pages pages src = Ok rs /\ rs <> []))
    /\ (extract_from_pages pages src = Ok [] ->
        report pages src = Raise ValueError)
    /\ (forall s rs,
           report pages src = Ok s ->
           extract_from_pages pages src = Ok rs ->
           warned s = [] /\ count s = List.length rs
           /\ In (largest s) rs
           /\ exists r, largest_adjusted s = Some r /\ In r rs).
Proof.
  intros pages src. unfold report.
  destruct (extract_from_pages pages src) as [rs|e] eqn:E; cbn [bind].
  - destruct rs as [|x rs].
    + split; [split|split].
      * intros (s & H). discriminate.
      * intros (rs & H & Hne). inversion H; subst. congruence.
      * reflexivity.
      * intros s rs H. discriminate.
    + unfold largest_raw, largest_adj.
      destruct (MainFacts.max_by_spec (fun n => SFabs (value n)) (x :: rs))
        as (r1 & -> & Hin1 & _); [discriminate|].
      destruct (MainFacts.max_by_spec (fun n => SFabs (adjusted_value n))
                  (x :: rs)) as (r2 & -> & Hin2 & _); [discriminate|].
      cbn [bind]. split; [split|split].
      * intros _. exists (x :: rs). split; [reflexivity | discriminate].
      * intros _. eauto.
      * discriminate.
      * intros s rs' H H'.
        assert (Hs : s = {| warned := warnings (x :: rs);
                            count := List.length (x :: rs);
                            largest := r1;
                            largest_adjusted := Some r2 |}) by congruence.
        assert (Hrs : rs' = x :: rs) by congruence.
        rewrite Hs, Hrs. clear H H' Hs Hrs.
        cbn [warned count largest largest_adjusted].
        split; [|split; [reflexivity|split; [exact Hin1|eauto]]].
        apply MainFacts.no_warnings.
        eapply RecordFacts.extract_from_pages_scaled; eauto.
  - split; [split|split].
    + intros (s & H). discriminate.
    + intros (rs & H & _). discriminate.
    + discriminate.
    + intros s rs H. discriminate.
Qed.

Lemma X25_summary_needs_a_record_witness :
  report [{| page_number := 1;
             boxes := [_make_text_box "Nothing to report" (10 # 1) "text"]
          |}] (L "test.pdf") = Raise ValueError.
Proof.
  apply (proj1 (proj2 (X25_summary_needs_a_record
                         [{| page_number := 1;
                             boxes := [_make_text_box "Nothing to report"
                                                      (10 # 1) "text"] |}]
                         (L "test.pdf")))).
  vm_compute. reflexivity.
Defined.

(** ** Where a header declares a scale *)
Module HeaderMore.
Import Re ReSem ReFacts Py PyFacts CharFacts Patterns Invariants ScaleFacts
       InlineFacts HeaderFacts Vocabulary VocabularyFacts.

(** Expressions without anchors and boundaries: their words are read
    wherever they stand. *)
Fixpoint unanchored (r : regex) : bool :=
  match r with
  | REmpty | RAtom _ | ROpt _ | RStar _ | RPlus _ => true
  | RSeq r1 r2 | RAlt r1 r2 => unanchored r1 && unanchored r2
  | RGroup _ r1 => unanchored r1
  | _ => false
  end.

Lemma lang_sem_groups (ic : bool) (r : regex) :
  unanchored r = true ->
  forall w st t, lang ic r w -> rest st = w ++ t ->
                 exists st', sem ic r st st' /\ rest st' = t.
Proof.
  induction r as [|a|a|a|a|r1 IH1 r2 IH2|r1 IH1 r2 IH2|n r1 IH1| | | |];
    intros Hu w st t H Er; simpl in Hu; try discriminate; simpl in H; simpl.
  - subst w. exists st. auto.
  - destruct H as (c & -> & Ea). exists (after st [c] t).
    split; [exists c, t; auto | reflexivity].
  - destruct H as [-> | (c & -> & Ea)].
    + exists st. auto.
    + exists (after st [c] t). split; [right; exists c, t; auto | reflexivity].
  - exists (after st w t). split; [exists w, t; auto | reflexivity].
  - destruct H as (Hw & Hne). exists (after st w t).
    split; [exists w, t; auto | reflexivity].
  - apply andb_true_iff in Hu as [Hu1 Hu2].
    destruct H as (w1 & w2 & -> & H1 & H2).
    rewrite <- app_assoc in Er.
    destruct (IH1 Hu1 w1 st (w2 ++ t) H1 Er) as (st1 & Hs1 & Er1).
    destruct (IH2 Hu2 w2 st1 t H2 Er1) as (st2 & Hs2 & Er2).
    exists st2. split; [exists st1; auto | exact Er2].
  - apply andb_true_iff in Hu as [Hu1 Hu2].
    destruct H as [H | H].
    + destruct (IH1 Hu1 w st t H Er) as (st1 & Hs1 & Er1).
      exists st1. auto.
    + destruct (IH2 Hu2 w st t H Er) as (st1 & Hs1 & Er1).
      exists st1. auto.
  - destruct (IH1 Hu w st t H Er) as (st1 & Hs1 & Er1).
    exists (close n st st1). split; [exists st1; auto | exact Er1].
Qed.

Lemma match_at_complete (p : pattern) (s : str) (st st' : mstate) :
  sem (p_icase p) (p_re p)
      {| pos := pos st; prev := prev st; rest := rest st; caps := [] |} st' ->
  match_at p s st <> None.
Proof.
  intro H. unfold match_at.
  destruct (rmatch_complete (p_icase p) mobj (p_re p) _ st'
              (fun st'0 => Some (mk_mobj s (pos st) st'0))
              (mk_mobj s (pos st) st') H eq_refl) as (y & ->).
  discriminate.
Qed.

Lemma search_from_complete (p : pattern) (s : str) (a : str) :
  forall t st,
    rest st = a ++ t -> match_at p s (after st a t) <> None ->
    search_from p s (a ++ t) st <> None.
Proof.
  induction a as [|c a IH]; intros t st Er H.
  - simpl in Er. rewrite (after_nil st t Er) in H. simpl app.
    destruct t; simpl; destruct (match_at p s st); simpl; congruence.
  - simpl app. simpl search_from.
    destruct (match_at p s st); simpl; [discriminate|].
    apply IH; [reflexivity|]. now rewrite after_advance.
Qed.

(** A word of an unanchored pattern is found wherever it stands. *)
Lemma search_complete (p : pattern) (a w b : str) :
  unanchored (p_re p) = true -> lang (p_icase p) (p_re p) w ->
  search p (a ++ w ++ b) <> None.
Proof.
  intros Hu Hl. unfold search.
  apply search_from_complete; [reflexivity|].
  set (st := after (initial (a ++ w ++ b)) a (w ++ b)).
  destruct (lang_sem_groups (p_icase p) (p_re p) Hu w
              {| pos := pos st; prev := prev st; rest := rest st;
                 caps := [] |} b Hl eq_refl) as (st' & Hs & _).
  exact (match_at_complete p _ st st' Hs).
Qed.

(** The pattern reads group 1, of body [body], and then no group. *)
Inductive group1_then (body : regex) : regex -> Prop :=
| g1_here (tail : regex) :
    plain tail = true -> group1_then body (RSeq (RGroup 1 body) tail)
| g1_seq (r1 r2 : regex) :
    group1_then body r2 -> group1_then body (RSeq r1 r2).

Lemma sem_group1 (ic : bool) (body r : regex) (s : str) (start : nat) :
  group1_then body r ->
  forall st st', within s st -> sem ic r st st' ->
                 lang ic body (group (mk_mobj s start st') 1).
Proof.
  induction 1 as [tail Hp|r1 r2 He IH]; intros st st' Hw Hs; simpl in Hs.
  - destruct Hs as (s1 & (sa & Hb & ->) & Ht).
    pose proof (InlineMore.sem_plain_caps ic tail Hp _ _ Ht) as Hc.
    apply sem_lang in Hb as (w & Er & Ep & _ & Hl).
    unfold group, span, mk_mobj. cbn [m_caps m_subject]. rewrite Hc.
    cbn [close caps find fst snd Nat.eqb option_map].
    now rewrite (slice_within s st sa w Hw Er Ep).
  - destruct Hs as (s1 & H1 & H2).
    apply (IH s1 st'); [|exact H2]. eapply sem_within; eauto.
Qed.

(** What the header patterns share. *)
Definition declaring (p : pattern) : Prop :=
  p_icase p = true /\ unanchored (p_re p) = true
  /\ group1_then scale_words (p_re p).

Lemma header_patterns_declaring : Forall declaring HEADER_UNIT_PATTERNS.
Proof.
  unfold HEADER_UNIT_PATTERNS.
  constructor; [|constructor; [|constructor; [|constructor; [|constructor]]]];
    (split; [reflexivity|]; split; [vm_compute; reflexivity|];
     vm_compute;
     repeat first [apply g1_here; reflexivity | apply g1_seq]).
Qed.

Lemma search_resolves (p : pattern) (text : str) (m : mobj) :
  declaring p -> search p text = Some m ->
  exists l f, resolve_multiplier (group m 1) = Some (l, f).
Proof.
  intros (Hic & _ & Hg) H.
  apply (search_from_sound p text m text (initial text) eq_refl
           (within_initial text)) in H.
  destruct H as (st0 & Hw & Hm).
  apply match_at_sem in Hm as (st' & Hs & ->). rewrite Hic in Hs.
  apply scale_word_resolves.
  eapply (sem_group1 true scale_words (p_re p) text (pos st0) Hg);
    [|exact Hs]. exact Hw.
Qed.

Lemma find_in_found (ps : list pattern) (text : str) :
  Forall declaring ps ->
  ((exists l f, find_in ps text = Some (l, f))
   <-> exists p, In p ps /\ search p text <> None).
Proof.
  induction 1 as [|p ps Hp _ IH]; simpl.
  - split; [intros (l & f & H); discriminate | intros (p & [] & _)].
  - destruct (search p text) as [m|] eqn:E.
    + split.
      * intros _. exists p. split; [now left | congruence].
      * intros _. exact (search_resolves p text m Hp E).
    + rewrite IH. split.
      * intros (q & Hq & Hs). exists q. auto.
      * intros (q & [<- | Hq] & Hs); [congruence | eauto].
Qed.

(** The words of the scales, as the patterns spell them. *)
Lemma scale_words_literal : literal scale_words = true.
Proof. vm_compute. reflexivity. Qed.

Lemma scale_words_rows_words :
  words scale_words = flat_map (fun row => fst (fst row)) SCALE_WORDS.
Proof. vm_compute. reflexivity. Qed.

Lemma lookup_word_In (table : list (list str * str * Z)) (x : str) :
  lookup_word table x <> None ->
  In x (flat_map (fun row => fst (fst row)) table).
Proof.
  induction table as [|[[ws l] f] table IH]; simpl; [congruence|].
  destruct (mem_word x ws) eqn:E; intro H; apply in_or_app.
  - left. now apply mem_word_In.
  - right. now apply IH.
Qed.

Lemma scale_word_lang (sw : str) :
  lookup_word SCALE_WORDS (map lower sw) <> None -> lang true scale_words sw.
Proof.
  intro H. apply (lang_words scale_words scale_words_literal).
  rewrite scale_words_rows_words. now apply lookup_word_In.
Qed.

(** The first header pattern, as it compiles. *)
Lemma header_words_re :
  p_re (ReParse.compile (L "\(\w+\s+in\s+(" ++ _mult_alt ++ L ")\)") true)
  = RSeq (RAtom (ALit "("))
      (RSeq (RPlus AWord)
         (RSeq (RPlus ASpace)
            (RSeq (RAtom (ALit "i"))
               (RSeq (RAtom (ALit "n"))
                  (RSeq (RPlus ASpace)
                     (RSeq (RGroup 1 scale_words) (RAtom (ALit ")")))))))).
Proof. vm_compute. reflexivity. Qed.

Lemma words_in_scale (u sw : str) :
  u <> [] -> forallb isword u = true -> lang true scale_words sw ->
  lang true
    (p_re (ReParse.compile (L "\(\w+\s+in\s+(" ++ _mult_alt ++ L ")\)")
                           true))
    (L "(" ++ u ++ L " in " ++ sw ++ L ")").
Proof.
  intros Hne Hu Hsw. rewrite header_words_re. cbn [lang].
  exists (L "("), (u ++ L " in " ++ sw ++ L ")").
  split; [reflexivity|]. split; [exists "("%char; auto|].
  exists u, (L " in " ++ sw ++ L ")").
  split; [reflexivity|]. split; [auto|].
  exists (L " "), (L "in " ++ sw ++ L ")").
  split; [reflexivity|]. split; [split; [reflexivity | discriminate]|].
  exists (L "i"), (L "n " ++ sw ++ L ")").
  split; [reflexivity|]. split; [exists "i"%char; auto|].
  exists (L "n"), (L " " ++ sw ++ L ")").
  split; [reflexivity|]. split; [exists "n"%char; auto|].
  exists (L " "), (sw ++ L ")").
  split; [reflexivity|]. split; [split; [reflexivity | discriminate]|].
  exists sw, (L ")").
  split; [reflexivity|]. split; [exact Hsw|].
  exists ")"%char. auto.
Qed.

End HeaderMore.

(** X26: [find_header_multiplier] finds a scale in a text exactly when
    a word of one of the header patterns stands somewhere in the text.
    So every text that holds a parenthesis of the form (word in scale),
    with a scale word of the table in any case, declares a scale,
    whatever stands around the parenthesis. *)
Theorem X26_header_scale_found_iff_declared :
  (forall text,
      (exists l f, find_header_multiplier text = Some (l, f)) <->
      (exists p a w b,
          In p HEADER_UNIT_PATTERNS /\ text = a ++ w ++ b
          /\ ReSem.lang true (Re.p_re p) w))
  /\ (forall a b u sw,
         u <> [] -> forallb Py.isword u = true ->
         lookup_word SCALE_WORDS (map Py.lower sw) <> None ->
         exists l f,
           find_header_multiplier
             (a ++ (L "(" ++ u ++ L " in " ++ sw ++ L ")") ++ b)
           = Some (l, f)).
Proof.
  assert (Hfound : forall text p a w b,
             In p HEADER_UNIT_PATTERNS -> text = a ++ w ++ b ->
             ReSem.lang true (Re.p_re p) w ->
             exists l f, find_header_multiplier text = Some (l, f)).
  { intros text p a w b Hp -> Hl.
    apply (HeaderMore.find_in_found _ _ HeaderMore.header_patterns_declaring).
    exists p. split; [exact Hp|].
    destruct (proj1 (Forall_forall _ _) HeaderMore.header_patterns_declaring
                    p Hp) as (Hic & Hu & _).
    apply HeaderMore.search_complete; [exact Hu | now rewrite Hic]. }
  split.
  - intro text. split.
    + intro H.
      apply (HeaderMore.find_in_found _ _
               HeaderMore.header_patterns_declaring) in H
        as (p & Hp & Hs).
      destruct (Re.search p text) as [m|] eqn:E; [|congruence].
      destruct (proj1 (Forall_forall _ _)
                      HeaderMore.header_patterns_declaring p Hp)
        as (Hic & _).
      apply HeaderFacts.search_sound in E as (a & w & b & -> & Hl).
      rewrite Hic in Hl. exists p, a, w, b. auto.
    + intros (p & a & w & b & Hp & E & Hl). eapply Hfound; eauto.
  - intros a b u sw Hne Hu Hsw.
    eapply Hfound; [left; reflexivity | reflexivity |].
    apply HeaderMore.words_in_scale; auto.
    now apply HeaderMore.scale_word_lang.
Qed.

Lemma X26_header_scale_found_iff_declared_witness :
  exists l f,
    find_header_multiplier
      (L "Table 3 " ++ (L "(" ++ L "Amounts" ++ L " in " ++ L "THOUSANDS"
                          ++ L ")") ++ L " continued")
    = Some (l, f).
Proof.
  apply (proj2 X26_header_scale_found_iff_declared
           (L "Table 3 ") (L " continued") (L "Amounts") (L "THOUSANDS")).
  - discriminate.
  - reflexivity.
  - vm_compute. discriminate.
Defined.

(** ** Floats that are numbers *)
Module FloatMore.
Import Float.

Definition nonneg (mrs : shr_record) : Prop := (0 <= shr_m mrs)%Z.

Lemma shr_1_nonneg (mrs : shr_record) : nonneg mrs -> nonneg (shr_1 mrs).
Proof.
  destruct mrs as [[|[p|p|]|p] r s]; unfold nonneg; simpl; lia.
Qed.

Lemma iter_pos_invariant {A} (P : A -> Prop) (f : A -> A) :
  (forall x, P x -> P (f x)) ->
  forall n x, P x -> P (iter_pos f n x).
Proof. intro Hf. induction n; simpl; auto. Qed.

Lemma shr_nonneg (mrs : shr_record) (e n : Z) :
  nonneg mrs -> nonneg (fst (shr mrs e n)).
Proof.
  intro H. destruct n; simpl; auto.
  apply iter_pos_invariant; [apply shr_1_nonneg | exact H].
Qed.

Lemma shr_fexp_nonneg (m e : Z) (l : location) :
  (0 <= m)%Z -> nonneg (fst (shr_fexp prec emax m e l)).
Proof.
  intro H. unfold shr_fexp. apply shr_nonneg.
  destruct l as [|[]]; exact H.
Qed.

Lemma round_nonneg (m : Z) (l : location) :
  (0 <= m)%Z -> (0 <= round_nearest_even m l)%Z.
Proof.
  intro H. destruct l as [|[]]; simpl; try lia.
  destruct (Z.even m); lia.
Qed.

(** Rounding a mantissa that is not negative gives a number. *)
Lemma binary_round_aux_number (sx : bool) (mx ex : Z) (lx : location) :
  (0 <= mx)%Z -> binary_round_aux prec emax sx mx ex lx <> S754_nan.
Proof.
  intro H. unfold binary_round_aux.
  pose proof (shr_fexp_nonneg mx ex lx H) as H1.
  destruct (shr_fexp prec emax mx ex lx) as [mrs' e'].
  simpl in H1.
  pose proof (shr_fexp_nonneg
                (round_nearest_even (shr_m mrs') (loc_of_shr_record mrs'))
                e' loc_Exact (round_nonneg _ _ H1)) as H2.
  destruct (shr_fexp prec emax _ e' loc_Exact) as [mrs'' e''].
  simpl in H2. unfold nonneg in H2.
  destruct (shr_m mrs''); [discriminate| |lia].
  destruct (Z.leb e'' (emax - prec)); discriminate.
Qed.

Lemma binary_round_number (sx : bool) (mx : positive) (ex : Z) :
  binary_round prec emax sx mx ex <> S754_nan.
Proof.
  unfold binary_round. destruct (shl_align _ _ _) as [mz ez].
  apply binary_round_aux_number. lia.
Qed.

Lemma SFdiv_number (sx sy : bool) (mx my : positive) (ex ey : Z) :
  SFdiv prec emax (S754_finite sx mx ex) (S754_finite sy my ey) <> S754_nan.
Proof.
  unfold SFdiv, SFdiv_core_binary. cbv zeta.
  set (s := (ex - ey - _)%Z).
  set (m' := match s with
             | 0%Z => Z.pos mx
             | Z.pos _ => Z.shiftl (Z.pos mx) s
             | Z.neg _ => 0%Z
             end).
  assert (Hm : (0 <= m')%Z).
  { unfold m'. destruct s; try lia. apply Z.shiftl_nonneg. lia. }
  destruct (Z.div_eucl m' (Z.pos my)) as [q r] eqn:E.
  apply binary_round_aux_number.
  assert (Hq : q = (m' / Z.pos my)%Z) by (unfold Z.div; now rewrite E).
  rewrite Hq. apply Z.div_pos; lia.
Qed.

(** The float read from decimal digits is a number. *)
Lemma of_decimal_number (neg : bool) (m : N) (e10 : Z) :
  of_decimal neg m e10 <> S754_nan.
Proof.
  unfold of_decimal. destruct m as [|p]; [discriminate|].
  destruct e10; try apply binary_round_number. apply SFdiv_number.
Qed.

Lemma fneg_number (x : float) : x <> S754_nan -> fneg x <> S754_nan.
Proof. destruct x; simpl; congruence. Qed.

(** *** Integers as floats *)

Lemma iter_first {A} (f : A -> A) (n : nat) (x : A) :
  Nat.iter n f (f x) = f (Nat.iter n f x).
Proof. induction n as [|n IH]; simpl; [reflexivity | now rewrite IH]. Qed.

Lemma iter_plus {A} (f : A -> A) (n m : nat) (x : A) :
  Nat.iter (n + m) f x = Nat.iter n f (Nat.iter m f x).
Proof. induction n as [|n IH]; simpl; [reflexivity | now rewrite IH]. Qed.

Lemma iter_pos_nat {A} (f : A -> A) (p : positive) :
  forall x, iter_pos f p x = Nat.iter (Pos.to_nat p) f x.
Proof.
  induction p as [p IH|p IH|]; intro x; simpl iter_pos.
  - rewrite !IH, Pos2Nat.inj_xI. simpl Nat.mul. rewrite Nat.add_0_r.
    rewrite !iter_first. simpl Nat.iter. now rewrite iter_plus.
  - rewrite !IH, Pos2Nat.inj_xO. simpl Nat.mul.
    now rewrite Nat.add_0_r, iter_plus.
  - reflexivity.
Qed.

(** Fewer shifts than digits leave a positive mantissa. *)
Lemma shifts_positive (n : nat) :
  forall mrs q,
    shr_m mrs = Z.pos q -> n < Pos.to_nat (digits2_pos q) ->
    exists q', shr_m (Nat.iter n shr_1 mrs) = Z.pos q'.
Proof.
  induction n as [|n IH]; intros mrs q Hm Hn; [simpl; eauto|].
  simpl Nat.iter. rewrite <- iter_first.
  destruct mrs as [m r s]. simpl in Hm. subst m.
  destruct q as [q|q|]; simpl in Hn.
  - apply (IH _ q); [reflexivity|]. rewrite Pos2Nat.inj_succ in Hn. lia.
  - apply (IH _ q); [reflexivity|]. rewrite Pos2Nat.inj_succ in Hn. lia.
  - change (Pos.to_nat 1) with 1 in Hn. lia.
Qed.

Lemma shr_positive (q : positive) (r s : bool) (e n : Z) :
  (n < Z.pos (digits2_pos q))%Z ->
  exists q', shr_m (fst (shr {| shr_m := Z.pos q; shr_r := r; shr_s := s |}
                             e n)) = Z.pos q'.
Proof.
  intro H. destruct n as [|k|k]; simpl; eauto.
  rewrite iter_pos_nat. apply (shifts_positive _ _ q); [reflexivity|].
  apply Pos2Nat.inj_lt. lia.
Qed.

Lemma shr_fexp_positive (q : positive) (e : Z) :
  (fexp prec emax (Z.pos (digits2_pos q) + e) - e < Z.pos (digits2_pos q))%Z ->
  exists mrs q1,
    shr_fexp prec emax (Z.pos q) e loc_Exact
    = (mrs, Z.max e (fexp prec emax (Z.pos (digits2_pos q) + e)))
    /\ shr_m mrs = Z.pos q1.
Proof.
  intro H. unfold shr_fexp, shr_record_of_loc. simpl Zdigits2.
  set (n := (fexp prec emax (Z.pos (digits2_pos q) + e) - e)%Z) in *.
  destruct (shr_positive q false false e n H) as (q1 & Hq1).
  exists (fst (shr {| shr_m := Z.pos q; shr_r := false; shr_s := false |}
                   e n)), q1.
  split; [|exact Hq1].
  replace (fexp prec emax (Z.pos (digits2_pos q) + e)) with (n + e)%Z
    by (unfold n; lia).
  clearbody n. clear Hq1 H.
  destruct n as [|k|k]; cbn [shr fst]; f_equal; lia.
Qed.

Lemma round_positive (mrs : shr_record) (q : positive) :
  shr_m mrs = Z.pos q ->
  exists q2,
    round_nearest_even (shr_m mrs) (loc_of_shr_record mrs) = Z.pos q2.
Proof.
  intros ->. destruct (loc_of_shr_record mrs) as [|[]];
    unfold round_nearest_even.
  - eauto.
  - destruct (Z.even (Z.pos q)); [eauto | exists (q + 1)%positive; reflexivity].
  - eauto.
  - exists (q + 1)%positive. reflexivity.
Qed.

(** Without underflow, rounding an exact positive mantissa gives a
    float that is finite and not zero, or overflows. *)
Lemma binary_round_aux_positive (sx : bool) (q : positive) (e : Z) :
  (-1074 <= Z.pos (digits2_pos q) + e - 53)%Z ->
  (exists m' e', binary_round_aux prec emax sx (Z.pos q) e loc_Exact
                 = S754_finite sx m' e')
  \/ binary_round_aux prec emax sx (Z.pos q) e loc_Exact = S754_infinity sx.
Proof.
  intro H. unfold binary_round_aux.
  destruct (shr_fexp_positive q e) as (mrs1 & q1 & -> & Hq1).
  { unfold fexp, emin, prec, emax. lia. }
  destruct (round_positive mrs1 q1 Hq1) as (q2 & ->).
  set (e1 := Z.max e (fexp prec emax (Z.pos (digits2_pos q) + e))).
  assert (He1 : (-1074 <= e1)%Z)
    by (unfold e1, fexp, emin, prec, emax; lia).
  destruct (shr_fexp_positive q2 e1) as (mrs2 & q3 & -> & ->).
  { unfold fexp, emin, prec, emax. lia. }
  destruct (Z.leb _ (emax - prec)); [left; eauto | now right].
Qed.

Lemma shl_align_bound (p mz : positive) (ez : Z) :
  shl_align p 0 (fexp prec emax (Z.pos (digits2_pos p) + 0)) = (mz, ez) ->
  (-1074 <= Z.pos (digits2_pos mz) + ez - 53)%Z.
Proof.
  unfold shl_align.
  set (ex' := fexp prec emax (Z.pos (digits2_pos p) + 0)).
  assert (Hex : (ex' = Z.pos (digits2_pos p) - 53)%Z)
    by (unfold ex', fexp, emin, prec, emax; lia).
  destruct (ex' - 0)%Z eqn:Ed; intro E; inversion E; subst mz ez; lia.
Qed.

(** An integer that is not zero converts to a float that is finite and
    not zero, or is out of range. *)
Lemma of_int_finite (z : Z) (x : float) :
  z <> 0%Z -> of_int z = Ok x -> exists s m e, x = S754_finite s m e.
Proof.
  intros Hz. unfold of_int, binary_normalize.
  destruct z as [|p|p]; [congruence| |];
    unfold binary_round;
    destruct (shl_align p 0 (fexp prec emax (Z.pos (digits2_pos p) + 0)))
      as [mz ez] eqn:E;
    pose proof (shl_align_bound p mz ez E) as Hb.
  - destruct (binary_round_aux_positive false mz ez Hb)
      as [(m' & e' & ->) | ->]; [|discriminate].
    intro H. inversion H. eauto.
  - destruct (binary_round_aux_positive true mz ez Hb)
      as [(m' & e' & ->) | ->]; [|discriminate].
    intro H. inversion H. eauto.
Qed.

(** The product of a number and a finite float that is not zero is a
    number. *)
Lemma fmul_number (v : float) (s : bool) (m : positive) (e : Z) :
  v <> S754_nan -> fmul v (S754_finite s m e) <> S754_nan.
Proof.
  intro Hv. unfold fmul, SFmul.
  destruct v as [sv|sv| |sv mv ev]; try discriminate; [congruence|].
  apply binary_round_aux_number. lia.
Qed.

Lemma feq_refl (x : float) : x <> S754_nan -> SFeqb x x = true.
Proof.
  intro H. unfold SFeqb, SFcompare.
  destruct x as [s|s| |s m e]; try reflexivity; [destruct s; reflexivity| congruence|].
  change (PosDef.Pos.compare_cont Eq) with Pos.compare.
  destruct s; rewrite Z.compare_refl, Pos.compare_refl; reflexivity.
Qed.

End FloatMore.

(** ** The records of a table, value by value *)
Module CellFacts.
Import Py PyFacts Patterns Extract Invariants Records TableFacts FieldFacts.

(** A loop whose every iteration appends the records of the items of its
    element appends the records of the items of all elements, in order. *)
Lemma foldM_blocks {A B C} (R : B -> C -> Prop) (items : A -> list B)
      (step : list C -> A -> result (list C)) (l : list A) :
  (forall acc x acc',
      In x l -> step acc x = Ok acc' ->
      exists new, acc' = acc ++ new /\ Forall2 R (items x) new) ->
  forall acc acc',
    foldM step acc l = Ok acc' ->
    exists new, acc' = acc ++ new /\ Forall2 R (flat_map items l) new.
Proof.
  induction l as [|x l IH]; intros Hstep acc acc' H; simpl in H.
  - inversion H; subst. exists []. rewrite app_nil_r. split; constructor.
  - apply bind_Ok_inv in H as (acc1 & H1 & H2).
    destruct (Hstep acc x acc1 (or_introl eq_refl) H1) as (n1 & -> & F1).
    destruct (IH (fun a y a' Hy => Hstep a y a' (or_intror Hy)) _ _ H2)
      as (n2 & -> & F2).
    exists (n1 ++ n2). rewrite app_assoc. split; [reflexivity|].
    simpl. now apply Forall2_app.
Qed.

(** The same for a property of the records alone. *)
Lemma foldM_appends {A C} (P : C -> Prop)
      (step : list C -> A -> result (list C)) (l : list A) :
  (forall acc x acc',
      step acc x = Ok acc' -> exists new, acc' = acc ++ new /\ Forall P new) ->
  forall acc acc',
    foldM step acc l = Ok acc' ->
    exists new, acc' = acc ++ new /\ Forall P new.
Proof.
  intros Hstep. induction l as [|x l IH]; intros acc acc' H; simpl in H.
  - inversion H; subst. exists []. rewrite app_nil_r. split; constructor.
  - apply bind_Ok_inv in H as (acc1 & H1 & H2).
    destruct (Hstep acc x acc1 H1) as (n1 & -> & F1).
    destruct (IH _ _ H2) as (n2 & -> & F2).
    exists (n1 ++ n2). rewrite app_assoc. split; [reflexivity|].
    apply Forall_app. auto.
Qed.

Lemma flat_map_filter_one {A B} (p : B -> bool) (g : A -> B) (l : list A) :
  flat_map (fun x => filter p [g x]) l = filter p (map g l).
Proof.
  induction l as [|x l IH]; [reflexivity|].
  cbn [flat_map map]. rewrite IH. cbn [filter].
  destruct (p (g x)); reflexivity.
Qed.

Lemma filter_flat_map {A B} (p : B -> bool) (g : A -> list B) (l : list A) :
  flat_map (fun x => filter p (g x)) l = filter p (flat_map g l).
Proof.
  induction l as [|x l IH]; simpl; [reflexivity|].
  now rewrite IH, filter_app.
Qed.

Lemma Forall2_paired {A B C} (R : A * B -> C -> Prop) (a : A) (l : list B)
      (l' : list C) :
  Forall2 (fun b c => R (a, b) c) l l' -> Forall2 R (map (pair a) l) l'.
Proof. induction 1; simpl; constructor; auto. Qed.

(** The adjusted value of a record is the product that [_make_result]
    computed, whatever the factor. *)
Lemma make_result_product v rw lbl f rl col st sec pg src ctx r :
  _make_result v rw lbl f rl col st sec pg src ctx = Ok r ->
  Float.mul_int (value r) (multiplier r) = Ok (adjusted_value r).
Proof.
  unfold _make_result. intro H.
  apply bind_Ok_inv in H as (a & Ha & H). inversion H; subst. exact Ha.
Qed.

Section Table.
Variables (lbl : option str) (f : Z) (sec : option str)
          (pg : option Z) (src : option str).
Variable headers : list str.

(** One sub-value: a record of its own when it is recognised, nothing
    otherwise. *)
Lemma sub_value_step_record (row : list (option str)) (col_idx : nat)
      (results : list ExtractedNumber) (iv : nat * str)
      (results' : list ExtractedNumber) :
  sub_value_step lbl f sec pg src headers (clean_cell (hd None row))
                 (find_header_multiplier (clean_cell (hd None row)))
                 [clean_cell (hd None row)] col_idx results iv = Ok results' ->
  exists new,
    results' = results ++ new
    /\ Forall2 (fun v r => value_record lbl f sec pg src headers (row, v) r)
               (filter recognised [(col_idx, fst iv, strip (snd iv))]) new.
Proof.
  unfold sub_value_step. destruct iv as [vi val_text].
  cbn [filter fst snd]. unfold recognised. cbn [snd].
  destruct (is_number (strip val_text)) eqn:En; cbn [negb andb].
  2:{ intro H. inversion H; subst. exists []. rewrite app_nil_r.
      split; constructor. }
  destruct (parse_number (strip val_text)) as [v|] eqn:Ep.
  2:{ intro H. inversion H; subst. exists []. rewrite app_nil_r.
      split; constructor. }
  rewrite sub_label_whole, clean_cell_trimmed.
  fold (scale_rule (find_header_multiplier (clean_cell (hd None row)))
                   (strip val_text) lbl f).
  destruct (scale_rule _ _ _ _) as [el ef] eqn:E.
  intro H. apply bind_Ok_inv in H as (r & Hmk & H).
  inversion H; subst results'. exists [r]. split; [reflexivity|].
  constructor; [|constructor].
  pose proof (make_result_product _ _ _ _ _ _ _ _ _ _ _ _ Hmk) as Hprod.
  apply make_result_all in Hmk
    as (Hv & Hraw & Hl & Hm & Hrl & Hcol & Hst & Hsec & Hpg & Hsrc & Hctx).
  unfold value_record, stamped. cbn [fst snd].
  rewrite Hv, Hm in Hprod. rewrite Hv, Hl, Hm, E.
  repeat split; auto.
Qed.

(** One cell: the records of its recognised sub-values, in order. *)
Lemma cell_step_records (row : list (option str))
      (results : list ExtractedNumber) (col_idx : nat)
      (results' : list ExtractedNumber) :
  cell_step lbl f sec pg src headers row (clean_cell (hd None row))
            (find_header_multiplier (clean_cell (hd None row)))
            results col_idx = Ok results' ->
  exists new,
    results' = results ++ new
    /\ Forall2 (fun v r => value_record lbl f sec pg src headers (row, v) r)
               (filter recognised
                  (if truthy (nth col_idx row None)
                   then map (fun iv => (col_idx, fst iv, strip (snd iv)))
                            (enumerate
                               (split "010" (or_empty (nth col_idx row None))))
                   else []))
               new.
Proof.
  unfold cell_step.
  destruct (truthy (nth col_idx row None)); cbn [negb].
  2:{ intro H. inversion H; subst. exists []. rewrite app_nil_r.
      split; constructor. }
  rewrite sub_labels_single. intro H.
  rewrite <- flat_map_filter_one.
  revert H. apply foldM_blocks.
  intros acc iv acc' _. apply sub_value_step_record.
Qed.

(** One row: the records of its recognised sub-values, in order. *)
Lemma row_step_records (results : list ExtractedNumber)
      (row : list (option str)) (results' : list ExtractedNumber) :
  row_step lbl f sec pg src headers results row = Ok results' ->
  exists new,
    results' = results ++ new
    /\ Forall2 (value_record lbl f sec pg src headers)
               (map (pair row) (filter recognised (sub_values row))) new.
Proof.
  unfold row_step. rewrite row_label_clean. intro H.
  unfold sub_values. rewrite <- filter_flat_map.
  apply (foldM_blocks
           (fun v r => value_record lbl f sec pg src headers (row, v) r)
           (fun col_idx =>
              filter recognised
                (if truthy (nth col_idx row None)
                 then map (fun iv => (col_idx, fst iv, strip (snd iv)))
                          (enumerate
                             (split "010" (or_empty (nth col_idx row None))))
                 else []))) in H.
  - destruct H as (new & -> & HF). exists new. split; [reflexivity|].
    now apply Forall2_paired.
  - intros acc col_idx acc' _. apply cell_step_records.
Qed.

(** The scan of a cell for inline numbers appends records of the kind
    [table_narrative] only. *)
Lemma narrative_cell_step_kind (results : list ExtractedNumber)
      (cell : option str) (results' : list ExtractedNumber) :
  narrative_cell_step sec pg src results cell = Ok results' ->
  exists new,
    results' = results ++ new
    /\ Forall (fun r => source_type r = table_narrative) new.
Proof.
  unfold narrative_cell_step.
  destruct (negb (truthy cell)).
  { intro H. inversion H; subst. exists []. rewrite app_nil_r.
    split; constructor. }
  intro H. apply bind_Ok_inv in H as (inl & _ & H2).
  rewrite foldM_append_map in H2. inversion H2; subst.
  eexists. split; [reflexivity|].
  apply Forall_map, Forall_forall. intros r _. reflexivity.
Qed.

(** The records of a table: one for each recognised sub-value of each
    data row, in order, then those of the inline numbers of the cells. *)
Lemma table_records (rows : grid) (rs : list ExtractedNumber) :
  resolve_column_headers rows = Some headers -> headers <> [] ->
  extract_from_table lbl f sec pg src rows = Ok rs ->
  exists vals narr,
    rs = vals ++ narr
    /\ Forall2 (value_record lbl f sec pg src headers) (table_values rows) vals
    /\ Forall (fun r => source_type r = table_narrative) narr.
Proof.
  intros Hh Hne. unfold extract_from_table. rewrite Hh.
  destruct headers as [|h hs] eqn:Eh; [congruence|]. rewrite <- Eh.
  intro H. apply bind_Ok_inv in H as (res & H1 & H2).
  apply (foldM_blocks (value_record lbl f sec pg src headers)
           (fun row => map (pair row) (filter recognised (sub_values row))))
    in H1.
  2:{ intros acc row acc' _. rewrite Eh. rewrite <- Eh.
      apply row_step_records. }
  destruct H1 as (vals & -> & HF). simpl in H2.
  apply (foldM_appends (fun r => source_type r = table_narrative)) in H2.
  2:{ intros acc row acc'. apply foldM_appends.
      intros acc2 cell acc2'. apply narrative_cell_step_kind. }
  destruct H2 as (narr & -> & HN).
  exists vals, narr. split; [reflexivity|]. split; [exact HF | exact HN].
Qed.

(** Without headers a table yields nothing. *)
Lemma table_without_headers (rows : grid) (rs : list ExtractedNumber) :
  resolve_column_headers rows = None \/ resolve_column_headers rows = Some [] ->
  extract_from_table lbl f sec pg src rows = Ok rs -> rs = [].
Proof.
  unfold extract_from_table. intros [-> | ->] H; now inversion H.
Qed.

End Table.

End CellFacts.

(** ** The product of a record, compared as Python compares floats *)
Module ProductFacts.
Import Re ReSem Py PyFacts Patterns Accounting Extract Invariants Records
       NumberFacts FloatFacts ParseFacts ScaleFacts OverlapFacts FieldFacts
       InlineMore FloatMore.

(** The adjusted value of the record is the product computed from its
    value and its scale, and its value is a number. *)
Definition computed (r : ExtractedNumber) : Prop :=
  Float.mul_int (value r) (multiplier r) = Ok (adjusted_value r)
  /\ value r <> S754_nan.

(** What [parse_number] reads from an accepted string is a number. *)
Lemma accepted_value_number (s : str) (v : Float.float) :
  is_number s = true -> parse_number s = Some v -> v <> S754_nan.
Proof.
  intros Hn Hp. destruct (existsb isdecimal s) eqn:Hd.
  - rewrite (parse_number_accepted s Hn Hd) in Hp. inversion Hp; subst v.
    unfold magnitude. destruct (parenthesized s).
    + apply fneg_number, of_decimal_number.
    + apply of_decimal_number.
  - rewrite (ParseMore.parse_number_no_digit s Hn Hd) in Hp. discriminate.
Qed.

(** So is the conversion of a number word of the inline patterns. *)
Lemma number_word_value (w : str) (v : Float.float) :
  lang true number_part w ->
  Float.of_str (replace "," [] w) = Ok v -> v <> S754_nan.
Proof.
  intros Hl.
  destruct (number_word w Hl) as (dc & dot & fd & -> & Hdc & _ & Hdot & Hfd).
  rewrite (number_without_commas dc dot fd Hdc Hdot Hfd).
  destruct (digits dc ++ fd) as [|c t] eqn:E.
  - apply app_eq_nil in E as [E1 E2]. rewrite E1, E2.
    destruct Hdot as [-> | ->]; intro H; vm_compute in H; discriminate.
  - rewrite of_str_decimal; auto.
    + intro H. inversion H. apply of_decimal_number.
    + apply digits_are_digits.
    + rewrite E. discriminate.
Qed.

Lemma inline_record_computed (text : str) (m : mobj) (r : ExtractedNumber) :
  lang true number_part (group m 1) -> record_of text m r -> computed r.
Proof.
  intros Hl. unfold record_of, inline_record.
  destruct (resolve_multiplier (group m 2)) as [[l f]|]; [|discriminate].
  intro H. apply bind_Ok_inv in H as (v & Hv & H).
  apply bind_Ok_inv in H as (r0 & H0 & H). inversion H; subst r0.
  split; [eapply CellFacts.make_result_product; eauto|].
  apply make_result_all in H0 as (Hval & _). rewrite Hval.
  eapply number_word_value; eauto.
Qed.

Lemma inline_numbers_computed (text : str) (rs : list ExtractedNumber) :
  extract_inline_numbers text = Ok rs -> Forall computed rs.
Proof.
  intro H. apply Forall_forall. intros r Hr.
  apply inline_records in H as (ds & bs & -> & Hd & Hb).
  apply in_app_or in Hr as [Hr | Hr].
  - destruct (Forall2_In_r _ _ _ r Hd Hr) as (m & Hm & HR).
    apply (inline_record_computed text m); [|exact HR].
    apply (counted_number text). now left.
  - destruct (Forall2_In_r _ _ _ r Hb Hr) as (m & Hm & HR).
    apply (inline_record_computed text m); [|exact HR].
    apply (counted_number text). now right.
Qed.

Lemma extract_from_text_computed text sec pg src rs :
  extract_from_text text sec pg src = Ok rs -> Forall computed rs.
Proof.
  unfold extract_from_text. intro H.
  apply bind_Ok_inv in H as (inl & H1 & H2).
  rewrite foldM_append_map in H2. inversion H2; subst. simpl.
  apply inline_numbers_computed in H1.
  apply Forall_map. eapply Forall_impl; [|exact H1].
  intros r Hr. exact Hr.
Qed.

Lemma row_factor_positive (pat l : str) (g : Z) :
  In (pat, l, g) MULTIPLIERS -> (1 <= g)%Z.
Proof.
  unfold MULTIPLIERS. simpl.
  intros [E | [E | [E | [E | []]]]]; inversion E; lia.
Qed.

Section Table.
Variables (lbl : option str) (f : Z) (sec : option str)
          (pg : option Z) (src : option str).

Lemma sub_value_step_computed headers row_label row_mult sub_labels col_idx
      results iv results' :
  Forall computed results ->
  sub_value_step lbl f sec pg src headers row_label row_mult sub_labels
                 col_idx results iv = Ok results' ->
  Forall computed results'.
Proof.
  intros Hr. unfold sub_value_step. destruct iv as [vi val_text].
  destruct (is_number (strip val_text)) eqn:En; cbn [negb];
    [|intro H; inversion H; subst; auto].
  destruct (parse_number (strip val_text)) as [v|] eqn:Ep;
    [|intro H; inversion H; subst; auto].
  destruct (match row_mult with
            | Some (l, f0) => (Some l, f0)
            | None => if contains "." (strip val_text)
                      then (lbl, f) else (None, 1%Z)
            end) as [el ef].
  intro H. apply bind_Ok_inv in H as (r & Hmk & H).
  inversion H; subst. apply Forall_app. split; [exact Hr|].
  constructor; [|constructor].
  split; [eapply CellFacts.make_result_product; eauto|].
  apply make_result_all in Hmk as (Hv & _). rewrite Hv.
  eapply accepted_value_number; eauto.
Qed.

Lemma narrative_cell_step_computed results cell results' :
  Forall computed results ->
  narrative_cell_step sec pg src results cell = Ok results' ->
  Forall computed results'.
Proof.
  intros Hr. unfold narrative_cell_step.
  destruct (negb (truthy cell)); [intro H; inversion H; subst; auto|].
  intro H. apply bind_Ok_inv in H as (inl & H1 & H2).
  rewrite foldM_append_map in H2. inversion H2; subst.
  apply Forall_app. split; [exact Hr|].
  apply inline_numbers_computed in H1.
  apply Forall_map. eapply Forall_impl; [|exact H1].
  intros r Hr'. exact Hr'.
Qed.

Lemma extract_from_table_computed rows rs :
  extract_from_table lbl f sec pg src rows = Ok rs -> Forall computed rs.
Proof.
  unfold extract_from_table.
  destruct (resolve_column_headers rows) as [[|h headers]|];
    try (intro H; inversion H; subst; constructor).
  intro H. apply bind_Ok_inv in H as (res & H1 & H2).
  assert (Hres : Forall computed res).
  { revert H1. apply foldM_invariant; [|constructor].
    intros acc row acc' _ Hacc. unfold row_step.
    apply foldM_invariant; [|exact Hacc].
    intros acc1 col_idx acc1' _ Hacc1. unfold cell_step.
    destruct (negb (truthy (nth col_idx row None)));
      [intro H; inversion H; subst; auto|].
    apply foldM_invariant; [|exact Hacc1].
    intros acc2 iv acc2' _ Hacc2. now apply sub_value_step_computed. }
  revert H2. apply foldM_invariant; [|exact Hres].
  intros acc row acc' _ Hacc. apply foldM_invariant; [|exact Hacc].
  intros acc2 cell acc2' _ Hacc2. now apply narrative_cell_step_computed.
Qed.

(** The factor of a table record is that of a row of [MULTIPLIERS], the
    default factor, or 1. *)
Lemma extract_from_table_factor rows rs r :
  extract_from_table lbl f sec pg src rows = Ok rs -> In r rs ->
  (1 <= multiplier r)%Z \/ multiplier r = f.
Proof.
  intros H Hr.
  destruct (extract_from_table_fields lbl f sec pg src rows rs r H Hr)
    as (headers & _ & _ & Hf).
  pose proof (TableFacts.extract_from_table_from_row
                lbl f sec pg src rows rs H) as Hrow.
  pose proof (proj1 (Forall_forall _ _) Hrow r Hr) as Hfrom.
  unfold TableFacts.from_row in Hfrom. unfold table_fields in Hf.
  destruct (source_type r); [|contradiction|].
  - destruct (Hfrom eq_refl) as (row & _ & _ & E).
    unfold scale_rule in E.
    destruct (find_header_multiplier (clean_cell (hd None row)))
      as [[l g]|] eqn:Em.
    + apply find_header_multiplier_factor in Em.
      inversion E as [[El Ef]]. left. rewrite Ef. exact Em.
    + destruct (contains "." (raw r)); inversion E as [[El Ef]];
        [now right | left; rewrite Ef; lia].
  - destruct Hf as (_ & _ & (l & pat & Hl & Hin) & _).
    left. eapply row_factor_positive; eauto.
Qed.
End Table.

Lemma extract_from_pages_computed pages src rs :
  extract_from_pages pages src = Ok rs -> Forall computed rs.
Proof.
  intro H. apply extract_from_pages_from in H as [H _].
  eapply Forall_impl; [|exact H].
  intros r (q & _ & _ & _ & _ & b & _ & Hb).
  destruct (source_type r).
  - destruct Hb as (_ & rows & lbl & f & rs' & _ & Hx & Hin).
    apply extract_from_table_computed in Hx.
    exact (proj1 (Forall_forall _ _) Hx r Hin).
  - destruct Hb as (_ & rs' & Hx & Hin).
    apply extract_from_text_computed in Hx.
    exact (proj1 (Forall_forall _ _) Hx r Hin).
  - destruct Hb as (_ & rows & lbl & f & rs' & _ & Hx & Hin).
    apply extract_from_table_computed in Hx.
    exact (proj1 (Forall_forall _ _) Hx r Hin).
Qed.

(** A computed product with a factor other than zero compares equal to
    itself: it is not nan. *)
Lemma product_equal_of (r : ExtractedNumber) :
  computed r -> multiplier r <> 0%Z -> product_equal r.
Proof.
  intros [Hp Hv] Hm. unfold Float.mul_int in Hp.
  apply bind_Ok_inv in Hp as (x & Hx & Hp). inversion Hp as [Ha].
  exists x. split; [exact Hx|].
  destruct (of_int_finite _ x Hm Hx) as (s & m & e & ->).
  unfold feq. rewrite <- Ha. apply feq_refl. now apply fmul_number.
Qed.

(** With the factor zero the product is nan exactly when the value is
    infinite. *)
Lemma product_equal_or_infinite (r : ExtractedNumber) :
  computed r ->
  product_equal r
  \/ (multiplier r = 0%Z /\ exists s, value r = S754_infinity s).
Proof.
  intros Hc. destruct (Z.eq_dec (multiplier r) 0) as [Hz | Hnz];
    [|left; now apply product_equal_of].
  destruct Hc as [Hp Hv]. unfold product_equal.
  rewrite Hz in *. unfold Float.mul_int in Hp.
  change (Float.of_int 0) with (Ok (S754_zero false) : result Float.float)
    in *.
  cbn [bind] in Hp. inversion Hp as [Ha].
  destruct (value r) as [s|s| |s m e] eqn:Ev.
  - left. exists (S754_zero false). split; [reflexivity|].
    destruct s; reflexivity.
  - right. split; [reflexivity|]. now exists s.
  - congruence.
  - left. exists (S754_zero false). split; [reflexivity|].
    destruct s; reflexivity.
Qed.

Lemma scaled_product_equal (rs : list ExtractedNumber) :
  Forall well_scaled rs -> Forall computed rs ->
  Forall (fun r => well_scaled r /\ product_equal r) rs.
Proof.
  intros Hw Hc. apply Forall_forall. intros r Hr.
  pose proof (proj1 (Forall_forall _ _) Hw r Hr) as Hwr.
  split; [exact Hwr|]. apply product_equal_of.
  - exact (proj1 (Forall_forall _ _) Hc r Hr).
  - destruct Hwr as [_ Hge]. lia.
Qed.

End ProductFacts.

(** ** The sign of a parsed number *)
Module SignFacts.
Import Py PyFacts Patterns Accounting ParseFacts.

Lemma sign_bit_round (m : Z) (e : Z) (l : location) :
  sign_bit (binary_round_aux Float.prec Float.emax false m e l) = false.
Proof.
  unfold binary_round_aux.
  destruct (shr_fexp Float.prec Float.emax m e l) as [mrs e'].
  destruct (shr_fexp Float.prec Float.emax _ e' loc_Exact) as [mrs' e''].
  destruct (shr_m mrs') as [|p|p]; try reflexivity.
  now destruct (Z.leb e'' (Float.emax - Float.prec)).
Qed.

Lemma sign_bit_magnitude (s : str) : sign_bit (magnitude s) = false.
Proof.
  unfold magnitude, Float.of_decimal.
  destruct (Float.digits_val 0 (digits s)) as [|p]; [reflexivity|].
  destruct (- Z.of_nat (frac_digits s))%Z as [|q|q].
  - unfold binary_round.
    destruct (shl_align _ _ _) as [mz ez]. apply sign_bit_round.
  - unfold binary_round.
    destruct (shl_align _ _ _) as [mz ez]. apply sign_bit_round.
  - unfold SFdiv.
    destruct (SFdiv_core_binary _ _ _ _ _ _) as [[mz ez] lz].
    apply sign_bit_round.
Qed.

(** Negation flips the sign bit of a number. *)
Lemma sign_bit_fneg (x : Float.float) :
  x <> S754_nan -> sign_bit (Float.fneg x) = negb (sign_bit x).
Proof. destruct x; simpl; congruence. Qed.

Lemma contains_removed (c : ascii) (s : str) :
  contains c (replace c [] s) = false.
Proof.
  rewrite replace_filter.
  destruct (contains c _) eqn:E; [|reflexivity].
  apply contains_In in E. apply filter_In in E as (_ & E).
  unfold ascii_eqb in E. rewrite Ascii.eqb_refl in E. discriminate.
Qed.

(** The text that [parse_number] converts holds no parenthesis. *)
Lemma cleaned_no_parenthesis (s : str) :
  contains "(" (cleaned s) = false /\ contains ")" (cleaned s) = false.
Proof.
  unfold cleaned. split.
  - rewrite contains_strip by reflexivity.
    rewrite !replace_filter.
    destruct (contains "(" _) eqn:E; [|reflexivity].
    apply contains_In in E.
    apply filter_In in E as (E & _). apply filter_In in E as (E & _).
    apply filter_In in E as (_ & E). discriminate.
  - rewrite contains_strip by reflexivity.
    rewrite !replace_filter.
    destruct (contains ")" _) eqn:E; [|reflexivity].
    apply contains_In in E.
    apply filter_In in E as (E & _). apply filter_In in E as (_ & E).
    discriminate.
Qed.

Lemma filter_pair_again {A} (p q : A -> bool) (l : list A) :
  filter q (filter p (filter q (filter p l))) = filter q (filter p l).
Proof.
  induction l as [|x l IH]; simpl; [reflexivity|].
  destruct (p x) eqn:Ep; simpl; [|exact IH].
  destruct (q x) eqn:Eq; simpl; [|exact IH].
  rewrite Ep. simpl. rewrite Eq. now rewrite IH.
Qed.

Lemma unwrapped_cleaned (s : str) :
  cleaned (replace ")" [] (replace "(" [] s)) = cleaned s.
Proof.
  unfold cleaned. rewrite !replace_filter. now rewrite filter_pair_again.
Qed.

Lemma unwrapped_not_parenthesized (s : str) :
  parenthesized (replace ")" [] (replace "(" [] s)) = false.
Proof.
  unfold parenthesized. now rewrite contains_removed, andb_false_r.
Qed.

(** [parse_number] returns what it returns for the text without its
    parentheses, negated when both parentheses are present. *)
Lemma parse_number_unwrapped (s : str) :
  parse_number s
  = (if parenthesized s then option_map Float.fneg else id)
      (parse_number (replace ")" [] (replace "(" [] s))).
Proof.
  rewrite !ParseMore.parse_number_float.
  rewrite unwrapped_cleaned, unwrapped_not_parenthesized.
  destruct (Float.of_str (cleaned s)); destruct (parenthesized s); reflexivity.
Qed.

End SignFacts.

(** * The claims *)


(** C1, as stated, fails: called with the default factor 0,
    [extract_from_table] emits, for a decimal cell beyond the range of a
    float, a record whose value is infinite and whose adjusted value, the
    product of infinity and zero, is nan; nan equals nothing, itself
    included, so the adjusted value does not equal the product. *)
Lemma C1_zero_factor_product_unequal :
  exists r,
    extract_from_table None 0 None None None
      [[Some (L "Item"); Some (L "FY2023")];
       [Some (L "Big"); Some (repeat "9"%char 400 ++ L ".5")]] = Ok [r]
    /\ multiplier r = 0%Z
    /\ value r = S754_infinity false
    /\ adjusted_value r = S754_nan
    /\ feq (adjusted_value r) (Float.fmul (value r) (S754_zero false)) = false
    /\ ~ product_equal r.
Proof.
  eexists. split; [vm_compute; reflexivity|].
  repeat split; try (vm_compute; reflexivity).
  intros (x & Hx & H). vm_compute in Hx. inversion Hx; subst x.
  vm_compute in H. discriminate.
Qed.

(** C1, amended: the adjusted value of every record emitted by
    [extract_from_text], [extract_from_pages] and [extract_from_table]
    is the float product computed from its value and its multiplier.
    For the records of [extract_from_text] and [extract_from_pages] the
    multiplier is at least 1 and the adjusted value equals the product
    under Python's [==]; so it is for [extract_from_table] called with a
    default factor of at least 1.  For [extract_from_table] with any
    default factor, the adjusted value equals the product under [==]
    unless the multiplier is 0 and the value infinite, hence always when
    the default factor is not 0. *)
Theorem C1_records_well_scaled :
  (forall text sec pg src rs,
      extract_from_text text sec pg src = Ok rs ->
      Forall (fun r => well_scaled r /\ product_equal r) rs)
  /\ (forall pages src rs,
         extract_from_pages pages src = Ok rs ->
         Forall (fun r => well_scaled r /\ product_equal r) rs)
  /\ (forall lbl f sec pg src rows rs,
         (1 <= f)%Z ->
         extract_from_table lbl f sec pg src rows = Ok rs ->
         Forall (fun r => well_scaled r /\ product_equal r) rs)
  /\ (forall lbl f sec pg src rows rs,
         extract_from_table lbl f sec pg src rows = Ok rs ->
         Forall (fun r =>
                   Float.mul_int (value r) (multiplier r)
                   = Ok (adjusted_value r)
                   /\ (product_equal r
                       \/ (multiplier r = 0%Z
                           /\ exists s, value r = S754_infinity s)))
                rs)
  /\ (forall lbl f sec pg src rows rs,
         f <> 0%Z ->
         extract_from_table lbl f sec pg src rows = Ok rs ->
         Forall product_equal rs).
Proof.
  split; [|split; [|split; [|split]]].
  - intros text sec pg src rs H. apply ProductFacts.scaled_product_equal.
    + eapply RecordFacts.extract_from_text_scaled; eauto.
    + eapply ProductFacts.extract_from_text_computed; eauto.
  - intros pages src rs H. apply ProductFacts.scaled_product_equal.
    + eapply RecordFacts.extract_from_pages_scaled; eauto.
    + eapply ProductFacts.extract_from_pages_computed; eauto.
  - intros lbl f sec pg src rows rs Hf H.
    apply ProductFacts.scaled_product_equal.
    + eapply RecordFacts.extract_from_table_scaled; eauto.
    + eapply ProductFacts.extract_from_table_computed; eauto.
  - intros lbl f sec pg src rows rs H.
    pose proof (ProductFacts.extract_from_table_computed _ _ _ _ _ _ _ H)
      as Hc.
    eapply Forall_impl; [|exact Hc].
    intros r Hr. split; [exact (proj1 Hr)|].
    now apply ProductFacts.product_equal_or_infinite.
  - intros lbl f sec pg src rows rs Hf H.
    pose proof (ProductFacts.extract_from_table_computed _ _ _ _ _ _ _ H)
      as Hc.
    apply Forall_forall. intros r Hr.
    apply ProductFacts.product_equal_of.
    + exact (proj1 (Forall_forall _ _) Hc r Hr).
    + destruct (ProductFacts.extract_from_table_factor _ _ _ _ _ _ _ _ H Hr)
        as [Hge | He]; [lia | congruence].
Qed.

Lemma C1_records_well_scaled_witness :
  exists rs,
    extract_from_table (Some (L "Million")) 1000000 None None None
      (cells [["Item"; "FY2023"]; ["Budget"; "150.5"]]%string) = Ok rs
    /\ (1 <= 1000000)%Z /\ 1000000%Z <> 0%Z
    /\ Forall (fun r => well_scaled r /\ product_equal r) rs
    /\ Forall product_equal rs.
Proof.
  eexists. split; [vm_compute; reflexivity|]. split; [lia|].
  split; [discriminate|]. split.
  - apply (proj1 (proj2 (proj2 C1_records_well_scaled))
             (Some (L "Million")) 1000000%Z None None None
             (cells [["Item"; "FY2023"]; ["Budget"; "150.5"]]%string)).
    + lia.
    + vm_compute. reflexivity.
  - apply (proj2 (proj2 (proj2 (proj2 C1_records_well_scaled)))
             (Some (L "Million")) 1000000%Z None None None
             (cells [["Item"; "FY2023"]; ["Budget"; "150.5"]]%string)).
    + discriminate.
    + vm_compute. reflexivity.
Defined.

(** C2: the records of [extract_from_table] of the kind [table] are, in
    order, one for each recognised sub-value of each data row: the
    record of a sub-value carries its text, and its scale is the scale
    declared by the label of the row the sub-value sits in when there is
    one, else the default scale when the text has a decimal point, else
    none (factor 1).  With default (Million, 1e6): "150" is left
    unscaled, "150.5" gets 1e6, and the row "(Hours in Thousands)" gets
    1000 on both forms, while the rows below it follow their own
    labels. *)
Theorem C2_scale_precedence :
  (forall lbl f sec pg src rows rs,
      extract_from_table lbl f sec pg src rows = Ok rs ->
      match resolve_column_headers rows with
      | Some (h :: hs) =>
          exists vals narr,
            rs = vals ++ narr
            /\ Forall2 (value_record lbl f sec pg src (h :: hs))
                       (table_values rows) vals
            /\ Forall (fun r => source_type r = table_narrative) narr
      | _ => rs = []
      end)
  /\ (exists r,
         extract_from_table (fst million) (snd million) None None None
           (cells [["Item"; "FY2023"]; ["Headcount"; "150"]]%string) = Ok [r]
         /\ multiplier_label r = None /\ multiplier r = 1%Z
         /\ adjusted_value r = value r)
  /\ (exists r,
         extract_from_table (fst million) (snd million) None None None
           (cells [["Item"; "FY2023"]; ["Budget"; "150.5"]]%string) = Ok [r]
         /\ multiplier_label r = Some (L "Million")
         /\ multiplier r = 1000000%Z
         /\ adjusted_value r = Prim2SF 150500000%float)
  /\ (exists r1 r2,
         extract_from_table (fst million) (snd million) None None None
           (cells [["Item"; "FY2023"; "FY2024"];
                   ["(Hours in Thousands)"; "150"; "150.5"]]%string)
         = Ok [r1; r2]
         /\ multiplier_label r1 = Some (L "Thousand")
         /\ multiplier r1 = 1000%Z
         /\ adjusted_value r1 = Prim2SF 150000%float
         /\ multiplier_label r2 = Some (L "Thousand")
         /\ multiplier r2 = 1000%Z
         /\ adjusted_value r2 = Prim2SF 150500%float)
  /\ (exists r1 r2 r3,
         extract_from_table (fst million) (snd million) None None None
           (cells [["Item"; "FY2023"];
                   ["(Hours in Thousands)"; "150"];
                   ["Budget"; "99.5"];
                   ["Headcount"; "12"]]%string)
         = Ok [r1; r2; r3]
         /\ row_label r1 = L "(Hours in Thousands)"
         /\ multiplier_label r1 = Some (L "Thousand")
         /\ multiplier r1 = 1000%Z
         /\ adjusted_value r1 = Prim2SF 150000%float
         /\ row_label r2 = L "Budget"
         /\ multiplier_label r2 = Some (L "Million")
         /\ multiplier r2 = 1000000%Z
         /\ adjusted_value r2 = Prim2SF 99500000%float
         /\ row_label r3 = L "Headcount"
         /\ multiplier_label r3 = None
         /\ multiplier r3 = 1%Z
         /\ adjusted_value r3 = Prim2SF 12%float).
Proof.
  split; [|split; [|split; [|split]]].
  - intros lbl f sec pg src rows rs H.
    destruct (resolve_column_headers rows) as [[|h hs]|] eqn:Eh.
    + eapply CellFacts.table_without_headers; eauto.
    + eapply CellFacts.table_records; eauto. discriminate.
    + eapply CellFacts.table_without_headers; eauto.
  - eexists. split; [vm_compute; reflexivity|]. repeat split.
  - eexists. split; [vm_compute; reflexivity|]. repeat split.
  - eexists. eexists. split; [vm_compute; reflexivity|].
    repeat split; vm_compute; reflexivity.
  - eexists. eexists. eexists. split; [vm_compute; reflexivity|].
    repeat split; vm_compute; reflexivity.
Qed.

Lemma C2_scale_precedence_witness :
  exists r1 r2,
    extract_from_table (fst million) (snd million) None None None
      (cells [["Item"; "FY2023"];
              ["(Hours in Thousands)"; "150"];
              ["Budget"; "99.5"]]%string)
    = Ok [r1; r2]
    /\ exists vals narr,
        [r1; r2] = vals ++ narr
        /\ Forall2 (value_record (fst million) (snd million) None None None
                                 [L "Item"; L "FY2023"])
                   (table_values
                      (cells [["Item"; "FY2023"];
                              ["(Hours in Thousands)"; "150"];
                              ["Budget"; "99.5"]]%string))
                   vals
        /\ Forall (fun r => source_type r = table_narrative) narr.
Proof.
  eexists. eexists. split; [vm_compute; reflexivity|].
  eapply (proj1 C2_scale_precedence (fst million) (snd million)
            None None None
            (cells [["Item"; "FY2023"];
                    ["(Hours in Thousands)"; "150"];
                    ["Budget"; "99.5"]]%string)).
  vm_compute. reflexivity.
Defined.

(** C3: for a data table, [extract_from_pages] is claimed to use the
    declaration nearest above it.  On a page with a banner table "($M)"
    at y=10, a text box "(Dollars in Thousands)" at y=30 and a data table
    at y=50, the nearest declaration above the table is Thousand, at
    y=30; the code extracts the table with Million, because the banner's
    declaration is appended after those of the text boxes and
    [mult_for_y] returns the last entry at or above the position.  The
    three lookups of the claim, on a list in position order, hold. *)
Theorem C3_banner_declared_last_wins :
  let banner := _make_table_box [["Fund"; "Unit"; "($M)"]]%string (10 # 1) in
  let note := _make_text_box "(Dollars in Thousands)" (30 # 1) "text" in
  let data :=
    _make_table_box [["Item"; "FY2023"]; ["Budget"; "99.5"]]%string (50 # 1) in
  let declarations :=
    [((10 # 1)%Q, L "Thousand", 1000%Z); ((50 # 1)%Q, L "Million", 1000000%Z)] in
  (exists r,
      extract_from_pages
        [{| page_number := 1; boxes := [banner; note; data] |}] (L "test.pdf")
      = Ok [r]
      /\ multiplier_label r = Some (L "Million")
      /\ multiplier r = 1000000%Z
      /\ adjusted_value r = Prim2SF 99500000%float)
  /\ find_header_multiplier (get_box_text note) = Some (L "Thousand", 1000%Z)
  /\ mult_for_y declarations (60 # 1) = Some (L "Million", 1000000%Z)
  /\ mult_for_y declarations (30 # 1) = Some (L "Thousand", 1000%Z)
  /\ mult_for_y declarations (5 # 1) = None.
Proof.
  cbv zeta. split; [|repeat split; vm_compute; reflexivity].
  eexists. split; [vm_compute; reflexivity|].
  repeat split; vm_compute; reflexivity.
Qed.

(** C4: the bare-worded pattern is claimed to take full scale words
    only.  The filter on [MULTIPLIERS] compares the length of a whole
    pattern string with 2, which keeps every row, so the words of the
    bare pattern are those of the dollar pattern, abbreviations
    included, and "3 m" yields a record scaled by a million. *)
Theorem C4_bare_pattern_takes_abbreviations :
  _mult_words = _mult_alt
  /\ exists r,
      extract_inline_numbers (L "3 m") = Ok [r]
      /\ raw r = L "3 m"
      /\ multiplier_label r = Some (L "Million")
      /\ multiplier r = 1000000%Z
      /\ adjusted_value r = Prim2SF 3000000%float.
Proof.
  split; [reflexivity|].
  eexists. split; [vm_compute; reflexivity|].
  repeat split; vm_compute; reflexivity.
Qed.

(** C5, as stated, fails: "," is accepted by [is_number] and
    [parse_number] returns the failure result on it. *)
Lemma C5_comma_accepted_not_parsed :
  ~ (forall s, is_number s = true -> exists v, parse_number s = Some v).
Proof.
  intro H. destruct (H (L ",")) as (v & Hv); [vm_compute; reflexivity|].
  vm_compute in Hv. discriminate.
Qed.

(** C5, amended: every string accepted by [is_number] that holds at
    least one digit parses; the result is the magnitude written by its
    digits, thousands separators dropped, negated exactly when the
    string has both parentheses.  "(48.843)" gives -48.843, "1,754,801"
    gives 1754801.0, and "" and "  " fail. *)
Theorem C5_accepted_with_digit_parses :
  (forall s,
      is_number s = true -> existsb Py.isdecimal s = true ->
      parse_number s
      = Some (if parenthesized s then Float.fneg (magnitude s)
              else magnitude s))
  /\ parse_number (L "(48.843)") = Some (Prim2SF (-48.843)%float)
  /\ parse_number (L "1,754,801") = Some (Prim2SF 1754801%float)
  /\ parse_number (L "") = None
  /\ parse_number (L "  ") = None.
Proof.
  split; [exact ParseFacts.parse_number_accepted|].
  repeat split; vm_compute; reflexivity.
Qed.

Lemma C5_accepted_with_digit_parses_witness :
  is_number (L " (1,234.50) ") = true
  /\ existsb Py.isdecimal (L " (1,234.50) ") = true
  /\ parse_number (L " (1,234.50) ")
     = Some (if parenthesized (L " (1,234.50) ")
             then Float.fneg (magnitude (L " (1,234.50) "))
             else magnitude (L " (1,234.50) ")).
Proof.
  split; [vm_compute; reflexivity|]. split; [vm_compute; reflexivity|].
  apply (proj1 C5_accepted_with_digit_parses (L " (1,234.50) "));
    vm_compute; reflexivity.
Defined.

(** C6: the records of a text are those of all its dollar-prefixed
    matches followed by those of the bare-worded matches that the
    overlap check lets through, and the span of such a bare match
    overlaps the span of no dollar-prefixed match of the text.
    "$9.6 billion" yields one record. *)
Theorem C6_no_span_counted_twice :
  (forall text rs,
      extract_inline_numbers text = Ok rs ->
      exists ds bs,
        rs = ds ++ bs
        /\ Forall2 (record_of text) (dollar_matches text) ds
        /\ Forall2 (record_of text) (kept_bare text) bs)
  /\ (forall text b d,
         In b (kept_bare text) -> In d (dollar_matches text) -> disjoint b d)
  /\ (exists r, extract_inline_numbers (L "$9.6 billion") = Ok [r]).
Proof.
  split; [|split].
  - exact OverlapFacts.inline_records.
  - exact OverlapFacts.kept_disjoint.
  - eexists. vm_compute. reflexivity.
Qed.

Lemma C6_no_span_counted_twice_witness :
  exists rs b d,
    extract_inline_numbers (L "2.0 million of $9.6 billion") = Ok rs
    /\ In b (kept_bare (L "2.0 million of $9.6 billion"))
    /\ In d (dollar_matches (L "2.0 million of $9.6 billion"))
    /\ (exists ds bs,
           rs = ds ++ bs
           /\ Forall2 (record_of (L "2.0 million of $9.6 billion"))
                (dollar_matches (L "2.0 million of $9.6 billion")) ds
           /\ Forall2 (record_of (L "2.0 million of $9.6 billion"))
                (kept_bare (L "2.0 million of $9.6 billion")) bs)
    /\ disjoint b d.
Proof.
  eexists. eexists. eexists.
  split; [vm_compute; reflexivity|].
  split; [vm_compute; left; reflexivity|].
  split; [vm_compute; left; reflexivity|].
  split.
  - apply (proj1 C6_no_span_counted_twice (L "2.0 million of $9.6 billion")).
    vm_compute. reflexivity.
  - apply (proj1 (proj2 C6_no_span_counted_twice)
             (L "2.0 million of $9.6 billion")).
    + vm_compute. left. reflexivity.
    + vm_compute. left. reflexivity.
Defined.




(** C8: the inline extractor is claimed to return for every text.  On
    "rose, millions" the bare pattern matches ", millions" with the lone
    comma as its number; once the comma is removed the number text is
    empty, its conversion raises [ValueError], and nothing catches it:
    the error leaves [extract_inline_numbers] and [extract_from_text].
    [parse_number] catches the same error and returns its failure
    result. *)
Theorem C8_value_error_escapes :
  extract_inline_numbers (L "rose, millions") = Raise ValueError
  /\ extract_from_text (L "rose, millions") None None None = Raise ValueError
  /\ Float.of_str (L "") = Raise ValueError
  /\ parse_number (L ",") = None.
Proof. repeat split; vm_compute; reflexivity. Qed.

(** C9: the sub-value at index i of a value cell is claimed to carry the
    sub-label at index i of the label cell split at its newlines.
    [extract_from_table] splits the label after it has replaced the
    newlines of the label cell by spaces, so the list of sub-labels it
    indexes is always the whole label alone, and the branch for a
    sub-label per index is never taken.  For the label cell
    "Equipment\nTotal" and the value cell "100.5\n200.5" the two records
    carry "Equipment Total", not "Equipment" and "Total".  In every
    table the record of each recognised sub-value of each data row
    carries the whole label of its row, whatever its index. *)
Theorem C9_sub_labels_never_split :
  (exists r1 r2,
      extract_from_table (fst million) (snd million) None None None
        (cells [["Item"; "FY2023"];
                [lines "Equipment" "Total"; lines "100.5" "200.5"]]%string)
      = Ok [r1; r2]
      /\ value r1 = Prim2SF 100.5%float
      /\ value r2 = Prim2SF 200.5%float
      /\ spec_sub_label (L (lines "Equipment" "Total")) 0 = L "Equipment"
      /\ spec_sub_label (L (lines "Equipment" "Total")) 1 = L "Total"
      /\ row_label r1 <> spec_sub_label (L (lines "Equipment" "Total")) 0
      /\ row_label r2 <> spec_sub_label (L (lines "Equipment" "Total")) 1
      /\ row_label r1 = L "Equipment Total"
      /\ row_label r2 = L "Equipment Total")
  /\ (forall row : list (option str),
         (if Py.contains "010" (Py.or_empty (hd None row))
          then Py.split "010" (clean_cell (hd None row))
          else [clean_cell (hd None row)])
         = [clean_cell (hd None row)])
  /\ (forall lbl f sec pg src rows rs,
         extract_from_table lbl f sec pg src rows = Ok rs ->
         match resolve_column_headers rows with
         | Some (h :: hs) =>
             exists vals narr,
               rs = vals ++ narr
               /\ Forall2 (fun v r =>
                             source_type r = table
                             /\ raw r = snd (snd v)
                             /\ row_label r = clean_cell (hd None (fst v)))
                          (table_values rows) vals
               /\ Forall (fun r => source_type r = table_narrative) narr
         | _ => rs = []
         end).
Proof.
  split; [|split].
  - eexists. eexists. split; [vm_compute; reflexivity|].
    repeat split; vm_compute; try reflexivity; discriminate.
  - exact TableFacts.sub_labels_single.
  - intros lbl f sec pg src rows rs H.
    destruct (resolve_column_headers rows) as [[|h hs]|] eqn:Eh.
    + eapply CellFacts.table_without_headers; eauto.
    + destruct (CellFacts.table_records lbl f sec pg src (h :: hs) rows rs Eh)
        as (vals & narr & E & HF & HN); [discriminate | exact H |].
      exists vals, narr. split; [exact E|]. split; [|exact HN].
      eapply Forall2_impl; [|exact HF].
      intros v r (Hst & Hraw & _ & Hrl & _). auto.
    + eapply CellFacts.table_without_headers; eauto.
Qed.

Lemma C9_sub_labels_never_split_witness :
  exists r1 r2,
    extract_from_table (fst million) (snd million) None None None
      (cells [["Item"; "FY2023"];
              [lines "Equipment" "Total"; lines "100.5" "200.5"]]%string)
    = Ok [r1; r2]
    /\ exists vals narr,
        [r1; r2] = vals ++ narr
        /\ Forall2 (fun v r =>
                      source_type r = table
                      /\ raw r = snd (snd v)
                      /\ row_label r = clean_cell (hd None (fst v)))
                   (table_values
                      (cells [["Item"; "FY2023"];
                              [lines "Equipment" "Total";
                               lines "100.5" "200.5"]]%string))
                   vals
        /\ Forall (fun r => source_type r = table_narrative) narr.
Proof.
  eexists. eexists. split; [vm_compute; reflexivity|].
  eapply (proj2 (proj2 C9_sub_labels_never_split)
            (fst million) (snd million) None None None
            (cells [["Item"; "FY2023"];
                    [lines "Equipment" "Total";
                     lines "100.5" "200.5"]]%string)).
  vm_compute. reflexivity.
Defined.

(** C10, as stated, fails: "(-5" holds an opening parenthesis and no
    closing one, and [parse_number] returns -5.0 for it, which is not
    positive. *)
Lemma C10_one_parenthesis_negative :
  Py.contains "(" (L "(-5") = true
  /\ Py.contains ")" (L "(-5") = false
  /\ parse_number (L "(-5") = Some (Prim2SF (-5)%float)
  /\ sign_bit (Prim2SF (-5)%float) = true.
Proof. repeat split; vm_compute; reflexivity. Qed.

(** C10, amended: [parse_number] returns what it returns for the text
    without its parentheses, negated exactly when the input holds both
    an opening and a closing parenthesis; the text it converts has no
    parenthesis left.  Every string that [is_number] accepts and that
    holds a digit parses to its magnitude, with the sign bit set exactly
    when the string holds both parentheses: with one parenthesis or none
    the value is positive.  "(123", which [is_number] accepts, gives
    123.0; "(-5" is not accepted. *)
Theorem C10_negated_iff_both_parentheses :
  (forall s,
      parse_number s
      = (if parenthesized s then option_map Float.fneg else id)
          (parse_number (Py.replace ")" [] (Py.replace "(" [] s))))
  /\ (forall s,
         Py.contains "(" (cleaned s) = false
         /\ Py.contains ")" (cleaned s) = false)
  /\ (forall s,
         is_number s = true -> existsb Py.isdecimal s = true ->
         exists v,
           parse_number s = Some v
           /\ v = (if parenthesized s then Float.fneg (magnitude s)
                   else magnitude s)
           /\ sign_bit (magnitude s) = false
           /\ sign_bit v = parenthesized s)
  /\ is_number (L "(123") = true
  /\ parenthesized (L "(123") = false
  /\ parse_number (L "(123") = Some (Prim2SF 123%float)
  /\ parse_number (L "123)") = Some (Prim2SF 123%float)
  /\ parse_number (L "(123)") = Some (Prim2SF (-123)%float)
  /\ is_number (L "(-5") = false.
Proof.
  split; [exact SignFacts.parse_number_unwrapped|]. split; [|split].
  - exact SignFacts.cleaned_no_parenthesis.
  - intros s Hn Hd. eexists.
    split; [apply (ParseFacts.parse_number_accepted s Hn Hd)|].
    split; [reflexivity|]. split; [apply SignFacts.sign_bit_magnitude|].
    destruct (parenthesized s).
    + rewrite SignFacts.sign_bit_fneg, SignFacts.sign_bit_magnitude;
        [reflexivity|].
      apply FloatMore.of_decimal_number.
    + apply SignFacts.sign_bit_magnitude.
  - repeat split; vm_compute; reflexivity.
Qed.

Lemma C10_negated_iff_both_parentheses_witness :
  is_number (L "(123") = true
  /\ existsb Py.isdecimal (L "(123") = true
  /\ exists v,
      parse_number (L "(123") = Some v
      /\ v = (if parenthesized (L "(123") then Float.fneg (magnitude (L "(123"))
              else magnitude (L "(123"))
      /\ sign_bit (magnitude (L "(123")) = false
      /\ sign_bit v = parenthesized (L "(123").
Proof.
  split; [vm_compute; reflexivity|].
  split; [vm_compute; reflexivity|].
  apply (proj1 (proj2 (proj2 C10_negated_iff_both_parentheses)) (L "(123"));
    vm_compute; reflexivity.
Defined.
